(** * Verification of the 60s news services (WikiNews and Readhub)

    A shallow embedding of [ServiceWikiNews] and [ServiceReadhub]:
    JavaScript strings are sequences of UTF-16 code units, the regular
    expressions of the source are terms of a small backtracking matcher
    that follows the ECMAScript priorities (greedy and lazy quantifiers,
    capture groups), and the private fields of the two services are
    explicit records threaded through [fetch]. The methods of the
    extractor are also given as they run on the instance, with pattern
    objects that carry [lastIndex], and shown to return what the
    functions of the text return. *)

From Stdlib Require Import String Ascii.
From Stdlib Require Import List NArith ZArith Bool Lia.
Import ListNotations.

Set Implicit Arguments.

(** ** JavaScript strings *)

Module JS.

(** A code unit of a JavaScript string. *)
Definition char := N.
Definition str := list char.

(** An ASCII literal of the source, as code units. *)
Definition lit (s : string) : str :=
  List.map N_of_ascii (list_ascii_of_string s).

Arguments lit s%_string.

(** The double quote, which the literals above cannot hold. *)
Definition dq : str := [34%N].

Definition char_eqb : char -> char -> bool := N.eqb.

Fixpoint str_eqb (a b : str) : bool :=
  match a, b with
  | [], [] => true
  | x :: a', y :: b' => char_eqb x y && str_eqb a' b'
  | _, _ => false
  end.

(** [stripPrefix p s] is the rest of [s] after [p] when [s] starts with [p]. *)
Fixpoint stripPrefix (p s : str) : option str :=
  match p with
  | [] => Some s
  | x :: p' =>
      match s with
      | y :: s' => if char_eqb x y then stripPrefix p' s' else None
      | [] => None
      end
  end.

(** [String.prototype.startsWith]. *)
Definition startsWith (p s : str) : bool :=
  match stripPrefix p s with Some _ => true | None => false end.

(** [String.prototype.indexOf]: [None] stands for -1. *)
Fixpoint indexOf (p s : str) : option nat :=
  if startsWith p s then Some 0
  else match s with
       | [] => None
       | _ :: s' => option_map S (indexOf p s')
       end.

(** [String.prototype.substring] with one and with two arguments, on
    indices that are already within range and ordered. *)
Definition substringFrom (i : nat) (s : str) : str := skipn i s.
Definition substring (i j : nat) (s : str) : str := firstn (j - i) (skipn i s).

(** White space and line terminators: the class [\s] of a pattern and the
    characters [trim] removes. *)
Definition isSpace (c : char) : bool :=
  let in_list := existsb (N.eqb c) in
  in_list [9; 10; 11; 12; 13; 32; 160; 5760; 8232; 8233; 8239; 8287; 12288; 65279]%N
  || (N.leb 8192 c && N.leb c 8202).

(** Line terminators, which [.] does not match. *)
Definition isLineTerminator (c : char) : bool :=
  existsb (N.eqb c) [10; 13; 8232; 8233]%N.

Fixpoint trimStart (s : str) : str :=
  match s with
  | x :: s' => if isSpace x then trimStart s' else s
  | [] => []
  end.

Definition trimEnd (s : str) : str := rev (trimStart (rev s)).

(** [String.prototype.trim]. *)
Definition trim (s : str) : str := trimEnd (trimStart s).

(** Truthiness of a string: the empty string is falsy. *)
Definition truthy (s : str) : bool :=
  match s with [] => false | _ => true end.

(** [Array.prototype.join]. *)
Fixpoint join (sep : str) (l : list str) : str :=
  match l with
  | [] => []
  | [x] => x
  | x :: l' => x ++ sep ++ join sep l'
  end.

(** [Array.prototype.includes] on an array of strings. *)
Definition includes (l : list str) (x : str) : bool := existsb (str_eqb x) l.

(** Decimal rendering of a number inside a template literal. *)
Fixpoint digits (fuel : nat) (n : N) (acc : str) : str :=
  match fuel with
  | O => acc
  | S fuel' =>
      let acc' := (48 + N.modulo n 10)%N :: acc in
      if N.ltb n 10 then acc' else digits fuel' (N.div n 10) acc'
  end.

Definition showN (n : N) : str := digits (S (N.to_nat (N.log2 n))) n [].

Definition showZ (z : Z) : str :=
  if Z.ltb z 0 then lit "-" ++ showN (Z.abs_N z) else showN (Z.abs_N z).

End JS.

Import JS.

(** ** Regular expressions *)

Module RegExp.

Definition charclass := char -> bool.

(** The patterns of the source only quantify single character classes, so
    [Star] takes a class; [p+] is [Seq (Chr p) (Star true p)]. *)
Inductive regex : Type :=
| Lit (l : str)
| Chr (p : charclass)
| Seq (r1 r2 : regex)
| Star (greedy : bool) (p : charclass)
| Opt (r : regex)
| Group (i : nat) (r : regex).

Definition caps := list (nat * str).

(** The text of group [i], empty when the group did not take part. *)
Fixpoint cap (i : nat) (c : caps) : str :=
  match c with
  | [] => []
  | (j, v) :: c' => if Nat.eqb i j then v else cap i c'
  end.

Section Matcher.

Variable R : Type.

Definition cont := str -> caps -> option R.

(** [p*] and [p*?] before the continuation [k]: the greedy form takes a
    character first and falls back to [k], the lazy form tries [k] first. *)
Fixpoint star (greedy : bool) (p : charclass) (k : cont) (s : str) (c : caps)
  : option R :=
  if greedy then
    match s with
    | x :: s' =>
        if p x then
          match star greedy p k s' c with
          | Some r => Some r
          | None => k s c
          end
        else k s c
    | [] => k s c
    end
  else
    match k s c with
    | Some r => Some r
    | None =>
        match s with
        | x :: s' => if p x then star greedy p k s' c else None
        | [] => None
        end
    end.

(** Backtracking matcher in continuation-passing style. *)
Fixpoint m (r : regex) (k : cont) (s : str) (c : caps) : option R :=
  match r with
  | Lit l =>
      match stripPrefix l s with
      | Some s' => k s' c
      | None => None
      end
  | Chr p =>
      match s with
      | x :: s' => if p x then k s' c else None
      | [] => None
      end
  | Seq r1 r2 => m r1 (m r2 k) s c
  | Star g p => star g p k s c
  | Opt r1 =>
      match m r1 k s c with
      | Some x => Some x
      | None => k s c
      end
  | Group i r1 =>
      m r1 (fun s' c' => k s' ((i, firstn (length s - length s') s) :: c')) s c
  end.

End Matcher.

(** A match anchored at the start of [s]: the captures and the rest. *)
Definition exec_at (r : regex) (s : str) : option (caps * str) :=
  m r (fun s' c => Some (c, s')) s [].

(** The scan of a global pattern over a string: characters outside any
    match, and the matches from left to right. *)
Inductive token : Type :=
| Plain (x : char)
| Match (whole : str) (c : caps).

Fixpoint tokens_go (r : regex) (s : str) (skip : nat) : list token :=
  match s with
  | [] =>
      match skip with
      | O => match exec_at r [] with
             | Some (c, _) => [Match [] c]
             | None => []
             end
      | S _ => []
      end
  | x :: s' =>
      match skip with
      | S n => tokens_go r s' n
      | O =>
          match exec_at r s with
          | Some (c, rest) =>
              match length s - length rest with
              | O => Match [] c :: Plain x :: tokens_go r s' 0
              | S n => Match (firstn (S n) s) c :: tokens_go r s' n
              end
          | None => Plain x :: tokens_go r s' 0
          end
      end
  end.

Definition tokens (r : regex) (s : str) : list token := tokens_go r s 0.

(** [String.prototype.replace] with a global pattern and a replacer
    function; [St] is what the closure of the replacer mutates. *)
Fixpoint replace_tokens (St : Type) (f : St -> str -> caps -> St * str)
  (ts : list token) (st : St) : St * str :=
  match ts with
  | [] => (st, [])
  | Plain x :: ts' =>
      let (st', out) := replace_tokens f ts' st in (st', x :: out)
  | Match w c :: ts' =>
      let (st1, rep) := f st w c in
      let (st2, out) := replace_tokens f ts' st1 in
      (st2, rep ++ out)
  end.

Definition replaceWith (St : Type) (r : regex)
  (f : St -> str -> caps -> St * str) (s : str) (st : St) : St * str :=
  replace_tokens f (tokens r s) st.

(** [replace] with a replacement that reads no state. *)
Definition replace (r : regex) (f : caps -> str) (s : str) : str :=
  snd (replaceWith r (fun (st : unit) _ c => (st, f c)) s tt).

(** The matches of a scan, in order: what a [while (re.exec(s))] loop sees. *)
Fixpoint matches_of (ts : list token) : list (str * caps) :=
  match ts with
  | [] => []
  | Plain _ :: ts' => matches_of ts'
  | Match w c :: ts' => (w, c) :: matches_of ts'
  end.

Definition execAll (r : regex) (s : str) : list (str * caps) :=
  matches_of (tokens r s).

(** [String.prototype.match] with a global pattern: [None] is [null]. *)
Definition matchAll (r : regex) (s : str) : option (list str) :=
  match execAll r s with
  | [] => None
  | ms => Some (List.map fst ms)
  end.

(** [String.prototype.split] with a pattern that has no capture group and
    matches no empty string: the pieces between the matches. *)
Fixpoint split_go (ts : list token) (piece : str) : list str :=
  match ts with
  | [] => [rev piece]
  | Plain x :: ts' => split_go ts' (x :: piece)
  | Match _ _ :: ts' => rev piece :: split_go ts' []
  end.

Definition split (r : regex) (s : str) : list str := split_go (tokens r s) [].

(** Character classes of the source patterns. *)
Definition any : charclass := fun _ => true.
Definition dot : charclass := fun c => negb (isLineTerminator c).
Definition space : charclass := isSpace.
Definition oneOf (x : str) : charclass :=
  fun c => existsb (N.eqb c) x.
Definition noneOf (x : str) : charclass :=
  fun c => negb (existsb (N.eqb c) x).

Definition plus (p : charclass) : regex := Seq (Chr p) (Star true p).

Fixpoint seq (rs : list regex) : regex :=
  match rs with
  | [] => Lit []
  | [r] => r
  | r :: rs' => Seq r (seq rs')
  end.

End RegExp.

Import RegExp.

(** ** Exceptions *)

(** A computation that returns a value or throws [new Error(msg)]. *)
Inductive result (A : Type) : Type :=
| Ok (a : A)
| Throw (msg : str).

Arguments Ok {A} a.
Arguments Throw {A} msg.

Definition bind (A B : Type) (x : result A) (f : A -> result B) : result B :=
  match x with
  | Ok a => f a
  | Throw e => Throw e
  end.

Notation "x <- c1 ;; c2" := (bind c1 (fun x => c2))
  (at level 61, c1 at next level, right associativity).

(** [try { body } catch (error) { handler(error.message) }]. *)
Definition try_catch (A : Type) (body : result A) (handler : str -> A) : A :=
  match body with
  | Ok a => a
  | Throw e => handler e
  end.

(** ** The data model of the WikiNews feed *)

Record NewsItem : Type := { text : str }.

Record NewsCategory : Type := { title : str; items : list NewsItem }.

Record WikiNewsItem : Type := {
  date : str;
  news : list NewsCategory;
  source_url : str;
  updated : str;
  updated_at : Z
}.

(** ** The WikiNews extractor *)

Module WikiNews.

(** The patterns of the extractor, in the order of the source. *)

(** The content block: the opening tag [contentOpen], group 1 lazy
    [[\s\S]*?], the closing [</div>]; global. *)
Definition contentOpen : str :=
  lit "<div class=" ++ dq ++ lit "current-events-content description" ++ dq
  ++ lit ">".

Definition contentClose : str := lit "</div>".

Definition contentDivRe : regex :=
  seq [Lit contentOpen; Group 1 (Star false any); Lit contentClose].

(** [/<p><b>/] *)
Definition headingMark : str := lit "<p><b>".
Definition headingRe : regex := Lit headingMark.

(** [/<li>([\s\S]*?)<\/li>/g] *)
Definition listItemRegex : regex :=
  seq [Lit (lit "<li>"); Group 1 (Star false any); Lit (lit "</li>")].

(** The external anchor: [<a], [\s+], lazy [[^>]*?], [class=] with an
    opening double quote and [external], lazy [[^>]*?], [href=] with an
    opening double quote, group 1 the greedy run of non-quotes, the closing
    double quote, greedy [[^>]*], [>], group 2 lazy [.*?], [</a>]; global. *)
Definition externalAnchorRe : regex :=
  seq [Lit (lit "<a"); plus space;
       Star false (noneOf (lit ">"));
       Lit (lit "class=" ++ dq ++ lit "external");
       Star false (noneOf (lit ">"));
       Lit (lit "href=" ++ dq);
       Group 1 (Star true (noneOf dq));
       Lit dq;
       Star true (noneOf (lit ">"));
       Lit (lit ">");
       Group 2 (Star false dot);
       Lit (lit "</a>")].

(** The ordinary anchor: [<a], [\s+], the optional non-capturing group of
    lazy [[^>]*?] and [\s+], [href=] with an opening double quote, group 1
    the greedy run of non-quotes, the closing double quote, greedy [[^>]*],
    [>], group 2 lazy [.*?], [</a>]; global. *)
Definition plainAnchorRe : regex :=
  seq [Lit (lit "<a"); plus space;
       Opt (Seq (Star false (noneOf (lit ">"))) (plus space));
       Lit (lit "href=" ++ dq);
       Group 1 (Star true (noneOf dq));
       Lit dq;
       Star true (noneOf (lit ">"));
       Lit (lit ">");
       Group 2 (Star false dot);
       Lit (lit "</a>")].

(** The sub-list and the bullet: [<ul] (or [<li]), greedy [[^>]*], [>],
    group 1 lazy [[\s\S]*?], [</ul>] (or [</li>]); global. *)
Definition ulRe : regex :=
  seq [Lit (lit "<ul"); Star true (noneOf (lit ">")); Lit (lit ">");
       Group 1 (Star false any); Lit (lit "</ul>")].

Definition liRe : regex :=
  seq [Lit (lit "<li"); Star true (noneOf (lit ">")); Lit (lit ">");
       Group 1 (Star false any); Lit (lit "</li>")].

(** [/<[^>]*?>/g] *)
Definition tagRe : regex :=
  seq [Lit (lit "<"); Star false (noneOf (lit ">")); Lit (lit ">")].

(** [/\s+/g], [/\s+:/g] and [/\s+\./g] *)
Definition spacesRe : regex := plus space.
Definition spacesColonRe : regex := Seq (plus space) (Lit (lit ":")).
Definition spacesDotRe : regex := Seq (plus space) (Lit (lit ".")).

Definition bullet : str := [8226%N].
Definition ndash : str := [8211%N].
Definition mdash : str := [8212%N].

Definition origin : str := lit "https://en.wikipedia.org".

(** A replacement string without [$]: the same text for every match. *)
Definition replaceAll (pat : str) (by_ : str) (s : str) : str :=
  replace (Lit pat) (fun _ => by_) s.

(** [#cleanHtml]. *)
Definition cleanHtml (html : str) : str :=
  let processedHtml :=
    replace liRe (fun c => bullet ++ lit " " ++ cap 1 c ++ lit " ")
      (replace ulRe (fun c => lit ": " ++ cap 1 c) html) in
  let text1 := replace tagRe (fun _ => []) processedHtml in
  let text2 :=
    replaceAll (lit "&nbsp;") (lit " ")
      (replaceAll (lit "&mdash;") mdash
        (replaceAll (lit "&ndash;") ndash
          (replaceAll (lit "&#39;") (lit "'")
            (replaceAll (lit "&quot;") dq
              (replaceAll (lit "&gt;") (lit ">")
                (replaceAll (lit "&lt;") (lit "<")
                  (replaceAll (lit "&amp;") (lit "&") text1))))))) in
  trim
    (replace spacesDotRe (fun _ => lit ".")
      (replace spacesColonRe (fun _ => lit ":")
        (replaceAll (lit ": " ++ bullet) (lit ": ")
          (replaceAll (bullet ++ lit " " ++ bullet) bullet
            (replace spacesRe (fun _ => lit " ") text2))))).

(** The two arrays the replacers of [#processItemLinks] push to. *)
Record ItemLinks : Type := { itemText : str; links : list str }.

(** The replacer of the external-link pass: pushes to [externalLinks]. *)
Definition externalReplacer (externalLinks : list str) (whole : str) (c : caps)
  : list str * str :=
  let href := cap 1 c in
  let label := cap 2 c in
  if truthy label && truthy href then
    (externalLinks
       ++ [(if truthy label then label else lit "Source")
           ++ lit " (" ++ href ++ lit ")"], [])
  else (externalLinks, []).

(** The replacer of the ordinary-link pass: pushes to [links]. *)
Definition plainReplacer (links : list str) (whole : str) (c : caps)
  : list str * str :=
  let href := cap 1 c in
  let label := cap 2 c in
  if negb (truthy href) || negb (truthy label) then
    (links, if truthy label then label else [])
  else
    let href' := if startsWith (lit "/") href then origin ++ href else href in
    let linkEntry := label ++ lit " (" ++ href' ++ lit ")" in
    (if negb (includes links linkEntry) then links ++ [linkEntry] else links,
     label).

(** [#processItemLinks]. *)
Definition processItemLinks (html : str) : ItemLinks :=
  let (externalLinks, htmlWithoutExternals) :=
    replaceWith externalAnchorRe externalReplacer html [] in
  let (links, processedHtml) :=
    replaceWith plainAnchorRe plainReplacer htmlWithoutExternals [] in
  {| itemText := processedHtml; links := links ++ externalLinks |}.

(** The text of one list item, from the trimmed fragment. *)
Definition itemFinalText (itemHtml : str) : str :=
  let r := processItemLinks itemHtml in
  let finalText := cleanHtml (itemText r) in
  match links r with
  | [] => finalText
  | _ => finalText ++ lit " [" ++ join (lit ", ") (links r) ++ lit "]"
  end.

(** The body of the [while] loop of [#extractCategoryItems], for one match. *)
Definition pushListItem (items : list NewsItem) (mt : str * caps)
  : list NewsItem :=
  let group1 := cap 1 (snd mt) in
  if truthy group1 then
    let itemHtml := trim group1 in
    if negb (truthy itemHtml) then items
    else
      let finalText := itemFinalText itemHtml in
      if truthy (trim finalText) then items ++ [{| text := trim finalText |}]
      else items
  else items.

Definition extractCategoryItems_body (sectionContent : str)
  : result (list NewsItem) :=
  let items := fold_left pushListItem (execAll listItemRegex sectionContent) [] in
  match items with
  | [] =>
      let plainContent := cleanHtml sectionContent in
      if truthy (trim plainContent) then Ok [{| text := trim plainContent |}]
      else Ok items
  | _ => Ok items
  end.

(** [#extractCategoryItems]. *)
Definition extractCategoryItems (sectionContent categoryTitle : str)
  : list NewsItem :=
  try_catch (extractCategoryItems_body sectionContent)
    (fun e => [{| text := lit "Error parsing items: " ++ e |}]).

(** The body of the [for] loop of [#extractNewsContent], for one section. *)
Definition pushSection (categories : list NewsCategory) (section : str)
  : list NewsCategory :=
  match indexOf (lit "</b>") section with
  | None => categories
  | Some titleEndIndex =>
      let categoryTitle := trim (substring 0 titleEndIndex section) in
      match indexOf (lit "</p>") section with
      | None => categories
      | Some i =>
          let contentStartIndex := i + 4 in
          let sectionContent := substringFrom contentStartIndex section in
          let items := extractCategoryItems sectionContent categoryTitle in
          match items with
          | [] => categories
          | _ => categories ++ [{| title := categoryTitle; items := items |}]
          end
      end
  end.

Definition errorCategory : list NewsCategory :=
  [{| title := lit "Error";
      items := [{| text := lit "No news content sections found in the HTML" |}] |}].

Definition noCategories : list NewsCategory :=
  [{| title := lit "Uncategorized";
      items := [{| text := lit "No categories found in content" |}] |}].

Definition noItems : list NewsCategory :=
  [{| title := lit "Uncategorized";
      items := [{| text := lit "No news items could be parsed from the source" |}] |}].

Definition parsingError (e : str) : list NewsCategory :=
  [{| title := lit "Parsing Error";
      items := [{| text := lit "Error while parsing the news content: " ++ e |}] |}].

(** The categories collected from the sections of the first content block. *)
Definition collectCategories (categorySections : list str)
  : list NewsCategory :=
  match categorySections with
  | [] => []
  | first :: rest =>
      let categories :=
        if truthy (trim first) then
          match extractCategoryItems first (lit "Uncategorized") with
          | [] => []
          | uncategorizedItems =>
              [{| title := lit "Uncategorized"; items := uncategorizedItems |}]
          end
        else [] in
      fold_left pushSection rest categories
  end.

Definition extractNewsContent_body (html : str) : result (list NewsCategory) :=
  match matchAll contentDivRe html with
  | None => Ok errorCategory
  | Some [] => Ok errorCategory
  | Some (firstContentDiv :: _) =>
      let categorySections := split headingRe firstContentDiv in
      if Nat.leb (length categorySections) 1 then Ok noCategories
      else
        match collectCategories categorySections with
        | [] => Ok noItems
        | categories => Ok categories
        end
  end.

(** [#extractNewsContent]. *)
Definition extractNewsContent (html : str) : list NewsCategory :=
  try_catch (extractNewsContent_body html) parsingError.

End WikiNews.

(** ** The earlier renderer of list items ([wikinews.module.ts]) *)

Module WikiNewsMarkdown.

Import WikiNews.

(** [String.prototype.includes]. *)
Definition strIncludes (p s : str) : bool :=
  match indexOf p s with Some _ => true | None => false end.

(** The replacer of the first pass of [#convertLinksToMarkdown]. *)
Definition markdownReplacer (whole : str) (c : caps) : str :=
  let href := cap 1 c in
  let label := cap 2 c in
  if strIncludes (lit "class=" ++ dq ++ lit "external") whole then whole
  else
    let href' := if startsWith (lit "/") href then origin ++ href else href in
    lit "[" ++ label ++ lit "](" ++ href' ++ lit ")".

(** The replacer of the second pass, for the external anchors. *)
Definition externalMarkdownReplacer (c : caps) : str :=
  lit "[(" ++ cap 2 c ++ lit ")](" ++ cap 1 c ++ lit ")".

(** [#convertLinksToMarkdown]. *)
Definition convertLinksToMarkdown (html : str) : str :=
  let result1 :=
    snd (replaceWith plainAnchorRe
           (fun (st : unit) whole c => (st, markdownReplacer whole c)) html tt) in
  replace externalAnchorRe externalMarkdownReplacer result1.

End WikiNewsMarkdown.

(** ** Dates, as ECMAScript computes them *)

Module Date.

Open Scope Z_scope.

Definition msPerDay : Z := 86400000.

Definition Day (t : Z) : Z := t / msPerDay.

Definition DaysInYear (y : Z) : Z :=
  if negb (y mod 4 =? 0) then 365
  else if negb (y mod 100 =? 0) then 366
  else if negb (y mod 400 =? 0) then 365
  else 366.

Definition DayFromYear (y : Z) : Z :=
  365 * (y - 1970) + (y - 1969) / 4 - (y - 1901) / 100 + (y - 1601) / 400.

(** The largest year that starts on or before day [d], searched downwards
    from a year that starts after it. *)
Fixpoint yearSearch (fuel : nat) (y d : Z) : Z :=
  match fuel with
  | O => y
  | S fuel' => if DayFromYear y <=? d then y else yearSearch fuel' (y - 1) d
  end.

Definition YearFromDay (d : Z) : Z :=
  yearSearch (Z.to_nat (Z.abs d / 100000 + 4))
    (1970 + Z.max (d / 365) (d / 366) + 1) d.

Definition InLeapYear (y : Z) : Z := if DaysInYear y =? 366 then 1 else 0.

(** The day within the year on which each month starts. *)
Definition monthStarts (leap : Z) : list Z :=
  [0; 31; 59 + leap; 90 + leap; 120 + leap; 151 + leap; 181 + leap;
   212 + leap; 243 + leap; 273 + leap; 304 + leap; 334 + leap].

(** The month (from 0) and the day of the month (from 1) of a day within
    the year. *)
Fixpoint monthAndDate (starts : list Z) (m : Z) (cur : Z * Z) (dayInYear : Z)
  : Z * Z :=
  match starts with
  | [] => cur
  | s :: starts' =>
      if s <=? dayInYear
      then monthAndDate starts' (m + 1) (m, dayInYear - s + 1) dayInYear
      else cur
  end.

Definition YearFromTime (t : Z) : Z := YearFromDay (Day t).

Definition DayWithinYear (t : Z) : Z := Day t - DayFromYear (YearFromTime t).

Definition MonthFromTime (t : Z) : Z :=
  fst (monthAndDate (monthStarts (InLeapYear (YearFromTime t))) 0 (0, 1)
         (DayWithinYear t)).

Definition DateFromTime (t : Z) : Z :=
  snd (monthAndDate (monthStarts (InLeapYear (YearFromTime t))) 0 (0, 1)
         (DayWithinYear t)).

(** The month names of the locale [en]. *)
Definition monthNames : list str :=
  [lit "January"; lit "February"; lit "March"; lit "April"; lit "May";
   lit "June"; lit "July"; lit "August"; lit "September"; lit "October";
   lit "November"; lit "December"].

Section LocalTime.

(** The offset of local time from UTC at an instant: it belongs to the host
    the service runs on, and changes at a daylight-saving transition. *)
Variable LocalTZA : Z -> Z.

Definition LocalTime (t : Z) : Z := t + LocalTZA t.

(** The calendar day of an instant in local time, counted from the epoch. *)
Definition localDay (t : Z) : Z := Day (LocalTime t).

Definition getFullYear (t : Z) : Z := YearFromTime (LocalTime t).
Definition getMonth (t : Z) : Z := MonthFromTime (LocalTime t).
Definition getDate (t : Z) : Z := DateFromTime (LocalTime t).

(** [toLocaleString('en', { month: 'long' })]. *)
Definition monthLong (t : Z) : str :=
  nth (Z.to_nat (getMonth t)) monthNames [].

End LocalTime.

End Date.

(** ** The fetchers *)

(** What the outbound [fetch(url)] gives: a rejection, or a response with a
    status and a body whose reading may fail. *)
Inductive Response : Type :=
| NetworkError (msg : str)
| HttpResponse (status : Z) (body : result str).

(** [response.ok]: a status in the range 200 to 299. *)
Definition ok (status : Z) : bool := (200 <=? status)%Z && (status <=? 299)%Z.

(** One call of a [#fetch] method: the value it resolves to or the error it
    rejects with, the private fields afterwards, and the outbound requests
    it made. *)
Record Run (S A : Type) : Type := {
  returned : result A;
  after : S;
  requests : list str
}.

Module ServiceWikiNews.

Import WikiNews.

Record State : Type := {
  cache : option WikiNewsItem;
  cacheDate : str;
  lastFetchTime : Z
}.

(** The fields of a new instance. *)
Definition init : State :=
  {| cache := None; cacheDate := []; lastFetchTime := 0 |}.

Definition noCacheError : str :=
  lit "Failed to fetch Wikipedia news data and no cache available".

Definition urlPrefix : str :=
  lit "https://en.wikipedia.org/wiki/Portal:Current_events/".

Section Fetch.

(** [Common.localeDate] and [Common.localeTime] of [common.ts], and the
    time zone of the host. *)
Variable localeDate : Z -> str.
Variable localeTime : Z -> str.
Variable LocalTZA : Z -> Z.

Definition todayKey (now : Z) : str :=
  replaceAll (lit "/") (lit "-") (localeDate now).

Definition targetDate (now : Z) : Z := (now - 24 * 60 * 60 * 1000)%Z.

Definition yearOf (t : Z) : str := showZ (Date.getFullYear LocalTZA t).
Definition monthOf (t : Z) : str := Date.monthLong LocalTZA t.
Definition dayOf (t : Z) : str := showZ (Date.getDate LocalTZA t).

Definition pageUrl (t : Z) : str :=
  urlPrefix ++ yearOf t ++ lit "_" ++ monthOf t ++ lit "_" ++ dayOf t.

Definition formattedDate (t : Z) : str :=
  monthOf t ++ lit " " ++ dayOf t ++ lit ", " ++ yearOf t.

(** The [try] block of [#fetch], after the request to [url]. *)
Definition fetchFresh (now : Z) (url : str) (response : Response)
  : result WikiNewsItem :=
  match response with
  | NetworkError e => Throw e
  | HttpResponse status body =>
      if negb (ok status)
      then Throw (lit "Failed to fetch data from Wikipedia: " ++ showZ status)
      else
        html <- body ;;
        Ok {| date := formattedDate (targetDate now);
              news := extractNewsContent html;
              source_url := url;
              updated := localeTime now;
              updated_at := now |}
  end.

(** [#fetch]. *)
Definition fetch (this : State) (now : Z) (upstream : str -> Response)
  : Run State WikiNewsItem :=
  let today := todayKey now in
  let hit :=
    match cache this with
    | Some _ => str_eqb (cacheDate this) today
    | None => false
    end in
  match cache this, hit with
  | Some cached, true =>
      {| returned := Ok cached; after := this; requests := [] |}
  | _, _ =>
      let url := pageUrl (targetDate now) in
      match fetchFresh now url (upstream url) with
      | Ok data =>
          {| returned := Ok data;
             after := {| cache := Some data; cacheDate := today;
                         lastFetchTime := now |};
             requests := [url] |}
      | Throw _ =>
          match cache this with
          | Some cached =>
              {| returned := Ok cached; after := this; requests := [url] |}
          | None =>
              {| returned := Throw noCacheError; after := this;
                 requests := [url] |}
          end
      end
  end.

End Fetch.

End ServiceWikiNews.

Module ServiceReadhub.

Record Topic : Type := { topicTitle : str; link : str }.

Record ReadhubNewsItem : Type := {
  rdate : str;
  rnews : list Topic;
  tip : str;
  rupdated : str;
  rupdated_at : Z
}.

Record State : Type := {
  cache : option ReadhubNewsItem;
  cacheTime : Z
}.

Definition init : State := {| cache := None; cacheTime := 0 |}.

(** The field [#cacheDuration], which no method assigns: 30 minutes. *)
Definition cacheDuration : Z := 30 * 60 * 1000.

Definition dailyUrl : str := lit "https://readhub.cn/daily".

Definition noCacheError : str :=
  lit "Failed to fetch Readhub data and no cache available".

(** The article anchor: [<a], [\s+], lazy [[^>]*?], [href=] with an opening
    double quote, group 1 [/topic/] and one or more non-quotes, the closing
    double quote, lazy [[^>]*?], [>], group 2 one or more characters other
    than [<], [</a>]; global. *)
Definition articlePattern : regex :=
  seq [Lit (lit "<a"); plus space;
       Star false (noneOf (lit ">"));
       Lit (lit "href=" ++ dq);
       Group 1 (Seq (Lit (lit "/topic/")) (plus (noneOf dq)));
       Lit dq;
       Star false (noneOf (lit ">"));
       Lit (lit ">");
       Group 2 (plus (noneOf (lit "<")));
       Lit (lit "</a>")].

(** The body of the [while] loop, for one match. *)
Definition pushTopic (newsItems : list Topic) (mt : str * caps) : list Topic :=
  let link := lit "https://readhub.cn" ++ cap 1 (snd mt) in
  let title := trim (cap 2 (snd mt)) in
  if truthy title && truthy link
  then newsItems ++ [{| topicTitle := title; link := link |}]
  else newsItems.

Definition parseTopics (html : str) : list Topic :=
  fold_left pushTopic (execAll articlePattern html) [].

Definition dailyTip : str :=
  [19975; 29289; 20043; 20013; 65292; 24076; 26395; 33267; 32654]%N.

Section Fetch.

Variable localeDate : Z -> str.
Variable localeTime : Z -> str.

Definition fetchFresh (now : Z) (response : Response) : result ReadhubNewsItem :=
  match response with
  | NetworkError e => Throw e
  | HttpResponse status body =>
      if negb (ok status) then Throw (lit "Failed to fetch data from Readhub")
      else
        html <- body ;;
        Ok {| rdate := localeDate now;
              rnews := parseTopics html;
              tip := dailyTip;
              rupdated := localeTime now;
              rupdated_at := now |}
  end.

(** The cache check of [#fetch]. *)
Definition cacheValid (this : State) (now : Z) : bool :=
  match cache this with
  | Some _ => (now - cacheTime this <? cacheDuration)%Z
  | None => false
  end.

(** [#fetch]. *)
Definition fetch (this : State) (now : Z) (upstream : str -> Response)
  : Run State ReadhubNewsItem :=
  match cache this, cacheValid this now with
  | Some cached, true =>
      {| returned := Ok cached; after := this; requests := [] |}
  | _, _ =>
      match fetchFresh now (upstream dailyUrl) with
      | Ok data =>
          {| returned := Ok data;
             after := {| cache := Some data; cacheTime := now |};
             requests := [dailyUrl] |}
      | Throw _ =>
          match cache this with
          | Some cached =>
              {| returned := Ok cached; after := this; requests := [dailyUrl] |}
          | None =>
              {| returned := Throw noCacheError; after := this;
                 requests := [dailyUrl] |}
          end
      end
  end.

End Fetch.

End ServiceReadhub.

(** ** Vocabulary of the specification *)

(** [p] occurs in [s] as a contiguous run. *)
Definition occurs (p s : str) : Prop := exists pre post, s = pre ++ p ++ post.

(** A pattern that can only match where the literal [l] starts. *)
Definition needsPrefix (r : regex) (l : str) : Prop :=
  forall s x, exec_at r s = Some x -> exists s', s = l ++ s'.

(** The shape of the content-block and list-item patterns: an opening
    literal, a lazy run of any characters as group 1, a closing literal. *)
Definition delimited (o c : str) : regex :=
  seq [Lit o; Group 1 (Star false any); Lit c].

(** The section-location marker: the class name of the content block. *)
Definition marker : str := lit "current-events-content description".

(** Two outputs of the extractor are structurally identical: the same
    categories in the same order, each with the same title and the same
    item texts in the same order. *)
Definition sameItems (a b : list NewsItem) : Prop :=
  Forall2 (fun x y => text x = text y) a b.

Definition sameOutput (a b : list NewsCategory) : Prop :=
  Forall2 (fun x y => title x = title y /\ sameItems (items x) (items y)) a b.

(** The "Label (url)" entry of an annotation list. *)
Definition entry (label url : str) : str :=
  label ++ lit " (" ++ url ++ lit ")".

(** The fragment after the external-link pass of [#processItemLinks]. *)
Definition withoutExternals (html : str) : str :=
  snd (replaceWith WikiNews.externalAnchorRe WikiNews.externalReplacer html []).

(** An anchor as the source page writes it: [<a href=], the target between
    double quotes, [>], the label, [</a>]. *)
Definition anchor (href label : str) : str :=
  lit "<a href=" ++ dq ++ href ++ dq ++ lit ">" ++ label ++ lit "</a>".

(** An external-flagged anchor: the class comes before the target. *)
Definition externalAnchor (href label : str) : str :=
  lit "<a class=" ++ dq ++ lit "external text" ++ dq ++ lit " href=" ++ dq
  ++ href ++ dq ++ lit ">" ++ label ++ lit "</a>".

(** The characters of a target as the source page writes it: no white
    space, no double quote, no angle bracket. *)
Definition hrefChar (x : char) : bool :=
  negb (isSpace x) && negb (N.eqb x 34) && negb (N.eqb x 60) && negb (N.eqb x 62).

(** The characters of a label: no line terminator and no [<]. *)
Definition labelChar (x : char) : bool :=
  negb (isLineTerminator x) && negb (N.eqb x 60).

(** The characters of the text around an anchor: no [<]. *)
Definition textChar (x : char) : bool := negb (N.eqb x 60).

(** The first character of a string satisfies [q]. *)
Definition headIs (q : char -> bool) (l : str) : bool :=
  match l with
  | y :: _ => q y
  | [] => false
  end.

(** A continuation that fails on every string whose first character
    satisfies [q]. *)
Definition rejects (R : Type) (k : cont R) (q : charclass) : Prop :=
  forall x s c, q x = true -> k (x :: s) c = None.

(** The characters at which the literal [l] cannot start. *)
Definition notHeadOf (l : str) : charclass :=
  fun x => headIs (fun a => negb (N.eqb a x)) l.

(** A failed upstream call: a rejection, a status outside 200-299, or a
    body that cannot be read. *)
Definition upstreamFailed (r : Response) : Prop :=
  match r with
  | NetworkError _ => True
  | HttpResponse status body =>
      ok status = false \/ exists e, body = Throw e
  end.

(** A host in the Europe/Berlin zone in autumn 2024: two hours ahead of UTC
    until 2024-10-27T01:00:00Z, one hour ahead afterwards. *)
Definition berlin2024 (t : Z) : Z :=
  if (t <? 1729990800000)%Z then 7200000%Z else 3600000%Z.

(** ** Pattern objects and the methods on the instance *)

Unset Implicit Arguments.

(** A pattern object with the [g] flag, as every pattern of the source
    that is matched, replaced or executed has: the pattern and the mutable
    [lastIndex]. *)
Module RegExpObject.

Record t : Type := { source : regex; lastIndex : nat }.

(** Evaluating a pattern literal creates a new object, with [lastIndex] 0. *)
Definition literal (r : regex) : t := {| source := r; lastIndex := 0 |}.

Definition setLastIndex (re : t) (i : nat) : t :=
  {| source := source re; lastIndex := i |}.

(** What [exec] returns: the matched text, the groups and [index]. *)
Record MatchResult : Type := { whole : str; groups : caps; index : nat }.

(** The search of [RegExpBuiltinExec]: the matcher is tried at [lastIndex]
    and, after a failure, one position further, up to the end of the
    string. [s] is the string from [lastIndex] on. *)
Fixpoint search (r : regex) (s : str) (lastIndex : nat)
  : option (nat * caps * str) :=
  match exec_at r s with
  | Some (c, rest) => Some (lastIndex, c, rest)
  | None =>
      match s with
      | [] => None
      | _ :: s' => search r s' (S lastIndex)
      end
  end.

(** [RegExp.prototype.exec]: the search starts at [lastIndex]; a match
    stores its end there, and [null] stores 0. *)
Definition exec (re : t) (input : str) : option MatchResult * t :=
  if length input <? lastIndex re then (None, setLastIndex re 0)
  else
    match search (source re) (skipn (lastIndex re) input) (lastIndex re) with
    | None => (None, setLastIndex re 0)
    | Some (i, c, rest) =>
        let e := length input - length rest in
        (Some {| whole := substring i e input; groups := c; index := i |},
         setLastIndex re e)
    end.

(** The loop of [String.prototype.match] and [String.prototype.replace]:
    [exec] until it returns [null]; after an empty match [lastIndex] is
    moved one position on. [None] is a loop that has not ended within
    [fuel] rounds. *)
Fixpoint collect (fuel : nat) (re : t) (input : str)
  (results : list MatchResult) : option (list MatchResult * t) :=
  match fuel with
  | O => None
  | S fuel' =>
      match exec re input with
      | (None, re') => Some (results, re')
      | (Some result, re') =>
          let re'' :=
            if truthy (whole result) then re'
            else setLastIndex re' (S (lastIndex re')) in
          collect fuel' re'' input (results ++ [result])
      end
  end.

(** Both methods set [lastIndex] to 0 first. The loop makes at most one
    round for each position of the string, one at its end and one that
    returns [null]. *)
Definition allResults (re : t) (input : str)
  : option (list MatchResult * t) :=
  collect (length input + 2) (setLastIndex re 0) input [].

(** [String.prototype.match]: [null] when there is no match. *)
Definition stringMatch (re : t) (input : str)
  : option (option (list str) * t) :=
  match allResults re input with
  | None => None
  | Some ([], re') => Some (None, re')
  | Some (results, re') => Some (Some (List.map whole results), re')
  end.

(** The second loop of [String.prototype.replace], over the results: the
    text since [nextSourcePosition], then the replacement. The replacer
    is called for every result, in order; [St] is what its closure
    mutates. *)
Fixpoint substitute (St : Type) (f : St -> str -> caps -> St * str)
  (input : str) (results : list MatchResult) (st : St)
  (accumulatedResult : str) (nextSourcePosition : nat) : St * str :=
  match results with
  | [] => (st, accumulatedResult ++ substringFrom nextSourcePosition input)
  | result :: results' =>
      let (st', replacement) := f st (whole result) (groups result) in
      let position := index result in
      if nextSourcePosition <=? position then
        substitute St f input results' st'
          (accumulatedResult
           ++ substring nextSourcePosition position input ++ replacement)
          (position + length (whole result))
      else
        substitute St f input results' st' accumulatedResult
          nextSourcePosition
  end.

(** [String.prototype.replace] with a replacer function. *)
Definition stringReplace (St : Type) (re : t)
  (f : St -> str -> caps -> St * str) (input : str) (st : St)
  : option (St * str * t) :=
  match allResults re input with
  | None => None
  | Some (results, re') =>
      Some (substitute St f input results st [] 0, re')
  end.

End RegExpObject.

(** The methods of [ServiceWikiNews] as they run on the instance: each
    takes the private fields and returns them with its value, the
    patterns are objects created where the source writes the literal, and
    the [while] loop over [exec] runs on fuel. *)
Module Stateful.

Import WikiNews.

(** A method on the instance; [None] is a loop that has not ended. *)
Definition M (A : Type) : Type :=
  ServiceWikiNews.State -> option (A * ServiceWikiNews.State).

Definition ret {A : Type} (a : A) : M A := fun this => Some (a, this).

Definition bindM {A B : Type} (x : M A) (f : A -> M B) : M B :=
  fun this =>
    match x this with
    | Some (a, this') => f a this'
    | None => None
    end.

Notation "x <-- c1 ;; c2" := (bindM c1 (fun x => c2))
  (at level 61, c1 at next level, right associativity).

(** A built-in called on a pattern literal: the object is not kept. *)
Definition onLiteral {A : Type} (x : option (A * RegExpObject.t)) : M A :=
  fun this =>
    match x with
    | Some (a, _) => Some (a, this)
    | None => None
    end.

(** [s.replace(/r/g, replacer)] with a replacer that mutates [st]. *)
Definition replaceWith (St : Type) (r : regex)
  (f : St -> str -> caps -> St * str) (s : str) (st : St) : M (St * str) :=
  onLiteral (RegExpObject.stringReplace St (RegExpObject.literal r) f s st).

(** [s.replace(/r/g, replacement)] with a replacement string. *)
Definition replace (r : regex) (f : caps -> str) (s : str) : M str :=
  out <-- replaceWith unit r (fun st _ c => (st, f c)) s tt ;;
  ret (snd out).

Definition replaceAll (pat : str) (by_ : str) (s : str) : M str :=
  replace (Lit pat) (fun _ => by_) s.

(** [s.match(/r/g)]. *)
Definition matchAll (r : regex) (s : str) : M (option (list str)) :=
  onLiteral (RegExpObject.stringMatch (RegExpObject.literal r) s).

(** [#cleanHtml]. *)
Definition cleanHtml (html : str) : M str :=
  withoutLists <-- replace ulRe (fun c => lit ": " ++ cap 1 c) html ;;
  processedHtml <--
    replace liRe (fun c => bullet ++ lit " " ++ cap 1 c ++ lit " ")
      withoutLists ;;
  text <-- replace tagRe (fun _ => []) processedHtml ;;
  text <-- replaceAll (lit "&amp;") (lit "&") text ;;
  text <-- replaceAll (lit "&lt;") (lit "<") text ;;
  text <-- replaceAll (lit "&gt;") (lit ">") text ;;
  text <-- replaceAll (lit "&quot;") dq text ;;
  text <-- replaceAll (lit "&#39;") (lit "'") text ;;
  text <-- replaceAll (lit "&ndash;") ndash text ;;
  text <-- replaceAll (lit "&mdash;") mdash text ;;
  text <-- replaceAll (lit "&nbsp;") (lit " ") text ;;
  text <-- replace spacesRe (fun _ => lit " ") text ;;
  text <-- replaceAll (bullet ++ lit " " ++ bullet) bullet text ;;
  text <-- replaceAll (lit ": " ++ bullet) (lit ": ") text ;;
  text <-- replace spacesColonRe (fun _ => lit ":") text ;;
  text <-- replace spacesDotRe (fun _ => lit ".") text ;;
  ret (trim text).

(** [#processItemLinks]. *)
Definition processItemLinks (html : str) : M ItemLinks :=
  first <-- replaceWith (list str) externalAnchorRe externalReplacer html [] ;;
  second <--
    replaceWith (list str) plainAnchorRe plainReplacer (snd first) [] ;;
  ret {| itemText := snd second; links := fst second ++ fst first |}.

(** The body of the [while] loop of [#extractCategoryItems]. *)
Definition pushListItem (items : list NewsItem)
  (itemMatch : RegExpObject.MatchResult) : M (list NewsItem) :=
  let group1 := cap 1 (RegExpObject.groups itemMatch) in
  if truthy group1 then
    let itemHtml := trim group1 in
    if negb (truthy itemHtml) then ret items
    else
      r <-- processItemLinks itemHtml ;;
      finalText <-- cleanHtml (itemText r) ;;
      let finalText :=
        match links r with
        | [] => finalText
        | _ => finalText ++ lit " [" ++ join (lit ", ") (links r) ++ lit "]"
        end in
      if truthy (trim finalText)
      then ret (items ++ [{| text := trim finalText |}])
      else ret items
  else ret items.

(** [while ((itemMatch = listItemRegex.exec(sectionContent)) !== null)]. *)
Fixpoint whileExec (fuel : nat) (listItemRegex : RegExpObject.t)
  (sectionContent : str) (items : list NewsItem)
  : M (list NewsItem * RegExpObject.t) :=
  match fuel with
  | O => fun _ => None
  | S fuel' =>
      match RegExpObject.exec listItemRegex sectionContent with
      | (None, re') => ret (items, re')
      | (Some itemMatch, re') =>
          items' <-- pushListItem items itemMatch ;;
          whileExec fuel' re' sectionContent items'
      end
  end.

Definition extractCategoryItems_body (fuel : nat) (sectionContent : str)
  : M (result (list NewsItem)) :=
  let listItemRegex := RegExpObject.literal WikiNews.listItemRegex in
  looped <-- whileExec fuel listItemRegex sectionContent [] ;;
  let items := fst looped in
  match items with
  | [] =>
      plainContent <-- cleanHtml sectionContent ;;
      if truthy (trim plainContent)
      then ret (Ok [{| text := trim plainContent |}])
      else ret (Ok items)
  | _ => ret (Ok items)
  end.

(** [#extractCategoryItems]. *)
Definition extractCategoryItems (fuel : nat)
  (sectionContent categoryTitle : str) : M (list NewsItem) :=
  r <-- extractCategoryItems_body fuel sectionContent ;;
  ret (try_catch r (fun e => [{| text := lit "Error parsing items: " ++ e |}])).

(** The body of the [for] loop of [#extractNewsContent]. *)
Definition pushSection (fuel : nat) (categories : list NewsCategory)
  (section : str) : M (list NewsCategory) :=
  match indexOf (lit "</b>") section with
  | None => ret categories
  | Some titleEndIndex =>
      let categoryTitle := trim (substring 0 titleEndIndex section) in
      match indexOf (lit "</p>") section with
      | None => ret categories
      | Some i =>
          let contentStartIndex := i + 4 in
          let sectionContent := substringFrom contentStartIndex section in
          items <-- extractCategoryItems fuel sectionContent categoryTitle ;;
          match items with
          | [] => ret categories
          | _ =>
              ret (categories
                   ++ [{| title := categoryTitle; items := items |}])
          end
      end
  end.

(** [for (let i = 1; i < categorySections.length; i++)]. *)
Fixpoint forSections (fuel : nat) (sections : list str)
  (categories : list NewsCategory) : M (list NewsCategory) :=
  match sections with
  | [] => ret categories
  | section :: sections' =>
      categories' <-- pushSection fuel categories section ;;
      forSections fuel sections' categories'
  end.

Definition collectCategories (fuel : nat) (categorySections : list str)
  : M (list NewsCategory) :=
  match categorySections with
  | [] => ret []
  | first :: rest =>
      categories <--
        (if truthy (trim first) then
           uncategorizedItems <--
             extractCategoryItems fuel first (lit "Uncategorized") ;;
           match uncategorizedItems with
           | [] => ret []
           | _ =>
               ret [{| title := lit "Uncategorized";
                       items := uncategorizedItems |}]
           end
         else ret []) ;;
      forSections fuel rest categories
  end.

(** The body of the [try] block of [#extractNewsContent].
    [String.prototype.split] runs on a copy of its pattern, made for the
    call, and the pattern of the source has no [g] flag: the call neither
    reads nor writes a [lastIndex] that outlives it. *)
Definition extractNewsContent_body (fuel : nat) (html : str)
  : M (result (list NewsCategory)) :=
  contentDivs <-- matchAll contentDivRe html ;;
  match contentDivs with
  | None => ret (Ok errorCategory)
  | Some [] => ret (Ok errorCategory)
  | Some (firstContentDiv :: _) =>
      let categorySections := split headingRe firstContentDiv in
      if Nat.leb (length categorySections) 1 then ret (Ok noCategories)
      else
        categories <-- collectCategories fuel categorySections ;;
        match categories with
        | [] => ret (Ok noItems)
        | _ => ret (Ok categories)
        end
  end.

(** [#extractNewsContent]. *)
Definition extractNewsContent (fuel : nat) (html : str)
  : M (list NewsCategory) :=
  r <-- extractNewsContent_body fuel html ;;
  ret (try_catch r parsingError).

(** Two calls of [#extractNewsContent], one after the other, on the same
    instance. *)
Definition twice (fuel : nat) (html : str)
  : M (list NewsCategory * list NewsCategory) :=
  first <-- extractNewsContent fuel html ;;
  second <-- extractNewsContent fuel html ;;
  ret (first, second).

End Stateful.

(** *** What a pattern matches *)

(** [Matches r s s' c c']: the pattern [r] can consume the front of [s]
    and leave [s'], turning the captures [c] into [c']. *)
Inductive Matches : regex -> str -> str -> caps -> caps -> Prop :=
| M_Lit (l s : str) (c : caps) : Matches (Lit l) (l ++ s) s c c
| M_Chr (p : charclass) (x : char) (s : str) (c : caps) :
    p x = true -> Matches (Chr p) (x :: s) s c c
| M_Seq (r1 r2 : regex) (s s1 s2 : str) (c c1 c2 : caps) :
    Matches r1 s s1 c c1 -> Matches r2 s1 s2 c1 c2 ->
    Matches (Seq r1 r2) s s2 c c2
| M_Star (g : bool) (p : charclass) (u s : str) (c : caps) :
    forallb p u = true -> Matches (Star g p) (u ++ s) s c c
| M_Opt_some (r : regex) (s s' : str) (c c' : caps) :
    Matches r s s' c c' -> Matches (Opt r) s s' c c'
| M_Opt_none (r : regex) (s : str) (c : caps) : Matches (Opt r) s s c c
| M_Group (i : nat) (r : regex) (s s' : str) (c c' : caps) :
    Matches r s s' c c' ->
    Matches (Group i r) s s' c ((i, firstn (length s - length s') s) :: c').

(** *** A scan read back as a string and as results *)

(** The text a scan went over. *)
Fixpoint textOf (ts : list token) : str :=
  match ts with
  | [] => []
  | Plain x :: ts' => x :: textOf ts'
  | Match w _ :: ts' => w ++ textOf ts'
  end.

(** The matches of a scan that starts at position [i], each with its
    [index]. *)
Fixpoint located (i : nat) (ts : list token)
  : list RegExpObject.MatchResult :=
  match ts with
  | [] => []
  | Plain _ :: ts' => located (S i) ts'
  | Match w c :: ts' =>
      {| RegExpObject.whole := w; RegExpObject.groups := c;
         RegExpObject.index := i |}
      :: located (i + length w) ts'
  end.

(** A pattern that matches no empty string. *)
Definition neverEmpty (r : regex) : Prop :=
  forall s c rest, exec_at r s = Some (c, rest) -> length rest < length s.

(** *** A page and an instance to run the methods on *)

(** A page with two categories, the first with two items, one of them
    with a link. *)
Definition twoCategoryPage : str :=
  lit "<html>" ++ WikiNews.contentOpen
  ++ lit "<p><b>Armed conflicts</b></p><ul><li>"
  ++ anchor (lit "/wiki/A") (lit "Event one")
  ++ lit " happens.</li><li>Event two.</li></ul>"
  ++ lit "<p><b>Sports</b></p><ul><li>Match played.</li></ul>"
  ++ WikiNews.contentClose ++ lit "</html>".

Definition twoCategories : list NewsCategory :=
  [{| title := lit "Armed conflicts";
      items :=
        [{| text := lit "Event one happens. [Event one (https://en.wikipedia.org/wiki/A)]" |};
         {| text := lit "Event two." |}] |};
   {| title := lit "Sports";
      items := [{| text := lit "Match played." |}] |}].

(** An instance that has served a feed. *)
Definition servedInstance : ServiceWikiNews.State :=
  {| ServiceWikiNews.cache :=
       Some {| date := lit "May 1, 2024"; news := twoCategories;
               source_url := lit "https://en.wikipedia.org/";
               updated := lit "2024/05/02 08:00:00";
               updated_at := 1714636800000 |};
     ServiceWikiNews.cacheDate := lit "2024-05-02";
     ServiceWikiNews.lastFetchTime := 1714636800000 |}.

Set Implicit Arguments.

(** ** The rest of the two services *)

Unset Implicit Arguments.

(** *** The text renderings of [handle] *)

Module Render.

Definition nl : str := [10%N].

(** The [text] case of [ServiceWikiNews.handle]: a title line with the
    date, then each category as its title and one line per item. *)
Definition categoryText (category : NewsCategory) : str :=
  let items :=
    join nl (List.map (fun item => lit "  - " ++ text item) (items category)) in
  title category ++ nl ++ items.

Definition wikiNewsText (data : WikiNewsItem) : str :=
  lit "Wikipedia Current Events (" ++ date data ++ lit ")" ++ nl ++ nl
  ++ join (nl ++ nl) (List.map categoryText (news data)).

(** The [text] case of [ServiceReadhub.handle]: the topics numbered from
    1, then the tip when it is not empty. *)
Fixpoint numbered (idx : nat) (news : list ServiceReadhub.Topic) : list str :=
  match news with
  | [] => []
  | e :: rest =>
      (showN (N.of_nat (idx + 1)) ++ lit ". " ++ ServiceReadhub.topicTitle e)
      :: numbered (S idx) rest
  end.

Definition readhubHeader : str :=
  lit "Readhub " ++ [28909; 38376; 35805; 39064; 65288]%N.

Definition tipLabel : str := [12304; 24494; 35821; 12305]%N.

Definition readhubText (data : ServiceReadhub.ReadhubNewsItem) : str :=
  readhubHeader ++ ServiceReadhub.rdate data ++ [65289%N] ++ nl ++ nl
  ++ join nl (numbered 0 (ServiceReadhub.rnews data)) ++ nl ++ nl
  ++ (if truthy (ServiceReadhub.tip data)
      then tipLabel ++ ServiceReadhub.tip data else []).

End Render.

(** *** The list items of [wikinews.module.ts] *)

Module WikiNewsModule.

Import WikiNews.

(** The italic element: [<i>], group 1 lazy [.*?], [</i>]; global. *)
Definition italicRe : regex :=
  seq [Lit (lit "<i>"); Group 1 (Star false dot); Lit (lit "</i>")].

(** [#decodeHtmlEntities]. *)
Definition decodeHtmlEntities (text : str) : str :=
  replaceAll (lit "&nbsp;") (lit " ")
    (replaceAll (lit "&mdash;") mdash
      (replaceAll (lit "&ndash;") ndash
        (replaceAll (lit "&#39;") (lit "'")
          (replaceAll (lit "&quot;") dq
            (replaceAll (lit "&gt;") (lit ">")
              (replaceAll (lit "&lt;") (lit "<")
                (replaceAll (lit "&amp;") (lit "&") text))))))).

Definition formatListItem_body (html : str) : result str :=
  let markdown := lit "- " in
  let processedHtml1 :=
    replace italicRe (fun c => lit "*" ++ cap 1 c ++ lit "*") html in
  let processedHtml := WikiNewsMarkdown.convertLinksToMarkdown processedHtml1 in
  let cleanedText := replace tagRe (fun _ => []) processedHtml in
  let decodedText := decodeHtmlEntities cleanedText in
  Ok (markdown ++ decodedText).

(** [#formatListItem]. *)
Definition formatListItem (html : str) : str :=
  try_catch (formatListItem_body html)
    (fun e => lit "- Error formatting item: " ++ e).

(** [#cleanHtml]. *)
Definition cleanHtml (html : str) : str :=
  let text1 := replace tagRe (fun _ => []) html in
  let text2 := decodeHtmlEntities text1 in
  trim (replace spacesRe (fun _ => lit " ") text2).

(** The body of the [while] loop of [#extractCategoryItems]. *)
Definition pushListItem (items : list NewsItem) (mt : str * caps)
  : list NewsItem :=
  let group1 := cap 1 (snd mt) in
  if truthy group1 then
    let itemHtml := trim group1 in
    if negb (truthy itemHtml) then items
    else items ++ [{| text := formatListItem itemHtml |}]
  else items.

Definition extractCategoryItems_body (sectionContent : str)
  : result (list NewsItem) :=
  let items := fold_left pushListItem (execAll listItemRegex sectionContent) [] in
  match items with
  | [] =>
      let plainContent := cleanHtml sectionContent in
      if truthy (trim plainContent)
      then Ok [{| text := lit "- " ++ trim plainContent |}]
      else Ok items
  | _ => Ok items
  end.

(** [#extractCategoryItems]. *)
Definition extractCategoryItems (sectionContent categoryTitle : str)
  : list NewsItem :=
  try_catch (extractCategoryItems_body sectionContent)
    (fun e => [{| text := lit "- Error parsing items: " ++ e |}]).

End WikiNewsModule.

(** *** Fragments made of text and anchors *)

Inductive piece : Type :=
| Text (t : str)
| Ordinary (href label : str)
| External (href label : str).

Definition renderPiece (p : piece) : str :=
  match p with
  | Text t => t
  | Ordinary href label => anchor href label
  | External href label => externalAnchor href label
  end.

(** The fragment a list of pieces stands for. *)
Definition renderPieces (ps : list piece) : str :=
  concat (List.map renderPiece ps).

(** Text without [<]; anchors with a target and a label, both non-empty. *)
Definition pieceOk (p : piece) : bool :=
  match p with
  | Text t => forallb textChar t
  | Ordinary href label | External href label =>
      forallb hrefChar href && truthy href
      && forallb labelChar label && truthy label
  end.

(** What is left of a piece in the text of the item. *)
Definition pieceText (p : piece) : str :=
  match p with
  | Text t => t
  | Ordinary _ label => label
  | External _ _ => []
  end.

(** The target of an ordinary anchor, made absolute. *)
Definition absolute (href : str) : str :=
  if startsWith (lit "/") href then WikiNews.origin ++ href else href.

Definition ordinaryEntries (ps : list piece) : list str :=
  flat_map (fun p => match p with
                     | Ordinary href label => [entry label (absolute href)]
                     | _ => []
                     end) ps.

Definition externalEntries (ps : list piece) : list str :=
  flat_map (fun p => match p with
                     | External href label => [entry label href]
                     | _ => []
                     end) ps.

(** A list without its repetitions: the first of equal strings is kept. *)
Fixpoint uniq (l : list str) : list str :=
  match l with
  | [] => []
  | x :: l' => x :: filter (fun y => negb (str_eqb y x)) (uniq l')
  end.

(** *** The states a service can be in *)

(** The states of [ServiceWikiNews] after any number of [#fetch] calls, at
    any times and with any upstream behaviour. *)
Inductive wikiNewsReachable (localeDate localeTime : Z -> str)
  (LocalTZA : Z -> Z) : ServiceWikiNews.State -> Prop :=
| wn_init : wikiNewsReachable localeDate localeTime LocalTZA ServiceWikiNews.init
| wn_fetch (this : ServiceWikiNews.State) (now : Z) (upstream : str -> Response) :
    wikiNewsReachable localeDate localeTime LocalTZA this ->
    wikiNewsReachable localeDate localeTime LocalTZA
      (after (ServiceWikiNews.fetch localeDate localeTime LocalTZA this now upstream)).

Inductive readhubReachable (localeDate localeTime : Z -> str)
  : ServiceReadhub.State -> Prop :=
| rh_init : readhubReachable localeDate localeTime ServiceReadhub.init
| rh_fetch (this : ServiceReadhub.State) (now : Z) (upstream : str -> Response) :
    readhubReachable localeDate localeTime this ->
    readhubReachable localeDate localeTime
      (after (ServiceReadhub.fetch localeDate localeTime this now upstream)).

(** An item text as the extractor stores it: not empty, and with no white
    space at either end. *)
Definition itemTextOk (s : str) : Prop := s <> [] /\ trim s = s.

(** A category as the extractor returns it: at least one item, and every
    item text in order. *)
Definition categoryOk (c : NewsCategory) : Prop :=
  items c <> [] /\ Forall (fun i => itemTextOk (text i)) (items c).

(** The only white space the cleaner leaves is the plain space. *)
Definition plainSpaced (x : char) : bool := negb (isSpace x) || N.eqb x 32.

(** A feed as [ServiceWikiNews.#fetch] builds it: the subject date and
    the page are those of 24 hours before its own time stamp, and it holds
    at least one category, each in order. *)
Definition wikiNewsFeedOk (localeTime : Z -> str) (LocalTZA : Z -> Z)
  (feed : WikiNewsItem) : Prop :=
  let t := ServiceWikiNews.targetDate (updated_at feed) in
  date feed = ServiceWikiNews.formattedDate LocalTZA t
  /\ source_url feed = ServiceWikiNews.pageUrl LocalTZA t
  /\ updated feed = localeTime (updated_at feed)
  /\ news feed <> []
  /\ Forall categoryOk (news feed).

(** A topic as [ServiceReadhub.#fetch] stores it: the link is the site
    followed by a topic path without double quote, the title is in order
    and holds no [<]. *)
Definition topicOk (t : ServiceReadhub.Topic) : Prop :=
  (exists rest,
     ServiceReadhub.link t = lit "https://readhub.cn/topic/" ++ rest
     /\ rest <> [] /\ forallb (noneOf dq) rest = true)
  /\ itemTextOk (ServiceReadhub.topicTitle t)
  /\ forallb (noneOf (lit "<")) (ServiceReadhub.topicTitle t) = true.

Definition readhubFeedOk (localeDate localeTime : Z -> str)
  (feed : ServiceReadhub.ReadhubNewsItem) : Prop :=
  ServiceReadhub.rdate feed = localeDate (ServiceReadhub.rupdated_at feed)
  /\ ServiceReadhub.rupdated feed = localeTime (ServiceReadhub.rupdated_at feed)
  /\ ServiceReadhub.tip feed = ServiceReadhub.dailyTip
  /\ Forall topicOk (ServiceReadhub.rnews feed).

(** A literal that none of its proper ends starts: two occurrences of it
    cannot overlap. *)
Definition borderless (p : str) : bool :=
  forallb (fun k => negb (str_eqb (skipn k p) (firstn (length p - k) p)))
    (List.seq 1 (length p - 1)).

(** *** Pages of the usual shape *)

(** A section content: list items, each after some text, and a tail. *)
Definition itemHtml (seg : str * str) : str :=
  fst seg ++ lit "<li>" ++ snd seg ++ lit "</li>".

Definition itemsHtml (segments : list (str * str)) (tail : str) : str :=
  concat (List.map itemHtml segments) ++ tail.

(** What the item loop makes of the text between [<li>] and [</li>]. *)
Definition itemOf (group1 : str) : list NewsItem :=
  WikiNews.pushListItem [] ([], [(1, group1)]).

(** The text of a section after the heading mark: the title up to
    [</b></p>], then the content. *)
Definition sectionText (sec : str * str) : str :=
  fst sec ++ lit "</b></p>" ++ snd sec.

(** The category the section loop makes of a title and a content. *)
Definition categoryOf (sec : str * str) : list NewsCategory :=
  match WikiNews.extractCategoryItems (snd sec) (trim (fst sec)) with
  | [] => []
  | its => [{| title := trim (fst sec); items := its |}]
  end.

(** The category made of the text before the first heading. *)
Definition uncategorizedOf (first : str) : list NewsCategory :=
  if truthy (trim first) then
    match WikiNews.extractCategoryItems first (lit "Uncategorized") with
    | [] => []
    | its => [{| title := lit "Uncategorized"; items := its |}]
    end
  else [].

Set Implicit Arguments.

(** ** Facts about strings *)

Section StringFacts.

Lemma char_eqb_eq (x y : char) : char_eqb x y = true <-> x = y.
Proof. unfold char_eqb. apply N.eqb_eq. Qed.

Lemma char_eqb_refl (x : char) : char_eqb x x = true.
Proof. apply char_eqb_eq. reflexivity. Qed.

Lemma str_eqb_eq (a b : str) : str_eqb a b = true <-> a = b.
Proof.
  revert b. induction a as [|x a IH]; intros [|y b]; simpl; split;
    try congruence; try reflexivity.
  - intros H. apply andb_true_iff in H as [H1 H2].
    apply char_eqb_eq in H1. apply IH in H2. congruence.
  - intros H. injection H as -> ->. apply andb_true_iff. split.
    + apply char_eqb_refl.
    + apply IH. reflexivity.
Qed.

Lemma stripPrefix_Some (p s r : str) :
  stripPrefix p s = Some r <-> s = p ++ r.
Proof.
  revert s. induction p as [|x p IH]; intros s; simpl.
  - split; congruence.
  - destruct s as [|y s].
    + split; discriminate.
    + destruct (char_eqb x y) eqn:E.
      * apply char_eqb_eq in E. subst y. rewrite IH. split; congruence.
      * split; [discriminate|]. intros H. injection H as -> _.
        rewrite char_eqb_refl in E. discriminate.
Qed.

Lemma stripPrefix_app (p s : str) : stripPrefix p (p ++ s) = Some s.
Proof. apply stripPrefix_Some. reflexivity. Qed.

Lemma stripPrefix_None (p s : str) :
  stripPrefix p s = None <-> forall r, s <> p ++ r.
Proof.
  split.
  - intros H r E. apply stripPrefix_Some in E. congruence.
  - intros H. destruct (stripPrefix p s) as [r|] eqn:E; [|reflexivity].
    apply stripPrefix_Some in E. destruct (H r E).
Qed.

Lemma occurs_refl (s : str) : occurs s s.
Proof. exists [], []. rewrite app_nil_r. reflexivity. Qed.

Lemma occurs_trans (a b c : str) : occurs a b -> occurs b c -> occurs a c.
Proof.
  intros (p1 & q1 & ->) (p2 & q2 & ->).
  exists (p2 ++ p1), (q1 ++ q2). rewrite !app_assoc. reflexivity.
Qed.

Lemma occurs_cons (p s : str) (x : char) : occurs p s -> occurs p (x :: s).
Proof. intros (a & b & ->). exists (x :: a), b. reflexivity. Qed.

Lemma occurs_firstn (n : nat) (s : str) : occurs (firstn n s) s.
Proof.
  exists [], (skipn n s). simpl. symmetry. apply firstn_skipn.
Qed.

Lemma occurs_prefix (p s : str) : occurs p (p ++ s).
Proof. exists [], s. reflexivity. Qed.

Lemma occurs_suffix (pre p s : str) : occurs p s -> occurs p (pre ++ s).
Proof.
  induction pre as [|x pre IH]; intros H; simpl; [exact H|].
  apply occurs_cons, IH, H.
Qed.

(** The opening tag of the content block holds the marker. *)
Lemma marker_in_contentOpen : occurs marker WikiNews.contentOpen.
Proof.
  exists (lit "<div class=" ++ dq), (dq ++ lit ">"). reflexivity.
Qed.

End StringFacts.

(** ** Facts about the matcher *)

Section MatcherFacts.

Lemma matches_of_In (ts : list token) (w : str) (c : caps) :
  In (w, c) (matches_of ts) <-> In (Match w c) ts.
Proof.
  induction ts as [|[x|w' c'] ts IH]; simpl.
  - tauto.
  - rewrite IH. split; [tauto|]. intros [H|H]; [discriminate|exact H].
  - rewrite IH. split; intros [H|H]; try tauto; left; congruence.
Qed.

Lemma tokens_go_cons (r : regex) (x : char) (s : str) (skip : nat) :
  tokens_go r (x :: s) skip =
  match skip with
  | S n => tokens_go r s n
  | O =>
      match exec_at r (x :: s) with
      | Some (c, rest) =>
          match length (x :: s) - length rest with
          | O => Match [] c :: Plain x :: tokens_go r s 0
          | S n => Match (firstn (S n) (x :: s)) c :: tokens_go r s n
          end
      | None => Plain x :: tokens_go r s 0
      end
  end.
Proof. reflexivity. Qed.

(** Where the pattern matches nowhere, the scan leaves every character. *)
Lemma tokens_go_no_exec (r : regex) (s : str) :
  (forall pre s', s = pre ++ s' -> exec_at r s' = None) ->
  tokens_go r s 0 = List.map Plain s.
Proof.
  induction s as [|x s IH]; intros H.
  - simpl. rewrite (H [] []); reflexivity.
  - rewrite tokens_go_cons, (H [] (x :: s)) by reflexivity. simpl. f_equal.
    apply IH. intros pre s' ->. apply (H (x :: pre)). reflexivity.
Qed.

Lemma tokens_without_prefix (r : regex) (l s : str) :
  needsPrefix r l -> ~ occurs l s -> tokens r s = List.map Plain s.
Proof.
  intros Hr Hs. apply tokens_go_no_exec. intros pre s' ->.
  destruct (exec_at r s') as [x|] eqn:E; [|reflexivity].
  destruct (Hr _ _ E) as [s'' ->]. destruct Hs. exists pre, s''. reflexivity.
Qed.

(** Every match of a scan is a run of the scanned string. *)
Lemma tokens_go_match_occurs (r : regex) (s : str) :
  forall skip w c, In (Match w c) (tokens_go r s skip) -> occurs w s.
Proof.
  induction s as [|x s IH]; intros skip w c.
  - simpl. destruct skip; [|intros []].
    destruct (exec_at r []) as [[c' rest]|]; [|intros []].
    intros [H|[]]. injection H as <- _. apply occurs_refl.
  - rewrite tokens_go_cons. destruct skip as [|n].
    + destruct (exec_at r (x :: s)) as [[c' rest]|].
      * destruct (length (x :: s) - length rest) as [|k] eqn:E.
        -- intros [H|[H|H]]; try discriminate.
           ++ injection H as <- _. exists [], (x :: s). reflexivity.
           ++ apply occurs_cons. eapply IH, H.
        -- intros [H|H].
           ++ injection H as <- _. apply (occurs_firstn (S k) (x :: s)).
           ++ apply occurs_cons. eapply IH, H.
      * intros [H|H]; [discriminate|]. apply occurs_cons. eapply IH, H.
    + intros H. apply occurs_cons. eapply IH, H.
Qed.

Lemma execAll_occurs (r : regex) (s w : str) (c : caps) :
  In (w, c) (execAll r s) -> occurs w s.
Proof.
  unfold execAll, tokens. rewrite matches_of_In.
  apply tokens_go_match_occurs.
Qed.

(** Where the pattern matches somewhere, the scan finds a match. *)
Lemma execAll_finds (r : regex) (pre s' : str) :
  exec_at r s' <> None -> execAll r (pre ++ s') <> [].
Proof.
  unfold execAll, tokens. induction pre as [|x pre IH]; intros H.
  - destruct s' as [|y s'].
    + simpl. destruct (exec_at r []) as [[c rest]|]; [discriminate|congruence].
    + rewrite app_nil_l, tokens_go_cons.
      destruct (exec_at r (y :: s')) as [[c rest]|]; [|congruence].
      destruct (length (y :: s') - length rest); discriminate.
  - rewrite <- app_comm_cons, tokens_go_cons.
    destruct (exec_at r (x :: pre ++ s')) as [[c rest]|].
    + destruct (length (x :: pre ++ s') - length rest); discriminate.
    + simpl. apply IH, H.
Qed.

Lemma split_go_plain (s piece : str) :
  split_go (List.map Plain s) piece = [rev piece ++ s].
Proof.
  revert piece. induction s as [|x s IH]; intros piece; simpl.
  - rewrite app_nil_r. reflexivity.
  - rewrite IH. simpl. rewrite <- app_assoc. reflexivity.
Qed.

Lemma needsPrefix_Lit (l : str) : needsPrefix (Lit l) l.
Proof.
  intros s x. unfold exec_at. simpl.
  destruct (stripPrefix l s) as [s'|] eqn:E; [|discriminate].
  intros _. exists s'. apply stripPrefix_Some, E.
Qed.

Lemma needsPrefix_Seq (l : str) (r : regex) : needsPrefix (Seq (Lit l) r) l.
Proof.
  intros s x. unfold exec_at. simpl.
  destruct (stripPrefix l s) as [s'|] eqn:E; [|discriminate].
  intros _. exists s'. apply stripPrefix_Some, E.
Qed.

(** A string without the separator splits into itself. *)
Lemma split_without_separator (sep s : str) :
  ~ occurs sep s -> split (Lit sep) s = [s].
Proof.
  intros H. unfold split.
  rewrite (tokens_without_prefix (needsPrefix_Lit sep) H).
  apply split_go_plain.
Qed.

(** A lazy run of any characters reaches every later position. *)
Lemma star_lazy_any_finds (R : Type) (k : cont R) (u v : str) (c : caps) :
  k v c <> None -> star false any k (u ++ v) c <> None.
Proof.
  induction u as [|x u IH]; intros H; simpl.
  - destruct v; simpl; destruct (k _ c); congruence.
  - destruct (k (x :: u ++ v) c); [discriminate|]. apply IH, H.
Qed.

Lemma delimited_needs_prefix (o c : str) : needsPrefix (delimited o c) o.
Proof. apply needsPrefix_Seq. Qed.

Lemma delimited_matches (o c body post : str) :
  exec_at (delimited o c) (o ++ body ++ c ++ post) <> None.
Proof.
  unfold exec_at, delimited. simpl. rewrite stripPrefix_app.
  apply star_lazy_any_finds. rewrite stripPrefix_app. discriminate.
Qed.

End MatcherFacts.

(** ** The extractor: totality and the synthetic categories *)

Section ExtractorFacts.

Import WikiNews.

Lemma matches_of_plain (s : str) : matches_of (List.map Plain s) = [].
Proof. induction s as [|x s IH]; simpl; [reflexivity|exact IH]. Qed.

Lemma indexOf_None_not_occurs (p s : str) : indexOf p s = None -> ~ occurs p s.
Proof.
  induction s as [|x s IH]; simpl.
  - destruct (startsWith p []) eqn:E; [discriminate|]. intros _ (a & b & H).
    unfold startsWith in E. destruct a; [|discriminate].
    simpl in H. rewrite H, stripPrefix_app in E. discriminate.
  - destruct (startsWith p (x :: s)) eqn:E; [discriminate|].
    destruct (indexOf p s) eqn:Ei; [discriminate|]. intros _ (a & b & H).
    destruct a as [|y a].
    + simpl in H. unfold startsWith in E.
      rewrite H, stripPrefix_app in E. discriminate.
    + injection H as _ H. apply IH; [reflexivity|]. exists a, b. exact H.
Qed.

Lemma contentDivRe_needs_open : needsPrefix contentDivRe contentOpen.
Proof. apply (delimited_needs_prefix contentOpen contentClose). Qed.

(** Without the opening tag of the content block the pattern finds nothing. *)
Lemma matchAll_without_open (html : str) :
  ~ occurs contentOpen html -> matchAll contentDivRe html = None.
Proof.
  intros H. unfold matchAll, execAll.
  rewrite (tokens_without_prefix contentDivRe_needs_open H), matches_of_plain.
  reflexivity.
Qed.

(** With a closed content block the pattern finds a first block, and the
    block is a run of the page. *)
Lemma matchAll_with_block (pre body post : str) :
  exists div rest,
    matchAll contentDivRe (pre ++ contentOpen ++ body ++ contentClose ++ post)
    = Some (div :: rest)
    /\ occurs div (pre ++ contentOpen ++ body ++ contentClose ++ post).
Proof.
  set (html := pre ++ contentOpen ++ body ++ contentClose ++ post).
  assert (Hne : execAll contentDivRe html <> []).
  { apply execAll_finds.
    apply (delimited_matches contentOpen contentClose body post). }
  unfold matchAll. destruct (execAll contentDivRe html) as [|[w c] ms] eqn:E.
  - congruence.
  - exists w, (List.map fst ms). split; [reflexivity|].
    apply (execAll_occurs contentDivRe html w c). rewrite E. left. reflexivity.
Qed.

(** The item loop never throws. *)
Lemma extractCategoryItems_body_ok (sectionContent : str) :
  exists its, extractCategoryItems_body sectionContent = Ok its.
Proof.
  unfold extractCategoryItems_body.
  destruct (fold_left pushListItem (execAll listItemRegex sectionContent) []).
  - destruct (truthy (trim (cleanHtml sectionContent))); eexists; reflexivity.
  - eexists; reflexivity.
Qed.

Lemma extractNewsContent_body_cases (html : str) :
  extractNewsContent_body html = Ok errorCategory
  \/ extractNewsContent_body html = Ok noCategories
  \/ extractNewsContent_body html = Ok noItems
  \/ exists div rest,
       matchAll contentDivRe html = Some (div :: rest)
       /\ collectCategories (split headingRe div) <> []
       /\ extractNewsContent_body html
          = Ok (collectCategories (split headingRe div)).
Proof.
  unfold extractNewsContent_body.
  destruct (matchAll contentDivRe html) as [[|div rest]|]; auto.
  destruct (Nat.leb (length (split headingRe div)) 1); auto.
  destruct (collectCategories (split headingRe div)) as [|c cs] eqn:E; auto.
  right; right; right. exists div, rest. rewrite E.
  repeat split; congruence.
Qed.

End ExtractorFacts.

(** C1: for every input string the extractor returns normally (its body
    never throws, so the value is the one the [try] block computes), the
    returned sequence holds at least one category, and when the sections of
    the first content block yield no category the result is one of the
    single synthetic diagnostic categories. *)
Theorem extractNewsContent_total_nonempty (html : str) :
  (exists cs, WikiNews.extractNewsContent_body html = Ok cs
              /\ WikiNews.extractNewsContent html = cs)
  /\ 1 <= length (WikiNews.extractNewsContent html)
  /\ (WikiNews.extractNewsContent html = WikiNews.errorCategory
      \/ WikiNews.extractNewsContent html = WikiNews.noCategories
      \/ WikiNews.extractNewsContent html = WikiNews.noItems
      \/ exists div rest,
           matchAll WikiNews.contentDivRe html = Some (div :: rest)
           /\ WikiNews.collectCategories (split WikiNews.headingRe div) <> []
           /\ WikiNews.extractNewsContent html
              = WikiNews.collectCategories (split WikiNews.headingRe div)).
Proof.
  unfold WikiNews.extractNewsContent.
  destruct (extractNewsContent_body_cases html)
    as [E|[E|[E|(div & rest & Hm & Hne & E)]]]; rewrite E; simpl.
  - repeat split; eauto.
  - repeat split; eauto.
  - repeat split; eauto.
  - split; [eauto|]. split.
    + destruct (WikiNews.collectCategories (split WikiNews.headingRe div));
        [congruence|simpl; lia].
    + right; right; right. exists div, rest. auto.
Qed.

(** C6: a page that lacks the section-location marker (the class name of
    the content block) yields exactly one category, titled "Error", with one
    non-empty diagnostic item; the body of the extractor does not throw. *)
Theorem extract_without_marker (html : str) :
  ~ occurs marker html ->
  WikiNews.extractNewsContent_body html
  = Ok [{| title := lit "Error";
           items := [{| text := lit "No news content sections found in the HTML" |}] |}]
  /\ WikiNews.extractNewsContent html
     = [{| title := lit "Error";
           items := [{| text := lit "No news content sections found in the HTML" |}] |}].
Proof.
  intros H.
  assert (Hopen : ~ occurs WikiNews.contentOpen html).
  { intros Ho. apply H. exact (occurs_trans marker_in_contentOpen Ho). }
  unfold WikiNews.extractNewsContent, WikiNews.extractNewsContent_body.
  rewrite (matchAll_without_open Hopen). split; reflexivity.
Qed.

Lemma extract_without_marker_witness :
  WikiNews.extractNewsContent (lit "<html><body>maintenance</body></html>")
  = [{| title := lit "Error";
        items := [{| text := lit "No news content sections found in the HTML" |}] |}].
Proof.
  apply (@extract_without_marker (lit "<html><body>maintenance</body></html>")).
  apply indexOf_None_not_occurs. vm_compute. reflexivity.
Defined.

(** C5: a page that holds a content block (the opening tag with the marker
    class, closed later by [</div>]) and no bolded category heading
    [<p><b>] yields exactly the category "Uncategorized" with the single
    item "No categories found in content". *)
Theorem extract_block_without_headings (html : str) :
  (exists pre body post,
     html = pre ++ WikiNews.contentOpen ++ body ++ WikiNews.contentClose ++ post) ->
  ~ occurs WikiNews.headingMark html ->
  WikiNews.extractNewsContent html
  = [{| title := lit "Uncategorized";
        items := [{| text := lit "No categories found in content" |}] |}].
Proof.
  intros (pre & body & post & ->) Hh.
  destruct (matchAll_with_block pre body post) as (div & rest & Hm & Ho).
  unfold WikiNews.extractNewsContent, WikiNews.extractNewsContent_body.
  rewrite Hm.
  assert (Hs : split WikiNews.headingRe div = [div]).
  { apply split_without_separator. intros Hd. apply Hh.
    exact (occurs_trans Hd Ho). }
  rewrite Hs. reflexivity.
Qed.

Lemma extract_block_without_headings_witness :
  WikiNews.extractNewsContent
    (lit "<body>" ++ WikiNews.contentOpen ++ lit "<ul><li>Quiet day</li></ul>"
     ++ WikiNews.contentClose ++ lit "</body>")
  = [{| title := lit "Uncategorized";
        items := [{| text := lit "No categories found in content" |}] |}].
Proof.
  apply extract_block_without_headings.
  - exists (lit "<body>"), (lit "<ul><li>Quiet day</li></ul>"), (lit "</body>").
    reflexivity.
  - apply indexOf_None_not_occurs. vm_compute. reflexivity.
Defined.

(** ** The fetchers: fallback and cache hits *)

Section WikiNewsFetcherFacts.

Variable localeDate : Z -> str.
Variable localeTime : Z -> str.
Variable LocalTZA : Z -> Z.

Lemma wikinews_fetchFresh_failed (now : Z) (url : str) (r : Response) :
  upstreamFailed r ->
  exists e, ServiceWikiNews.fetchFresh localeTime LocalTZA now url r = Throw e.
Proof.
  destruct r as [e|status body]; simpl.
  - intros _. exists e. reflexivity.
  - intros [H|[e ->]].
    + rewrite H. simpl. eexists. reflexivity.
    + destruct (ok status); simpl; eexists; reflexivity.
Qed.

Lemma wikinews_fetch_hit (this : ServiceWikiNews.State) (now : Z)
  (upstream : str -> Response) (feed : WikiNewsItem) :
  ServiceWikiNews.cache this = Some feed ->
  ServiceWikiNews.cacheDate this = ServiceWikiNews.todayKey localeDate now ->
  ServiceWikiNews.fetch localeDate localeTime LocalTZA this now upstream
  = {| returned := Ok feed; after := this; requests := [] |}.
Proof.
  intros Hc Hd. unfold ServiceWikiNews.fetch. rewrite Hc, Hd.
  assert (E : forall s, str_eqb s s = true) by (intros s; apply str_eqb_eq; reflexivity).
  rewrite E. reflexivity.
Qed.

End WikiNewsFetcherFacts.

Lemma readhub_cacheValid_iff (this : ServiceReadhub.State) (now : Z) :
  ServiceReadhub.cacheValid this now = true
  <-> ServiceReadhub.cache this <> None
      /\ (now - ServiceReadhub.cacheTime this < 30 * 60 * 1000)%Z.
Proof.
  unfold ServiceReadhub.cacheValid, ServiceReadhub.cacheDuration.
  destruct (ServiceReadhub.cache this).
  - rewrite Z.ltb_lt. split; [intros H; split; [discriminate|exact H]|tauto].
  - split; [discriminate|]. intros [H _]. congruence.
Qed.

Section ReadhubFetcherFacts.

Variable localeDate : Z -> str.
Variable localeTime : Z -> str.

Lemma readhub_fetchFresh_failed (now : Z) (r : Response) :
  upstreamFailed r ->
  exists e, ServiceReadhub.fetchFresh localeDate localeTime now r = Throw e.
Proof.
  destruct r as [e|status body]; simpl.
  - intros _. exists e. reflexivity.
  - intros [H|[e ->]].
    + rewrite H. simpl. eexists. reflexivity.
    + destruct (ok status); simpl; eexists; reflexivity.
Qed.

Lemma readhub_fetch_hit (this : ServiceReadhub.State) (now : Z)
  (upstream : str -> Response) (feed : ServiceReadhub.ReadhubNewsItem) :
  ServiceReadhub.cache this = Some feed ->
  (now - ServiceReadhub.cacheTime this < 30 * 60 * 1000)%Z ->
  ServiceReadhub.fetch localeDate localeTime this now upstream
  = {| returned := Ok feed; after := this; requests := [] |}.
Proof.
  intros Hc Ht. unfold ServiceReadhub.fetch.
  assert (Hv : ServiceReadhub.cacheValid this now = true).
  { apply readhub_cacheValid_iff. split; [congruence|exact Ht]. }
  rewrite Hv, Hc. reflexivity.
Qed.

Lemma readhub_fetch_miss (this : ServiceReadhub.State) (now : Z)
  (upstream : str -> Response) :
  ServiceReadhub.cacheValid this now = false ->
  requests (ServiceReadhub.fetch localeDate localeTime this now upstream)
  = [ServiceReadhub.dailyUrl].
Proof.
  intros Hv. unfold ServiceReadhub.fetch. rewrite Hv.
  destruct (ServiceReadhub.cache this);
    destruct (ServiceReadhub.fetchFresh localeDate localeTime now
                (upstream ServiceReadhub.dailyUrl)); reflexivity.
Qed.

Lemma readhub_fetch_fresh (this : ServiceReadhub.State) (now : Z)
  (upstream : str -> Response) (feed : ServiceReadhub.ReadhubNewsItem) :
  ServiceReadhub.cacheValid this now = false ->
  ServiceReadhub.fetchFresh localeDate localeTime now
    (upstream ServiceReadhub.dailyUrl) = Ok feed ->
  ServiceReadhub.fetch localeDate localeTime this now upstream
  = {| returned := Ok feed;
       after := {| ServiceReadhub.cache := Some feed;
                   ServiceReadhub.cacheTime := now |};
       requests := [ServiceReadhub.dailyUrl] |}.
Proof.
  intros Hv Hf. unfold ServiceReadhub.fetch. rewrite Hv, Hf.
  destruct (ServiceReadhub.cache this); reflexivity.
Qed.

End ReadhubFetcherFacts.

(** C3: when the upstream call fails (a rejected request, a status outside
    200-299, or an unreadable body; the extractor itself cannot throw), both
    fetchers return the cached feed unchanged and leave the private fields
    as they were when a cache entry exists, and reject with the
    no-cache-available error, again leaving the fields untouched, when there
    is none. *)
Theorem fetch_failure_falls_back_to_cache
  (localeDate localeTime : Z -> str) (LocalTZA : Z -> Z)
  (now : Z) (upstream : str -> Response) :
  (forall url, upstreamFailed (upstream url)) ->
  (forall this : ServiceWikiNews.State,
     let r := ServiceWikiNews.fetch localeDate localeTime LocalTZA this now upstream in
     after r = this
     /\ (forall feed, ServiceWikiNews.cache this = Some feed -> returned r = Ok feed)
     /\ (ServiceWikiNews.cache this = None ->
         returned r = Throw ServiceWikiNews.noCacheError))
  /\ (forall this : ServiceReadhub.State,
     let r := ServiceReadhub.fetch localeDate localeTime this now upstream in
     after r = this
     /\ (forall feed, ServiceReadhub.cache this = Some feed -> returned r = Ok feed)
     /\ (ServiceReadhub.cache this = None ->
         returned r = Throw ServiceReadhub.noCacheError)).
Proof.
  intros Hfail. split; intros this r; subst r.
  - unfold ServiceWikiNews.fetch.
    set (url := ServiceWikiNews.pageUrl LocalTZA (ServiceWikiNews.targetDate now)).
    destruct (@wikinews_fetchFresh_failed localeTime LocalTZA now url _ (Hfail url))
      as [e He].
    rewrite He. destruct (ServiceWikiNews.cache this) as [cached|].
    + destruct (str_eqb _ _); simpl; repeat split; congruence.
    + simpl. repeat split; congruence.
  - unfold ServiceReadhub.fetch.
    destruct (@readhub_fetchFresh_failed localeDate localeTime now _
                (Hfail ServiceReadhub.dailyUrl)) as [e He].
    rewrite He. destruct (ServiceReadhub.cache this) as [cached|].
    + destruct (ServiceReadhub.cacheValid _ _); simpl; repeat split; congruence.
    + simpl. repeat split; congruence.
Qed.

(** C4: on a valid cache hit a fetcher makes no upstream call, leaves its
    private fields unchanged and returns the stored feed itself. For the
    duration-keyed fetcher the cache is valid exactly when an entry exists
    and now - cacheTime is below 30 minutes; otherwise one upstream call is
    made. After a successful fetch at t0, a request 29 minutes later is
    served from the cache and a request 31 minutes later calls upstream. *)
Theorem cache_hit_makes_no_request
  (localeDate localeTime : Z -> str) (LocalTZA : Z -> Z) :
  (forall this now upstream feed,
     ServiceReadhub.cache this = Some feed ->
     (now - ServiceReadhub.cacheTime this < 30 * 60 * 1000)%Z ->
     ServiceReadhub.fetch localeDate localeTime this now upstream
     = {| returned := Ok feed; after := this; requests := [] |})
  /\ (forall this now,
        ServiceReadhub.cacheValid this now = true
        <-> ServiceReadhub.cache this <> None
            /\ (now - ServiceReadhub.cacheTime this < 30 * 60 * 1000)%Z)
  /\ (forall this now upstream,
        ServiceReadhub.cacheValid this now = false ->
        requests (ServiceReadhub.fetch localeDate localeTime this now upstream)
        = [ServiceReadhub.dailyUrl])
  /\ (forall this t0 upstream0 feed,
        ServiceReadhub.cacheValid this t0 = false ->
        ServiceReadhub.fetchFresh localeDate localeTime t0
          (upstream0 ServiceReadhub.dailyUrl) = Ok feed ->
        let r0 := ServiceReadhub.fetch localeDate localeTime this t0 upstream0 in
        returned r0 = Ok feed
        /\ (forall upstream,
              ServiceReadhub.fetch localeDate localeTime (after r0)
                (t0 + 29 * 60 * 1000) upstream
              = {| returned := Ok feed; after := after r0; requests := [] |})
        /\ (forall upstream,
              requests (ServiceReadhub.fetch localeDate localeTime (after r0)
                          (t0 + 31 * 60 * 1000) upstream)
              = [ServiceReadhub.dailyUrl]))
  /\ (forall this now upstream feed,
        ServiceWikiNews.cache this = Some feed ->
        ServiceWikiNews.cacheDate this = ServiceWikiNews.todayKey localeDate now ->
        ServiceWikiNews.fetch localeDate localeTime LocalTZA this now upstream
        = {| returned := Ok feed; after := this; requests := [] |}).
Proof.
  split; [|split; [|split; [|split]]].
  - intros this now upstream feed. apply readhub_fetch_hit.
  - intros this now. exact (readhub_cacheValid_iff this now).
  - intros this now upstream. apply readhub_fetch_miss.
  - intros this t0 upstream0 feed Hv Hf r0. subst r0.
    rewrite (@readhub_fetch_fresh localeDate localeTime this t0 upstream0 feed Hv Hf).
    simpl. split; [reflexivity|]. split; intros upstream.
    + apply readhub_fetch_hit; simpl; [reflexivity|lia].
    + apply readhub_fetch_miss. unfold ServiceReadhub.cacheValid. simpl.
      apply Z.ltb_ge. unfold ServiceReadhub.cacheDuration. lia.
  - intros this now upstream feed. apply wikinews_fetch_hit.
Qed.

Lemma fetch_failure_falls_back_to_cache_witness :
  returned (ServiceWikiNews.fetch (fun _ => lit "2024/10/27") (fun _ => [])
              (fun _ => 0%Z) ServiceWikiNews.init 1730068200000
              (fun _ => HttpResponse 500 (Ok [])))
  = Throw ServiceWikiNews.noCacheError.
Proof.
  assert (Hfail : forall url : str,
             upstreamFailed ((fun _ => HttpResponse 500 (Ok [])) url)).
  { intros url. simpl. left. reflexivity. }
  destruct (@fetch_failure_falls_back_to_cache (fun _ => lit "2024/10/27")
              (fun _ => []) (fun _ => 0%Z) 1730068200000
              (fun _ => HttpResponse 500 (Ok [])) Hfail) as [Hw _].
  destruct (Hw ServiceWikiNews.init) as (_ & _ & H).
  apply H. reflexivity.
Defined.

Lemma cache_hit_makes_no_request_witness :
  let ld := fun _ : Z => lit "2024/10/27" in
  let lt := fun _ : Z => lit "22:30:00" in
  let up := fun _ : str => HttpResponse 200 (Ok (lit "<html></html>")) in
  let r0 := ServiceReadhub.fetch ld lt ServiceReadhub.init 0 up in
  requests (ServiceReadhub.fetch ld lt (after r0) (0 + 29 * 60 * 1000) up) = []
  /\ requests (ServiceReadhub.fetch ld lt (after r0) (0 + 31 * 60 * 1000) up)
     = [ServiceReadhub.dailyUrl].
Proof.
  intros ld lt up r0.
  destruct (cache_hit_makes_no_request ld lt (fun _ => 0%Z))
    as (_ & _ & _ & H & _).
  destruct (H ServiceReadhub.init 0%Z up
              {| ServiceReadhub.rdate := ld 0%Z;
                 ServiceReadhub.rnews := [];
                 ServiceReadhub.tip := ServiceReadhub.dailyTip;
                 ServiceReadhub.rupdated := lt 0%Z;
                 ServiceReadhub.rupdated_at := 0 |}
              eq_refl eq_refl) as (_ & H29 & H31).
  split.
  - fold r0 in H29. rewrite (H29 up). reflexivity.
  - exact (H31 up).
Defined.

(** ** The subject date of the WikiNews feed *)

(** The year search meets the definition of the language: the year found
    starts on or before the day and the next year starts after it. *)
Lemma DayFromYear_after (y : Z) :
  (1970 <= y ->
   365 * (y - 1970) <= Date.DayFromYear y
   <= 365 * (y - 1970) + (y - 1970) / 4 + 1)%Z.
Proof.
  unfold Date.DayFromYear. intros H. Z.to_euclidean_division_equations. lia.
Qed.

Lemma DayFromYear_before (y : Z) :
  (y <= 1970 ->
   365 * (y - 1970) + (y - 1970) / 4 - 1 <= Date.DayFromYear y
   <= 365 * (y - 1970))%Z.
Proof.
  unfold Date.DayFromYear. intros H. Z.to_euclidean_division_equations. lia.
Qed.

Lemma yearSearch_spec (fuel : nat) :
  forall y d : Z,
    (Date.DayFromYear (y - Z.of_nat fuel) <= d ->
     d < Date.DayFromYear (y + 1) ->
     Date.DayFromYear (Date.yearSearch fuel y d) <= d
     < Date.DayFromYear (Date.yearSearch fuel y d + 1))%Z.
Proof.
  induction fuel as [|fuel IH]; intros y d Hlo Hhi.
  - simpl. replace (y - Z.of_nat 0)%Z with y in Hlo by lia. lia.
  - cbn [Date.yearSearch]. destruct (Date.DayFromYear y <=? d)%Z eqn:E.
    + apply Z.leb_le in E. lia.
    + apply Z.leb_gt in E. apply IH.
      * replace (y - 1 - Z.of_nat fuel)%Z with (y - Z.of_nat (S fuel))%Z by lia.
        exact Hlo.
      * replace (y - 1 + 1)%Z with y by lia. exact E.
Qed.

Lemma YearFromDay_spec (d : Z) :
  (Date.DayFromYear (Date.YearFromDay d) <= d
   < Date.DayFromYear (Date.YearFromDay d + 1))%Z.
Proof.
  unfold Date.YearFromDay. apply yearSearch_spec.
  - rewrite Z2Nat.id
      by (pose proof (Z.abs_nonneg d); Z.to_euclidean_division_equations; lia).
    set (lo := (1970 + Z.max (d / 365) (d / 366) + 1 - (Z.abs d / 100000 + 4))%Z).
    destruct (Z_le_gt_dec 1970 lo) as [Hy|Hy].
    + pose proof (@DayFromYear_after lo Hy) as [_ H]. subst lo.
      Z.to_euclidean_division_equations. lia.
    + pose proof (@DayFromYear_before lo ltac:(lia)) as [_ H]. subst lo.
      Z.to_euclidean_division_equations. lia.
  - set (hi := (1970 + Z.max (d / 365) (d / 366) + 1 + 1)%Z).
    destruct (Z_le_gt_dec 1970 hi) as [Hy|Hy].
    + pose proof (@DayFromYear_after hi Hy) as [H _]. subst hi.
      Z.to_euclidean_division_equations. lia.
    + pose proof (@DayFromYear_before hi ltac:(lia)) as [H _]. subst hi.
      Z.to_euclidean_division_equations. lia.
Qed.

Lemma Day_previous (t : Z) :
  Date.Day (t - 86400000) = (Date.Day t - 1)%Z.
Proof.
  unfold Date.Day, Date.msPerDay.
  replace (t - 86400000)%Z with (t + (-1) * 86400000)%Z by lia.
  rewrite Z.div_add by lia. lia.
Qed.

(** C10, as the code has it: on a cache miss the single request goes to the
    page named after the local year, month name and day of the instant
    now - 24 h; when the upstream call succeeds the returned feed carries
    the date "{month} {day}, {year}" of that same instant and is stored;
    that instant falls on the calendar day before the fetch whenever the
    host's offset from UTC is the same at both instants. *)
Theorem fetch_targets_instant_24h_before
  (localeDate localeTime : Z -> str) (LocalTZA : Z -> Z)
  (this : ServiceWikiNews.State) (now : Z) (upstream : str -> Response) :
  (ServiceWikiNews.cache this = None
   \/ ServiceWikiNews.cacheDate this <> ServiceWikiNews.todayKey localeDate now) ->
  let t := (now - 86400000)%Z in
  let url :=
    lit "https://en.wikipedia.org/wiki/Portal:Current_events/"
    ++ showZ (Date.getFullYear LocalTZA t) ++ lit "_"
    ++ Date.monthLong LocalTZA t ++ lit "_"
    ++ showZ (Date.getDate LocalTZA t) in
  let r := ServiceWikiNews.fetch localeDate localeTime LocalTZA this now upstream in
  requests r = [url]
  /\ (forall status html,
        upstream url = HttpResponse status (Ok html) -> ok status = true ->
        exists feed,
          returned r = Ok feed
          /\ ServiceWikiNews.cache (after r) = Some feed
          /\ date feed
             = Date.monthLong LocalTZA t ++ lit " "
               ++ showZ (Date.getDate LocalTZA t) ++ lit ", "
               ++ showZ (Date.getFullYear LocalTZA t)
          /\ source_url feed = url
          /\ updated_at feed = now)
  /\ (LocalTZA t = LocalTZA now ->
      Date.localDay LocalTZA t = (Date.localDay LocalTZA now - 1)%Z).
Proof.
  intros Hmiss t url r.
  assert (Hurl : ServiceWikiNews.pageUrl LocalTZA (ServiceWikiNews.targetDate now) = url)
    by reflexivity.
  assert (Hr : r = match ServiceWikiNews.fetchFresh localeTime LocalTZA now url (upstream url) with
                   | Ok data =>
                       {| returned := Ok data;
                          after := {| ServiceWikiNews.cache := Some data;
                                      ServiceWikiNews.cacheDate :=
                                        ServiceWikiNews.todayKey localeDate now;
                                      ServiceWikiNews.lastFetchTime := now |};
                          requests := [url] |}
                   | Throw _ =>
                       match ServiceWikiNews.cache this with
                       | Some cached =>
                           {| returned := Ok cached; after := this; requests := [url] |}
                       | None =>
                           {| returned := Throw ServiceWikiNews.noCacheError;
                              after := this; requests := [url] |}
                       end
                   end).
  { subst r. unfold ServiceWikiNews.fetch. rewrite Hurl.
    destruct (ServiceWikiNews.cache this) as [cached|]; [|reflexivity].
    destruct (str_eqb (ServiceWikiNews.cacheDate this)
                (ServiceWikiNews.todayKey localeDate now)) eqn:E; [|reflexivity].
    apply str_eqb_eq in E. destruct Hmiss as [H|H]; [discriminate|contradiction]. }
  split; [|split].
  - rewrite Hr.
    destruct (ServiceWikiNews.fetchFresh localeTime LocalTZA now url (upstream url));
      [reflexivity|].
    destruct (ServiceWikiNews.cache this); reflexivity.
  - intros status html Hup Hok. rewrite Hr.
    unfold ServiceWikiNews.fetchFresh. rewrite Hup, Hok. simpl.
    eexists. repeat split.
  - intros Htz. unfold Date.localDay, Date.LocalTime. rewrite Htz.
    subst t. replace (now - 86400000 + LocalTZA now)%Z
      with (now + LocalTZA now - 86400000)%Z by lia.
    apply Day_previous.
Qed.

Lemma fetch_targets_instant_24h_before_witness :
  requests (ServiceWikiNews.fetch (fun _ => lit "2024/3/1") (fun _ => [])
              (fun _ => 0%Z) ServiceWikiNews.init 1709253000000
              (fun _ => HttpResponse 200 (Ok [])))
  = [lit "https://en.wikipedia.org/wiki/Portal:Current_events/2024_February_29"].
Proof.
  destruct (@fetch_targets_instant_24h_before (fun _ => lit "2024/3/1")
              (fun _ => []) (fun _ => 0%Z) ServiceWikiNews.init 1709253000000
              (fun _ => HttpResponse 200 (Ok [])) (or_introl eq_refl))
    as [H _].
  exact H.
Defined.

(** C10, as the specification words it, fails across a daylight-saving
    transition: at 23:30 on 27 October 2024 in Berlin the instant 24 h
    earlier is 00:30 of the same day, so the page requested and the date of
    the feed are those of the fetch date itself. *)
Lemma subject_date_equals_fetch_date_across_dst :
  let now := 1730068200000%Z in
  let r := ServiceWikiNews.fetch (fun _ => lit "2024/10/27") (fun _ => [])
             berlin2024 ServiceWikiNews.init now
             (fun _ => HttpResponse 200 (Ok [])) in
  requests r
  = [lit "https://en.wikipedia.org/wiki/Portal:Current_events/2024_October_27"]
  /\ (exists feed, returned r = Ok feed /\ date feed = lit "October 27, 2024")
  /\ ServiceWikiNews.formattedDate berlin2024 now = lit "October 27, 2024"
  /\ Date.localDay berlin2024 (ServiceWikiNews.targetDate now)
     = Date.localDay berlin2024 now.
Proof.
  vm_compute. repeat split. eexists. split; reflexivity.
Qed.

(** ** Stepping the matcher through a string *)

Section MatcherSteps.

Variable R : Type.
Implicit Types (k : cont R) (s l w rest : str) (c : caps) (p : charclass).

Lemma m_Lit_app l k s c : m (Lit l) k (l ++ s) c = k s c.
Proof. simpl. rewrite stripPrefix_app. reflexivity. Qed.

Lemma m_Lit_mismatch (a y : char) l k s c :
  a <> y -> m (Lit (a :: l)) k (y :: s) c = None.
Proof.
  intros H. simpl. destruct (char_eqb a y) eqn:E; [|reflexivity].
  apply char_eqb_eq in E. contradiction.
Qed.

Lemma m_Seq (r1 r2 : regex) k s c : m (Seq r1 r2) k s c = m r1 (m r2 k) s c.
Proof. reflexivity. Qed.

Lemma m_Chr_true p (x : char) k s c : p x = true -> m (Chr p) k (x :: s) c = k s c.
Proof. intros H. simpl. rewrite H. reflexivity. Qed.

Lemma m_Chr_false p (x : char) k s c : p x = false -> m (Chr p) k (x :: s) c = None.
Proof. intros H. simpl. rewrite H. reflexivity. Qed.

Lemma m_Star (g : bool) p k s c : m (Star g p) k s c = star g p k s c.
Proof. reflexivity. Qed.

Lemma m_Group (i : nat) (r : regex) k s c :
  m (Group i r) k s c
  = m r (fun s' c' => k s' ((i, firstn (length s - length s') s) :: c')) s c.
Proof. reflexivity. Qed.

Lemma m_Opt_None (r : regex) k s c :
  m r k s c = None -> m (Opt r) k s c = k s c.
Proof. intros H. simpl. rewrite H. reflexivity. Qed.

(** A quantifier stops at a character outside its class. *)
Lemma star_stop (g : bool) p k (y : char) s c :
  p y = false -> star g p k (y :: s) c = k (y :: s) c.
Proof.
  intros H. destruct g; simpl; rewrite H; [reflexivity|].
  destruct (k (y :: s) c); reflexivity.
Qed.

Lemma star_nil (g : bool) p k c : star g p k [] c = k [] c.
Proof. destruct g; simpl; [reflexivity|]. destruct (k [] c); reflexivity. Qed.

(** A quantifier moves over a character of its class where the
    continuation fails. *)
Lemma star_step_fail (g : bool) p k (x : char) s c :
  p x = true -> k (x :: s) c = None ->
  star g p k (x :: s) c = star g p k s c.
Proof.
  intros Hp Hk. destruct g; simpl; rewrite Hp, Hk; [|reflexivity].
  destruct (star true p k s c); reflexivity.
Qed.

(** ... and over a run of such characters. *)
Lemma star_skip_fail (g : bool) p k w rest c :
  (forall x, In x w -> p x = true) ->
  (forall w1 x w2, w = w1 ++ x :: w2 -> k (x :: w2 ++ rest) c = None) ->
  star g p k (w ++ rest) c = star g p k rest c.
Proof.
  induction w as [|x w IH]; intros Hp Hk; [reflexivity|].
  rewrite <- app_comm_cons, star_step_fail.
  - apply IH.
    + intros y Hy. apply Hp. right. exact Hy.
    + intros w1 y w2 ->. apply (Hk (x :: w1) y w2). reflexivity.
  - apply Hp. left. reflexivity.
  - apply (Hk [] x w). reflexivity.
Qed.

(** A greedy quantifier takes a whole run of its class when the
    continuation succeeds after it. *)
Lemma star_greedy_last p k w rest c (x : R) :
  (forall y, In y w -> p y = true) ->
  star true p k rest c = Some x ->
  star true p k (w ++ rest) c = Some x.
Proof.
  induction w as [|y w IH]; intros Hp Hk; [exact Hk|].
  rewrite <- app_comm_cons. simpl. rewrite (Hp y (or_introl eq_refl)).
  rewrite IH; [reflexivity| |exact Hk].
  intros z Hz. apply Hp. right. exact Hz.
Qed.

Lemma firstn_app_length (u r : str) :
  firstn (length (u ++ r) - length r) (u ++ r) = u.
Proof.
  rewrite length_app. replace (length u + length r - length r) with (length u) by lia.
  rewrite firstn_app, Nat.sub_diag, firstn_all. simpl. apply app_nil_r.
Qed.

End MatcherSteps.

Section ScanSteps.

Lemma tokens_go_skip (r : regex) (u rest : str) :
  tokens_go r (u ++ rest) (length u) = tokens_go r rest 0.
Proof. induction u as [|x u IH]; [reflexivity|]. simpl. exact IH. Qed.

Lemma tokens_go_match (r : regex) (w rest : str) (c : caps) :
  w <> [] ->
  exec_at r (w ++ rest) = Some (c, rest) ->
  tokens_go r (w ++ rest) 0 = Match w c :: tokens_go r rest 0.
Proof.
  intros Hw He. destruct w as [|x w]; [congruence|].
  rewrite <- app_comm_cons, tokens_go_cons. rewrite app_comm_cons, He.
  pose proof (firstn_app_length (x :: w) rest) as Hf.
  destruct (length ((x :: w) ++ rest) - length rest) as [|n] eqn:E.
  - simpl in Hf. discriminate.
  - rewrite Hf. f_equal.
    assert (n = length w).
    { rewrite length_app in E.
      change (length (x :: w)) with (S (length w)) in E. lia. }
    subst n. apply tokens_go_skip.
Qed.

Lemma tokens_go_plain_run (r : regex) (w rest : str) :
  (forall w1 x w2, w = w1 ++ x :: w2 -> exec_at r (x :: w2 ++ rest) = None) ->
  tokens_go r (w ++ rest) 0 = List.map Plain w ++ tokens_go r rest 0.
Proof.
  induction w as [|x w IH]; intros H; [reflexivity|].
  rewrite <- app_comm_cons, tokens_go_cons, (H [] x w eq_refl). simpl. f_equal.
  apply IH. intros w1 y w2 ->. apply (H (x :: w1) y w2). reflexivity.
Qed.

Lemma replace_tokens_app (St : Type) (f : St -> str -> caps -> St * str)
  (ts1 ts2 : list token) (st : St) :
  replace_tokens f (ts1 ++ ts2) st
  = let (st1, o1) := replace_tokens f ts1 st in
    let (st2, o2) := replace_tokens f ts2 st1 in
    (st2, o1 ++ o2).
Proof.
  revert st. induction ts1 as [|[x|w c] ts1 IH]; intros st; simpl.
  - destruct (replace_tokens f ts2 st). reflexivity.
  - rewrite IH. destruct (replace_tokens f ts1 st) as [st1 o1].
    destruct (replace_tokens f ts2 st1). reflexivity.
  - destruct (f st w c) as [st0 rep]. rewrite IH.
    destruct (replace_tokens f ts1 st0) as [st1 o1].
    destruct (replace_tokens f ts2 st1). rewrite app_assoc. reflexivity.
Qed.

Lemma replace_tokens_plain (St : Type) (f : St -> str -> caps -> St * str)
  (w : str) (st : St) :
  replace_tokens f (List.map Plain w) st = (st, w).
Proof.
  induction w as [|x w IH]; simpl; [reflexivity|]. rewrite IH. reflexivity.
Qed.

End ScanSteps.

(** ** Nested lists *)

Section ItemPattern.

(** Every match of a scan is a match of the pattern at some position. *)
Lemma tokens_go_match_exec (r : regex) (s : str) :
  forall skip w c,
    In (Match w c) (tokens_go r s skip) ->
    exists s' rest, exec_at r s' = Some (c, rest).
Proof.
  induction s as [|x s IH]; intros skip w c.
  - simpl. destruct skip; [|intros []].
    destruct (exec_at r []) as [[c' rest]|] eqn:E; [|intros []].
    intros [H|[]]. injection H as _ <-. exists [], rest. exact E.
  - rewrite tokens_go_cons. destruct skip as [|n]; [|apply IH].
    destruct (exec_at r (x :: s)) as [[c' rest]|] eqn:E.
    + destruct (length (x :: s) - length rest) as [|k].
      * intros [H|[H|H]]; [|discriminate|eapply IH, H].
        injection H as _ <-. exists (x :: s), rest. exact E.
      * intros [H|H]; [|eapply IH, H].
        injection H as _ <-. exists (x :: s), rest. exact E.
    + intros [H|H]; [discriminate|eapply IH, H].
Qed.

(** Where a lazy run of any characters stops, the continuation has failed
    at every earlier position. *)
Lemma star_lazy_any_inv (R : Type) (k : cont R) (s : str) (c : caps) (x : R) :
  star false any k s c = Some x ->
  exists u v,
    s = u ++ v /\ k v c = Some x
    /\ forall u1 y u2, u = u1 ++ y :: u2 -> k (y :: u2 ++ v) c = None.
Proof.
  induction s as [|y s IH]; simpl.
  - destruct (k [] c) as [r|] eqn:E; [|discriminate].
    intros H. exists [], []. repeat split; [congruence|].
    intros [|? ?] ? ? ?; discriminate.
  - destruct (k (y :: s) c) as [r|] eqn:E.
    + intros H. exists [], (y :: s). repeat split; [congruence|].
      intros [|? ?] ? ? ?; discriminate.
    + intros H. destruct (IH H) as (u & v & -> & Hk & Hno).
      exists (y :: u), v. repeat split; [exact Hk|].
      intros [|z u1] y' u2 Hu.
      * injection Hu as <- <-. exact E.
      * injection Hu as <- ->. apply (Hno u1 y' u2). reflexivity.
Qed.

(** What a delimited pattern captures holds no closing delimiter. *)
Lemma delimited_capture (o cl s rest : str) (c : caps) :
  cl <> [] ->
  exec_at (delimited o cl) s = Some (c, rest) ->
  exists u, s = o ++ u ++ cl ++ rest /\ cap 1 c = u /\ ~ occurs cl u.
Proof.
  intros Hcl. unfold exec_at, delimited. simpl.
  destruct (stripPrefix o s) as [s1|] eqn:Eo; [|discriminate].
  apply stripPrefix_Some in Eo. subst s. intros H.
  apply star_lazy_any_inv in H as (u & v & -> & Hk & Hno).
  destruct (stripPrefix cl v) as [rest'|] eqn:Ec; [|discriminate].
  apply stripPrefix_Some in Ec. subst v.
  injection Hk as Hc Hr. subst c rest'.
  exists u. split; [reflexivity|]. split.
  - cbn [cap Nat.eqb]. apply firstn_app_length.
  - intros (a & b & Hu). destruct cl as [|y cl]; [congruence|].
    specialize (Hno a y (cl ++ b)).
    rewrite Hu in Hno. specialize (Hno eq_refl).
    destruct (stripPrefix (y :: cl) (y :: (cl ++ b) ++ (y :: cl) ++ rest))
      eqn:E; [discriminate|].
    rewrite <- app_assoc in E.
    change (y :: cl ++ b ++ (y :: cl) ++ rest)
      with ((y :: cl) ++ b ++ (y :: cl) ++ rest) in E.
    rewrite stripPrefix_app in E. discriminate.
Qed.

Lemma listItem_capture_no_close (sectionContent w : str) (c : caps) :
  In (w, c) (execAll WikiNews.listItemRegex sectionContent) ->
  ~ occurs (lit "</li>") (cap 1 c).
Proof.
  unfold execAll, tokens. rewrite matches_of_In. intros H.
  apply tokens_go_match_exec in H as (s' & rest & E).
  change WikiNews.listItemRegex with (delimited (lit "<li>") (lit "</li>")) in E.
  apply delimited_capture in E as (u & _ & -> & Hu); [exact Hu|discriminate].
Qed.

End ItemPattern.


(** C8 (the code departs from the specification): the item pattern is
    lazy, so what it captures never holds a closing [</li>]: an item that
    holds a sub-list is cut at the closing tag of its first nested bullet.
    The cleaner then never sees a closed sub-list, and no ": " or bullet
    marker is produced; the cleaner alone, on a closed sub-list, does
    produce them. *)
Theorem nested_list_item_loses_structure :
  (forall sectionContent w c,
     In (w, c) (execAll WikiNews.listItemRegex sectionContent) ->
     ~ occurs (lit "</li>") (cap 1 c))
  /\ WikiNews.extractCategoryItems
       (lit "<li>Parent<ul><li>child1</li><li>child2</li></ul></li>")
       (lit "Sports")
     = [{| text := lit "Parentchild1" |}; {| text := lit "child2" |}]
  /\ WikiNews.cleanHtml (lit "Parent<ul><li>child1") = lit "Parentchild1"
  /\ WikiNews.cleanHtml (lit "Parent<ul><li>child1</li><li>child2</li></ul>")
     = lit "Parent:  child1 " ++ WikiNews.bullet ++ lit " child2".
Proof.
  split; [exact listItem_capture_no_close|].
  vm_compute. repeat split; reflexivity.
Qed.

Lemma nested_list_item_loses_structure_witness :
  ~ occurs (lit "</li>") (lit "Parent<ul><li>child1").
Proof.
  apply (proj1 nested_list_item_loses_structure
           (lit "<li>Parent<ul><li>child1</li><li>child2</li></ul></li>")
           (lit "<li>Parent<ul><li>child1</li>")
           [(1, lit "Parent<ul><li>child1")]).
  vm_compute. left. reflexivity.
Defined.


Unset Implicit Arguments.

Section Rejection.

Variable R : Type.
Implicit Types (k : cont R) (s l w rest : str) (c : caps) (p q : charclass).

Lemma stripPrefix_notHead l (x : char) s :
  notHeadOf l x = true -> stripPrefix l (x :: s) = None.
Proof.
  destruct l as [|a l]; simpl; [discriminate|].
  unfold char_eqb. destruct (N.eqb a x); [discriminate|reflexivity].
Qed.

Lemma rejects_Lit l k : rejects (m (Lit l) k) (notHeadOf l).
Proof.
  intros x s c H. simpl. rewrite stripPrefix_notHead by exact H. reflexivity.
Qed.

Lemma rejects_Seq_Lit l (r : regex) k : rejects (m (Seq (Lit l) r) k) (notHeadOf l).
Proof.
  intros x s c H. simpl. rewrite stripPrefix_notHead by exact H. reflexivity.
Qed.

Lemma rejects_Seq_Chr p (r : regex) k :
  rejects (m (Seq (Chr p) r) k) (fun x => negb (p x)).
Proof.
  intros x s c H. simpl. apply negb_true_iff in H. rewrite H. reflexivity.
Qed.

Lemma rejects_caps k q (g : str -> caps -> caps) :
  rejects k q -> rejects (fun s' c' => k s' (g s' c')) q.
Proof. intros H x s c Hq. apply H, Hq. Qed.

Lemma star_step_rejected (g : bool) p q k (x : char) s c :
  rejects k q -> p x = true -> q x = true ->
  star g p k (x :: s) c = star g p k s c.
Proof. intros Hk Hp Hq. apply star_step_fail; [exact Hp|apply Hk, Hq]. Qed.

Lemma star_skip_rejected (g : bool) p q k w rest c :
  rejects k q -> forallb (fun x => p x && q x) w = true ->
  star g p k (w ++ rest) c = star g p k rest c.
Proof.
  intros Hk Hw. induction w as [|x w IH]; [reflexivity|].
  simpl in Hw. apply andb_true_iff in Hw as [Hx Hw].
  apply andb_true_iff in Hx as [Hp Hq].
  rewrite <- app_comm_cons, (star_step_rejected g p q k x _ c Hk Hp Hq).
  apply IH, Hw.
Qed.

Lemma star_stop_rejected (g : bool) p q k (y : char) s c :
  rejects k q -> p y = false -> q y = true ->
  star g p k (y :: s) c = None.
Proof. intros Hk Hp Hq. rewrite star_stop by exact Hp. apply Hk, Hq. Qed.

End Rejection.

Lemma forallb_impl (A : Type) (f g : A -> bool) (l : list A) :
  (forall x, f x = true -> g x = true) ->
  forallb f l = true -> forallb g l = true.
Proof.
  intros H. induction l as [|x l IH]; simpl; [reflexivity|].
  intros E. apply andb_true_iff in E as [E1 E2].
  rewrite (H x E1), (IH E2). reflexivity.
Qed.

(** A pattern that starts with the literal [l] matches nowhere in a run of
    characters at which [l] cannot start. *)
Lemma tokens_go_plain_rejected (l : str) (r : regex) (w rest : str) :
  forallb (notHeadOf l) w = true ->
  tokens_go (Seq (Lit l) r) (w ++ rest) 0
  = List.map Plain w ++ tokens_go (Seq (Lit l) r) rest 0.
Proof.
  intros H. apply tokens_go_plain_run. intros w1 x w2 ->.
  rewrite forallb_app in H. apply andb_true_iff in H as [_ H].
  simpl in H. apply andb_true_iff in H as [H _].
  unfold exec_at. apply rejects_Seq_Lit, H.
Qed.

Lemma tokens_go_end (l : str) (r : regex) :
  l <> [] -> tokens_go (Seq (Lit l) r) [] 0 = [].
Proof.
  intros H. simpl. unfold exec_at. simpl.
  destruct l; [congruence|reflexivity].
Qed.
Section RejectionApp.

Variable R : Type.
Implicit Types (k : cont R) (s l w rest : str) (c : caps) (p q : charclass).

Lemma star_stop_app (g : bool) p k l s c :
  headIs (fun y => negb (p y)) l = true ->
  star g p k (l ++ s) c = k (l ++ s) c.
Proof.
  destruct l as [|y l]; simpl headIs; [discriminate|]. intros H.
  apply negb_true_iff in H. rewrite <- app_comm_cons. apply star_stop, H.
Qed.

Lemma star_stop_rejected_app (g : bool) p q k l s c :
  rejects k q -> headIs (fun y => negb (p y) && q y) l = true ->
  star g p k (l ++ s) c = None.
Proof.
  destruct l as [|y l]; simpl headIs; [discriminate|]. intros Hk H.
  apply andb_true_iff in H as [Hp Hq]. apply negb_true_iff in Hp.
  rewrite <- app_comm_cons. apply (star_stop_rejected R g p q); assumption.
Qed.

Lemma star_lazy_here p k s c (x : R) :
  k s c = Some x -> star false p k s c = Some x.
Proof. intros H. destruct s; simpl; rewrite H; reflexivity. Qed.

End RejectionApp.

Section AnchorFacts.
Import WikiNews.

Lemma anchor_form (href label post : str) :
  anchor href label ++ post
  = lit "<a" ++ 32%N :: (lit "href=" ++ dq) ++ href
    ++ dq ++ lit ">" ++ label ++ lit "</a>" ++ post.
Proof. unfold anchor. rewrite <- !app_assoc. reflexivity. Qed.

Lemma hrefChar_spec (x : char) :
  hrefChar x = true ->
  isSpace x = false /\ N.eqb x 34 = false /\ N.eqb x 60 = false /\ N.eqb x 62 = false.
Proof.
  unfold hrefChar. destruct (isSpace x), (N.eqb x 34), (N.eqb x 60), (N.eqb x 62);
    simpl; intros H; try discriminate; auto.
Qed.

Lemma labelChar_spec (x : char) :
  labelChar x = true -> isLineTerminator x = false /\ N.eqb x 60 = false.
Proof.
  unfold labelChar. destruct (isLineTerminator x), (N.eqb x 60);
    simpl; intros H; try discriminate; auto.
Qed.

Lemma noneOf1 (a x : char) : noneOf [a] x = negb (N.eqb x a).
Proof. unfold noneOf. simpl. rewrite orb_false_r. reflexivity. Qed.

Lemma exec_plainAnchor (href label post : str) :
  forallb hrefChar href = true ->
  forallb labelChar label = true ->
  exec_at plainAnchorRe (anchor href label ++ post)
  = Some ([(2, label); (1, href)], post).
Proof.
  intros Hh Hl. unfold exec_at, plainAnchorRe, plus. cbn [seq].
  rewrite anchor_form.
  rewrite m_Seq, m_Lit_app.
  rewrite m_Seq, m_Seq, m_Chr_true by reflexivity.
  rewrite m_Star, star_stop_app by reflexivity.
  rewrite m_Seq, m_Opt_None.
  2:{ rewrite m_Seq, m_Star.
      rewrite (star_skip_rejected _ false _ (fun x => negb (space x)))
        by (apply rejects_Seq_Chr || reflexivity).
      rewrite (star_skip_rejected _ false _ (fun x => negb (space x))).
      2: apply rejects_Seq_Chr.
      2:{ revert Hh. apply forallb_impl. intros x Hx.
          apply hrefChar_spec in Hx as (H1 & H2 & H3 & H4).
          change (noneOf (lit ">") x) with (noneOf [62%N] x).
          rewrite noneOf1, H4. unfold space. rewrite H1. reflexivity. }
      rewrite (star_skip_rejected _ false _ (fun x => negb (space x)))
        by (apply rejects_Seq_Chr || reflexivity).
      apply (star_stop_rejected_app _ false _ (fun x => negb (space x))).
      - apply rejects_Seq_Chr.
      - reflexivity. }
  rewrite m_Seq, m_Lit_app.
  rewrite m_Seq, m_Group, m_Star.
  apply star_greedy_last.
  { intros y Hy. rewrite forallb_forall in Hh. specialize (Hh y Hy).
    apply hrefChar_spec in Hh as (_ & H2 & _).
    change (noneOf dq y) with (noneOf [34%N] y). rewrite noneOf1, H2. reflexivity. }
  rewrite star_stop_app by reflexivity. cbv beta.
  rewrite firstn_app_length.
  rewrite m_Seq, m_Lit_app.
  rewrite m_Seq, m_Star, star_stop_app by reflexivity.
  rewrite m_Seq, m_Lit_app.
  rewrite m_Seq, m_Group, m_Star.
  rewrite (star_skip_rejected _ false _ (notHeadOf (lit "</a>"))).
  2:{ apply rejects_caps with (k := m (Lit (lit "</a>")) (fun s' c => Some (c, s'))).
      apply rejects_Lit. }
  2:{ revert Hl. apply forallb_impl. intros x Hx.
      apply labelChar_spec in Hx as (H1 & H2).
      unfold dot. rewrite H1.
      change (notHeadOf (lit "</a>") x) with (negb (N.eqb 60 x)).
      rewrite N.eqb_sym, H2. reflexivity. }
  apply star_lazy_here. cbv beta.
  rewrite m_Lit_app, firstn_app_length. reflexivity.
Qed.

(** A literal with a double quote followed by [e] cannot start in a run
    without quotes that is closed by a quote and a character other than
    [e]. *)
Lemma stripPrefix_quote_clash (l1 l2 h tail : str) (e g : char) :
  ~ In 34%N l1 -> ~ In 34%N h -> e <> g ->
  stripPrefix (l1 ++ 34%N :: e :: l2) (h ++ 34%N :: g :: tail) = None.
Proof.
  revert h. induction l1 as [|a l1 IH]; intros h H1 Hh Heg.
  - destruct h as [|y h]; cbn [app stripPrefix].
    + rewrite char_eqb_refl.
      destruct (char_eqb e g) eqn:E; [|reflexivity].
      apply char_eqb_eq in E. contradiction.
    + destruct (char_eqb 34%N y) eqn:E; [|reflexivity].
      apply char_eqb_eq in E. destruct Hh. left. symmetry. exact E.
  - destruct h as [|y h]; cbn [app stripPrefix].
    + destruct (char_eqb a 34%N) eqn:E; [|reflexivity].
      apply char_eqb_eq in E. destruct H1. left. exact E.
    + destruct (char_eqb a y); [|reflexivity]. apply IH.
      * intros Hin. apply H1. right. exact Hin.
      * intros Hin. apply Hh. right. exact Hin.
      * exact Heg.
Qed.

Lemma hrefChar_no_quote (href : str) :
  forallb hrefChar href = true -> ~ In 34%N href.
Proof.
  intros H Hin. rewrite forallb_forall in H. specialize (H _ Hin).
  apply hrefChar_spec in H as (_ & H & _). discriminate.
Qed.

Lemma exec_external_on_plain_anchor (href label post : str) :
  forallb hrefChar href = true ->
  exec_at externalAnchorRe (anchor href label ++ post) = None.
Proof.
  intros Hh. unfold exec_at, externalAnchorRe, plus. cbn [seq].
  rewrite anchor_form.
  rewrite m_Seq, m_Lit_app.
  rewrite m_Seq, m_Seq, m_Chr_true by reflexivity.
  rewrite m_Star, star_stop_app by reflexivity.
  rewrite m_Seq, m_Star.
  set (classExternal := lit "class=" ++ dq ++ lit "external").
  rewrite (star_skip_rejected _ false _ (notHeadOf classExternal))
    by (apply rejects_Seq_Lit || reflexivity).
  rewrite star_skip_fail.
  2:{ intros x Hx. rewrite forallb_forall in Hh. specialize (Hh x Hx).
      apply hrefChar_spec in Hh as (_ & _ & _ & H4).
      change (noneOf (lit ">") x) with (noneOf [62%N] x).
      rewrite noneOf1, H4. reflexivity. }
  2:{ intros w1 x w2 E. rewrite m_Seq. cbn [m].
      change classExternal with (lit "class=" ++ 34%N :: 101%N :: lit "xternal").
      change (x :: w2 ++ dq ++ lit ">" ++ label ++ lit "</a>" ++ post)
        with ((x :: w2) ++ 34%N :: 62%N :: label ++ lit "</a>" ++ post).
      rewrite stripPrefix_quote_clash; [reflexivity| | |discriminate].
      - vm_compute. intuition discriminate.
      - intros Hin. apply (hrefChar_no_quote href Hh). rewrite E.
        apply in_or_app. right. exact Hin. }
  rewrite (star_skip_rejected _ false _ (notHeadOf classExternal))
    by (apply rejects_Seq_Lit || reflexivity).
  apply (star_stop_rejected_app _ false _ (notHeadOf classExternal)).
  - apply rejects_Seq_Lit.
  - reflexivity.
Qed.


Lemma tokens_go_headed (r r' : regex) (l w rest : str) :
  r = Seq (Lit l) r' ->
  forallb (notHeadOf l) w = true ->
  tokens_go r (w ++ rest) 0 = List.map Plain w ++ tokens_go r rest 0.
Proof. intros ->. apply tokens_go_plain_rejected. Qed.

Lemma tokens_go_headed_end (r r' : regex) (l w : str) :
  r = Seq (Lit l) r' -> l <> [] ->
  forallb (notHeadOf l) w = true ->
  tokens_go r w 0 = List.map Plain w.
Proof.
  intros Hr Hl Hw. rewrite <- (app_nil_r w) at 1.
  rewrite (tokens_go_headed r r' l w [] Hr Hw).
  rewrite Hr, tokens_go_end by exact Hl. apply app_nil_r.
Qed.

Lemma tokens_go_plain_step (r : regex) (x : char) (s : str) :
  exec_at r (x :: s) = None ->
  tokens_go r (x :: s) 0 = Plain x :: tokens_go r s 0.
Proof. intros H. rewrite tokens_go_cons, H. reflexivity. Qed.

Lemma textChar_notHead (x : char) :
  textChar x = true -> notHeadOf (lit "<a") x = true.
Proof.
  unfold textChar. change (notHeadOf (lit "<a") x) with (negb (N.eqb 60 x)).
  rewrite N.eqb_sym. intros H. exact H.
Qed.

Lemma hrefChar_notHead (x : char) :
  hrefChar x = true -> notHeadOf (lit "<a") x = true.
Proof.
  intros H. apply hrefChar_spec in H as (_ & _ & H & _).
  apply textChar_notHead. unfold textChar. rewrite H. reflexivity.
Qed.

Lemma labelChar_notHead (x : char) :
  labelChar x = true -> notHeadOf (lit "<a") x = true.
Proof.
  intros H. apply labelChar_spec in H as (_ & H).
  apply textChar_notHead. unfold textChar. rewrite H. reflexivity.
Qed.

(** The anchor, cut at its two [<]. *)
Lemma anchor_cut (href label post : str) :
  anchor href label ++ post
  = 60%N :: (lit "a href=" ++ dq ++ href ++ dq ++ lit ">" ++ label)
    ++ 60%N :: lit "/a>" ++ post.
Proof. unfold anchor. rewrite <- !app_assoc. reflexivity. Qed.

Lemma anchor_inside_notHead (href label : str) :
  forallb hrefChar href = true ->
  forallb labelChar label = true ->
  forallb (notHeadOf (lit "<a"))
    (lit "a href=" ++ dq ++ href ++ dq ++ lit ">" ++ label) = true.
Proof.
  intros Hh Hl. rewrite !forallb_app.
  rewrite (forallb_impl _ _ _ _ hrefChar_notHead Hh).
  rewrite (forallb_impl _ _ _ _ labelChar_notHead Hl).
  reflexivity.
Qed.

Lemma anchor_cut_map (href label : str) :
  List.map Plain (anchor href label)
  = Plain 60%N
    :: List.map Plain (lit "a href=" ++ dq ++ href ++ dq ++ lit ">" ++ label)
    ++ Plain 60%N :: List.map Plain (lit "/a>").
Proof.
  rewrite <- (app_nil_r (anchor href label)), anchor_cut.
  cbn [List.map]. rewrite map_app. cbn [List.map]. rewrite app_nil_r.
  reflexivity.
Qed.

(** The external pass leaves an ordinary anchor and the text before it. *)
Lemma tokens_go_external_over_anchor (pre href label rest : str) :
  forallb textChar pre = true ->
  forallb hrefChar href = true ->
  forallb labelChar label = true ->
  tokens_go externalAnchorRe (pre ++ anchor href label ++ rest) 0
  = List.map Plain (pre ++ anchor href label)
    ++ tokens_go externalAnchorRe rest 0.
Proof.
  intros Hpre Hh Hl.
  assert (Hr : exists r', externalAnchorRe = Seq (Lit (lit "<a")) r')
    by (eexists; reflexivity).
  destruct Hr as [r' Hr].
  rewrite (tokens_go_headed _ r' (lit "<a") pre _ Hr)
    by (revert Hpre; apply forallb_impl, textChar_notHead).
  rewrite map_app, <- app_assoc. f_equal.
  rewrite anchor_cut.
  rewrite tokens_go_plain_step
    by (rewrite <- anchor_cut; apply exec_external_on_plain_anchor, Hh).
  rewrite (tokens_go_headed _ r' (lit "<a") _ _ Hr)
    by (apply anchor_inside_notHead; assumption).
  rewrite tokens_go_plain_step by (rewrite Hr; reflexivity).
  rewrite (tokens_go_headed _ r' (lit "<a") (lit "/a>") rest Hr) by reflexivity.
  rewrite anchor_cut_map. cbn [app]. rewrite <- app_assoc. reflexivity.
Qed.

(** The external pass finds nothing in text that holds one ordinary
    anchor. *)
Lemma tokens_external_on_plain_anchor (pre href label post : str) :
  forallb textChar pre = true ->
  forallb hrefChar href = true ->
  forallb labelChar label = true ->
  forallb textChar post = true ->
  tokens externalAnchorRe (pre ++ anchor href label ++ post)
  = List.map Plain (pre ++ anchor href label ++ post).
Proof.
  intros Hpre Hh Hl Hpost. unfold tokens.
  rewrite (tokens_go_external_over_anchor pre href label post Hpre Hh Hl).
  assert (Hr : exists r', externalAnchorRe = Seq (Lit (lit "<a")) r')
    by (eexists; reflexivity).
  destruct Hr as [r' Hr].
  rewrite (tokens_go_headed_end _ r' (lit "<a") post Hr).
  - rewrite <- map_app, <- app_assoc. reflexivity.
  - discriminate.
  - revert Hpost. apply forallb_impl, textChar_notHead.
Qed.

Lemma anchor_nonempty (href label : str) : anchor href label <> [].
Proof. unfold anchor. discriminate. Qed.

(** The ordinary pass finds exactly the anchor. *)
Lemma tokens_plain_on_anchor (pre href label post : str) :
  forallb textChar pre = true ->
  forallb hrefChar href = true ->
  forallb labelChar label = true ->
  forallb textChar post = true ->
  tokens plainAnchorRe (pre ++ anchor href label ++ post)
  = List.map Plain pre
    ++ Match (anchor href label) [(2, label); (1, href)]
    :: List.map Plain post.
Proof.
  intros Hpre Hh Hl Hpost. unfold tokens.
  assert (Hr : exists r', plainAnchorRe = Seq (Lit (lit "<a")) r')
    by (eexists; reflexivity).
  destruct Hr as [r' Hr].
  rewrite (tokens_go_headed _ r' (lit "<a") pre _ Hr)
    by (revert Hpre; apply forallb_impl, textChar_notHead).
  f_equal.
  rewrite (tokens_go_match plainAnchorRe (anchor_nonempty href label)
             (exec_plainAnchor href label post Hh Hl)).
  f_equal. apply (tokens_go_headed_end _ r' (lit "<a") _ Hr).
  - discriminate.
  - revert Hpost. apply forallb_impl, textChar_notHead.
Qed.

Lemma truthy_nonempty (s : str) : s <> [] -> truthy s = true.
Proof. destruct s; [congruence|reflexivity]. Qed.

(** [#processItemLinks] on text that holds one ordinary anchor: the anchor
    is replaced by its label and annotated once. *)
Lemma processItemLinks_on_anchor (pre href label post : str) :
  forallb textChar pre = true ->
  forallb hrefChar href = true -> href <> [] ->
  forallb labelChar label = true -> label <> [] ->
  forallb textChar post = true ->
  processItemLinks (pre ++ anchor href label ++ post)
  = {| itemText := pre ++ label ++ post;
       links := [entry label
                   (if startsWith (lit "/") href then origin ++ href else href)] |}.
Proof.
  intros Hpre Hh Hhne Hl Hlne Hpost. unfold processItemLinks, replaceWith.
  rewrite (tokens_external_on_plain_anchor pre href label post Hpre Hh Hl Hpost).
  rewrite replace_tokens_plain.
  rewrite (tokens_plain_on_anchor pre href label post Hpre Hh Hl Hpost).
  rewrite replace_tokens_app, replace_tokens_plain.
  cbn [replace_tokens]. unfold plainReplacer.
  change (cap 1 [(2, label); (1, href)]) with href.
  change (cap 2 [(2, label); (1, href)]) with label.
  rewrite (truthy_nonempty href Hhne), (truthy_nonempty label Hlne).
  cbn [negb orb includes existsb app].
  rewrite replace_tokens_plain. reflexivity.
Qed.


(** *** The earlier renderer on one ordinary anchor *)

Lemma indexOf_cons_None (p : str) (x : char) (s : str) :
  startsWith p (x :: s) = false -> indexOf p s = None ->
  indexOf p (x :: s) = None.
Proof.
  intros H1 H2. change (indexOf p (x :: s))
    with (if startsWith p (x :: s) then Some 0 else option_map S (indexOf p s)).
  rewrite H1, H2. reflexivity.
Qed.

Lemma indexOf_run_None (p w rest : str) :
  (forall w1 x w2, w = w1 ++ x :: w2 -> startsWith p (x :: w2 ++ rest) = false) ->
  indexOf p rest = None -> indexOf p (w ++ rest) = None.
Proof.
  induction w as [|x w IH]; intros H Hr; [exact Hr|].
  rewrite <- app_comm_cons. apply indexOf_cons_None.
  - apply (H [] x w). reflexivity.
  - apply IH; [|exact Hr]. intros w1 y w2 ->. apply (H (x :: w1) y w2). reflexivity.
Qed.

Lemma startsWith_notHead (p : str) (x : char) (s : str) :
  notHeadOf p x = true -> startsWith p (x :: s) = false.
Proof.
  intros H. unfold startsWith. rewrite stripPrefix_notHead by exact H.
  reflexivity.
Qed.

Lemma indexOf_rejected_None (p w rest : str) :
  forallb (notHeadOf p) w = true ->
  indexOf p rest = None -> indexOf p (w ++ rest) = None.
Proof.
  intros Hw. apply indexOf_run_None. intros w1 x w2 ->.
  rewrite forallb_app in Hw. apply andb_true_iff in Hw as [_ Hw].
  simpl in Hw. apply andb_true_iff in Hw as [Hw _].
  apply startsWith_notHead, Hw.
Qed.

(** A literal that holds a double quote cannot start in text without one. *)
Lemma stripPrefix_needs_quote (l1 l2 s : str) :
  ~ In 34%N s -> stripPrefix (l1 ++ 34%N :: l2) s = None.
Proof.
  intros H. apply stripPrefix_None. intros r E. apply H. rewrite E.
  apply in_or_app. left. apply in_or_app. right. left. reflexivity.
Qed.


Lemma labelChar_no_quote (label : str) :
  forallb (fun x => negb (N.eqb x 34)) label = true -> ~ In 34%N label.
Proof.
  intros H Hin. rewrite forallb_forall in H. specialize (H _ Hin).
  rewrite N.eqb_refl in H. discriminate.
Qed.

(** The text of an ordinary anchor does not hold the external class. *)
Lemma anchor_not_external (href label : str) :
  forallb hrefChar href = true ->
  forallb (fun x => negb (N.eqb x 34)) label = true ->
  WikiNewsMarkdown.strIncludes (lit "class=" ++ dq ++ lit "external")
    (anchor href label) = false.
Proof.
  intros Hh Hq. unfold WikiNewsMarkdown.strIncludes.
  set (classExternal := lit "class=" ++ dq ++ lit "external").
  assert (E : indexOf classExternal (anchor href label) = None);
    [|rewrite E; reflexivity].
  unfold anchor.
  replace (lit "<a href=" ++ dq ++ href ++ dq ++ lit ">" ++ label ++ lit "</a>")
    with ((lit "<a href=" ++ dq) ++ href ++ (dq ++ lit ">") ++ label ++ lit "</a>")
    by (rewrite <- !app_assoc; reflexivity).
  apply indexOf_rejected_None; [reflexivity|].
  apply indexOf_run_None.
  { intros w1 x w2 E. unfold startsWith.
    change classExternal with (lit "class=" ++ 34%N :: 101%N :: lit "xternal").
    change (x :: w2 ++ (dq ++ lit ">") ++ label ++ lit "</a>")
      with ((x :: w2) ++ 34%N :: 62%N :: label ++ lit "</a>").
    rewrite stripPrefix_quote_clash; [reflexivity| | |discriminate].
    - vm_compute. intuition discriminate.
    - intros Hin. apply (hrefChar_no_quote href Hh). rewrite E.
      apply in_or_app. right. exact Hin. }
  apply indexOf_rejected_None; [reflexivity|].
  apply indexOf_run_None; [|reflexivity].
  intros w1 x w2 E. unfold startsWith.
  change classExternal with (lit "class=" ++ 34%N :: lit "external").
  rewrite stripPrefix_needs_quote; [reflexivity|].
  change (x :: w2 ++ lit "</a>") with ((x :: w2) ++ lit "</a>").
  intros Hin. apply in_app_or in Hin as [Hin|Hin].
  - apply (labelChar_no_quote label Hq). rewrite E.
    apply in_or_app. right. exact Hin.
  - vm_compute in Hin. intuition discriminate.
Qed.

(** [#convertLinksToMarkdown] on text that holds one ordinary anchor. *)
Lemma convertLinksToMarkdown_on_anchor (pre href label post : str) :
  forallb textChar pre = true ->
  forallb hrefChar href = true ->
  forallb labelChar label = true ->
  forallb (fun x => negb (N.eqb x 34)) label = true ->
  forallb textChar post = true ->
  WikiNewsMarkdown.convertLinksToMarkdown (pre ++ anchor href label ++ post)
  = pre ++ lit "[" ++ label ++ lit "]("
    ++ (if startsWith (lit "/") href then origin ++ href else href)
    ++ lit ")" ++ post.
Proof.
  intros Hpre Hh Hl Hq Hpost.
  unfold WikiNewsMarkdown.convertLinksToMarkdown, replaceWith.
  rewrite (tokens_plain_on_anchor pre href label post Hpre Hh Hl Hpost).
  rewrite replace_tokens_app, replace_tokens_plain.
  cbn [replace_tokens]. unfold WikiNewsMarkdown.markdownReplacer.
  rewrite (anchor_not_external href label Hh Hq).
  change (cap 1 [(2, label); (1, href)]) with href.
  change (cap 2 [(2, label); (1, href)]) with label.
  rewrite replace_tokens_plain. cbn [snd].
  set (href' := if startsWith (lit "/") href then origin ++ href else href).
  assert (Hhref' : forallb (notHeadOf (lit "<a")) href' = true).
  { subst href'. destruct (startsWith (lit "/") href).
    - rewrite forallb_app, (forallb_impl _ _ _ _ hrefChar_notHead Hh). reflexivity.
    - exact (forallb_impl _ _ _ _ hrefChar_notHead Hh). }
  unfold replace, replaceWith, tokens.
  assert (Hr : exists r', externalAnchorRe = Seq (Lit (lit "<a")) r')
    by (eexists; reflexivity).
  destruct Hr as [r' Hr].
  rewrite (tokens_go_headed_end _ r' (lit "<a") _ Hr).
  - rewrite replace_tokens_plain. cbn [snd]. rewrite <- !app_assoc. reflexivity.
  - discriminate.
  - rewrite !forallb_app, Hhref'.
    rewrite (forallb_impl _ _ _ _ textChar_notHead Hpre).
    rewrite (forallb_impl _ _ _ _ labelChar_notHead Hl).
    rewrite (forallb_impl _ _ _ _ textChar_notHead Hpost).
    reflexivity.
Qed.

End AnchorFacts.

(** ** An external anchor after an ordinary one *)

Section TwoAnchors.

Import WikiNews.

Lemma externalAnchor_form (href label post : str) :
  externalAnchor href label ++ post
  = lit "<a" ++ 32%N :: (lit "class=" ++ dq ++ lit "external")
    ++ (lit " text" ++ dq ++ lit " ") ++ (lit "href=" ++ dq) ++ href
    ++ dq ++ lit ">" ++ label ++ lit "</a>" ++ post.
Proof. unfold externalAnchor. rewrite <- !app_assoc. reflexivity. Qed.

Lemma exec_externalAnchor (href label post : str) :
  forallb hrefChar href = true ->
  forallb labelChar label = true ->
  exec_at externalAnchorRe (externalAnchor href label ++ post)
  = Some ([(2, label); (1, href)], post).
Proof.
  intros Hh Hl. unfold exec_at, externalAnchorRe, plus. cbn [seq].
  rewrite externalAnchor_form.
  rewrite m_Seq, m_Lit_app.
  rewrite m_Seq, m_Seq, m_Chr_true by reflexivity.
  rewrite m_Star, star_stop_app by reflexivity.
  rewrite m_Seq, m_Star. apply star_lazy_here.
  rewrite m_Seq, m_Lit_app.
  rewrite m_Seq, m_Star.
  rewrite (star_skip_rejected _ false _ (notHeadOf (lit "href=" ++ dq)))
    by (apply rejects_Seq_Lit || reflexivity).
  apply star_lazy_here.
  rewrite m_Seq, m_Lit_app.
  rewrite m_Seq, m_Group, m_Star.
  apply star_greedy_last.
  { intros y Hy. rewrite forallb_forall in Hh. specialize (Hh y Hy).
    apply hrefChar_spec in Hh as (_ & H2 & _).
    change (noneOf dq y) with (noneOf [34%N] y). rewrite noneOf1, H2. reflexivity. }
  rewrite star_stop_app by reflexivity. cbv beta.
  rewrite firstn_app_length.
  rewrite m_Seq, m_Lit_app.
  rewrite m_Seq, m_Star, star_stop_app by reflexivity.
  rewrite m_Seq, m_Lit_app.
  rewrite m_Seq, m_Group, m_Star.
  rewrite (star_skip_rejected _ false _ (notHeadOf (lit "</a>"))).
  2:{ apply rejects_caps with (k := m (Lit (lit "</a>")) (fun s' c => Some (c, s'))).
      apply rejects_Lit. }
  2:{ revert Hl. apply forallb_impl. intros x Hx.
      apply labelChar_spec in Hx as (H1 & H2).
      unfold dot. rewrite H1.
      change (notHeadOf (lit "</a>") x) with (negb (N.eqb 60 x)).
      rewrite N.eqb_sym, H2. reflexivity. }
  apply star_lazy_here. cbv beta.
  rewrite m_Lit_app, firstn_app_length. reflexivity.
Qed.

Lemma externalAnchor_nonempty (href label : str) : externalAnchor href label <> [].
Proof. unfold externalAnchor. discriminate. Qed.

(** The external pass over an ordinary anchor followed by an external one:
    the external anchor is the only match. *)
Lemma tokens_external_two_anchors (pre hp lp mid he le post : str) :
  forallb textChar pre = true ->
  forallb hrefChar hp = true -> forallb labelChar lp = true ->
  forallb textChar mid = true ->
  forallb hrefChar he = true -> forallb labelChar le = true ->
  forallb textChar post = true ->
  tokens externalAnchorRe
    (pre ++ anchor hp lp ++ mid ++ externalAnchor he le ++ post)
  = List.map Plain (pre ++ anchor hp lp ++ mid)
    ++ Match (externalAnchor he le) [(2, le); (1, he)]
    :: List.map Plain post.
Proof.
  intros Hpre Hhp Hlp Hmid Hhe Hle Hpost. unfold tokens.
  rewrite (tokens_go_external_over_anchor pre hp lp _ Hpre Hhp Hlp).
  assert (Hr : exists r', externalAnchorRe = Seq (Lit (lit "<a")) r')
    by (eexists; reflexivity).
  destruct Hr as [r' Hr].
  rewrite (tokens_go_headed _ r' (lit "<a") mid _ Hr)
    by (revert Hmid; apply forallb_impl, textChar_notHead).
  rewrite (tokens_go_match externalAnchorRe (externalAnchor_nonempty he le)
             (exec_externalAnchor he le post Hhe Hle)).
  rewrite (tokens_go_headed_end _ r' (lit "<a") post Hr);
    [|discriminate|revert Hpost; apply forallb_impl, textChar_notHead].
  rewrite (app_assoc pre), (map_app Plain (pre ++ anchor hp lp) mid).
  rewrite <- !app_assoc. reflexivity.
Qed.

Lemma forallb_textChar_app (a b : str) :
  forallb textChar a = true -> forallb textChar b = true ->
  forallb textChar (a ++ b) = true.
Proof. intros Ha Hb. rewrite forallb_app, Ha, Hb. reflexivity. Qed.

(** [#processItemLinks] on an ordinary anchor followed by an external one. *)
Lemma processItemLinks_two_anchors (pre hp lp mid he le post : str) :
  forallb textChar pre = true ->
  forallb hrefChar hp = true -> hp <> [] ->
  forallb labelChar lp = true -> lp <> [] ->
  forallb textChar mid = true ->
  forallb hrefChar he = true -> he <> [] ->
  forallb labelChar le = true -> le <> [] ->
  forallb textChar post = true ->
  processItemLinks (pre ++ anchor hp lp ++ mid ++ externalAnchor he le ++ post)
  = {| itemText := pre ++ lp ++ mid ++ post;
       links := [entry lp (if startsWith (lit "/") hp then origin ++ hp else hp);
                 entry le he] |}.
Proof.
  intros Hpre Hhp Hhpne Hlp Hlpne Hmid Hhe Hhene Hle Hlene Hpost.
  unfold processItemLinks, replaceWith.
  rewrite (tokens_external_two_anchors pre hp lp mid he le post
             Hpre Hhp Hlp Hmid Hhe Hle Hpost).
  rewrite replace_tokens_app, replace_tokens_plain.
  cbn [replace_tokens]. unfold externalReplacer.
  change (cap 1 [(2, le); (1, he)]) with he.
  change (cap 2 [(2, le); (1, he)]) with le.
  rewrite (truthy_nonempty he Hhene), (truthy_nonempty le Hlene).
  cbn [andb app]. rewrite replace_tokens_plain.
  replace ((pre ++ anchor hp lp ++ mid) ++ post)
    with (pre ++ anchor hp lp ++ (mid ++ post))
    by (rewrite <- !app_assoc; reflexivity).
  rewrite (tokens_plain_on_anchor pre hp lp (mid ++ post) Hpre Hhp Hlp
             (forallb_textChar_app mid post Hmid Hpost)).
  rewrite replace_tokens_app, replace_tokens_plain.
  cbn [replace_tokens]. unfold plainReplacer.
  change (cap 1 [(2, lp); (1, hp)]) with hp.
  change (cap 2 [(2, lp); (1, hp)]) with lp.
  rewrite (truthy_nonempty hp Hhpne), (truthy_nonempty lp Hlpne).
  cbn [negb orb includes existsb app].
  rewrite replace_tokens_plain. reflexivity.
Qed.

End TwoAnchors.

(** ** The annotation list of an item *)

Section AnnotationFacts.

Import WikiNews.

Lemma includes_In (l : list str) (x : str) : includes l x = true <-> In x l.
Proof.
  unfold includes. rewrite existsb_exists. split.
  - intros (y & Hy & E). apply str_eqb_eq in E. subst y. exact Hy.
  - intros H. exists x. split; [exact H|]. apply str_eqb_eq. reflexivity.
Qed.

Lemma truthy_true (s : str) : truthy s = true <-> s <> [].
Proof. destruct s; simpl; split; congruence. Qed.

(** The target of an ordinary anchor, made absolute. *)
Lemma plainReplacer_pushes (links : list str) (whole : str) (c : caps) :
  cap 1 c <> [] -> cap 2 c <> [] ->
  let e := entry (cap 2 c)
             (if startsWith (lit "/") (cap 1 c) then origin ++ cap 1 c
              else cap 1 c) in
  fst (plainReplacer links whole c) = (if includes links e then links else links ++ [e])
  /\ snd (plainReplacer links whole c) = cap 2 c.
Proof.
  intros H1 H2 e. unfold plainReplacer.
  apply truthy_true in H1. apply truthy_true in H2. rewrite H1, H2.
  cbn [negb orb fst snd]. subst e. unfold entry. split; [|reflexivity].
  destruct (includes links _); reflexivity.
Qed.

Lemma plainReplacer_keeps (links : list str) (whole : str) (c : caps) :
  NoDup links ->
  NoDup (fst (plainReplacer links whole c))
  /\ (forall e, In e links -> In e (fst (plainReplacer links whole c))).
Proof.
  intros Hnd. unfold plainReplacer.
  destruct (negb (truthy (cap 1 c)) || negb (truthy (cap 2 c))); cbn [fst].
  - split; auto.
  - set (e := cap 2 c ++ lit " (" ++ _ ++ lit ")").
    destruct (includes links e) eqn:E; cbn [negb].
    + split; auto.
    + split.
      * apply NoDup_app; [exact Hnd|repeat constructor; intros []|].
        intros x Hx [<-|[]]. apply includes_In in Hx. congruence.
      * intros x Hx. apply in_or_app. left. exact Hx.
Qed.

(** The ordinary pass keeps its array free of duplicates and records every
    anchor it finds with a label and a target. *)
Lemma plain_pass_links (ts : list token) (links0 : list str) :
  NoDup links0 ->
  let links1 := fst (replace_tokens plainReplacer ts links0) in
  NoDup links1
  /\ (forall e, In e links0 -> In e links1)
  /\ (forall w c, In (Match w c) ts -> cap 1 c <> [] -> cap 2 c <> [] ->
        In (entry (cap 2 c)
              (if startsWith (lit "/") (cap 1 c) then origin ++ cap 1 c
               else cap 1 c)) links1).
Proof.
  revert links0. induction ts as [|[x|w c] ts IH]; intros links0 Hnd; cbn zeta.
  - simpl. repeat split; auto. intros w c [].
  - simpl. destruct (IH links0 Hnd) as (H1 & H2 & H3).
    destruct (replace_tokens plainReplacer ts links0) as [l1 o1]. cbn [fst] in *.
    repeat split; auto. intros w c [H|H]; [discriminate|]. apply (H3 w c H).
  - simpl. destruct (plainReplacer_keeps links0 w c Hnd) as [Hnd' Hkeep].
    pose proof (plainReplacer_pushes links0 w c) as Hpush.
    destruct (plainReplacer links0 w c) as [l0 rep]. cbn [fst snd] in *.
    destruct (IH l0 Hnd') as (H1 & H2 & H3).
    destruct (replace_tokens plainReplacer ts l0) as [l1 o1]. cbn [fst] in *.
    repeat split; auto.
    intros w' c' [H|H] Hc1 Hc2; [|apply (H3 w' c' H Hc1 Hc2)].
    injection H as <- <-. destruct (Hpush Hc1 Hc2) as [Hl0 _].
    apply H2. rewrite Hl0.
    destruct (includes links0 _) eqn:E.
    + apply includes_In, E.
    + apply in_or_app. right. left. reflexivity.
Qed.

(** The external pass records every anchor it finds with a label and a
    target. *)
Lemma external_pass_links (ts : list token) (links0 : list str) :
  let links1 := fst (replace_tokens externalReplacer ts links0) in
  (forall e, In e links0 -> In e links1)
  /\ (forall w c, In (Match w c) ts -> cap 1 c <> [] -> cap 2 c <> [] ->
        In (entry (cap 2 c) (cap 1 c)) links1).
Proof.
  revert links0. induction ts as [|[x|w c] ts IH]; intros links0; cbn zeta.
  - simpl. split; auto. intros w c [].
  - simpl. destruct (IH links0) as (H2 & H3).
    destruct (replace_tokens externalReplacer ts links0) as [l1 o1]. cbn [fst] in *.
    split; auto. intros w c [H|H]; [discriminate|]. apply (H3 w c H).
  - simpl.
    assert (Hkeep : forall e, In e links0 -> In e (fst (externalReplacer links0 w c))).
    { intros e He. unfold externalReplacer.
      destruct (truthy (cap 2 c) && truthy (cap 1 c)); cbn [fst]; [|exact He].
      apply in_or_app. left. exact He. }
    assert (Hpush : cap 1 c <> [] -> cap 2 c <> [] ->
                    In (entry (cap 2 c) (cap 1 c)) (fst (externalReplacer links0 w c))).
    { intros H1 H2. unfold externalReplacer.
      apply truthy_true in H1. apply truthy_true in H2. rewrite H1, H2.
      cbn [andb fst]. apply in_or_app. right. left. reflexivity. }
    destruct (externalReplacer links0 w c) as [l0 rep]. cbn [fst] in *.
    destruct (IH l0) as (H2 & H3).
    destruct (replace_tokens externalReplacer ts l0) as [l1 o1]. cbn [fst] in *.
    split; auto.
    intros w' c' [H|H] Hc1 Hc2; [|apply (H3 w' c' H Hc1 Hc2)].
    injection H as <- <-. apply H2, Hpush; assumption.
Qed.

Lemma processItemLinks_links (html : str) :
  links (processItemLinks html)
  = fst (replaceWith plainAnchorRe plainReplacer (withoutExternals html) [])
    ++ fst (replaceWith externalAnchorRe externalReplacer html []).
Proof.
  unfold processItemLinks, withoutExternals.
  destruct (replaceWith externalAnchorRe externalReplacer html []) as [ext h1].
  cbn [snd fst].
  destruct (replaceWith plainAnchorRe plainReplacer h1 []) as [pl h2].
  reflexivity.
Qed.

(** Trimming keeps a trailing bracketed list. *)
Lemma trimStart_keeps_bracket (a rest : str) :
  exists lead, trimStart (a ++ lit " [" ++ rest) = lead ++ lit "[" ++ rest.
Proof.
  induction a as [|x a IH].
  - exists []. reflexivity.
  - rewrite <- app_comm_cons. cbn [trimStart]. destruct (isSpace x).
    + exact IH.
    + exists (x :: a ++ lit " "). rewrite <- !app_comm_cons, <- app_assoc.
      reflexivity.
Qed.

Lemma trimEnd_keeps_last (s : str) (y : char) :
  isSpace y = false -> trimEnd (s ++ [y]) = s ++ [y].
Proof.
  intros H. unfold trimEnd. rewrite rev_app_distr. cbn [rev app trimStart].
  rewrite H. change (y :: rev s) with ([y] ++ rev s).
  rewrite rev_app_distr, rev_involutive. reflexivity.
Qed.

Lemma trim_keeps_bracketed_list (a j : str) :
  exists lead,
    trim (a ++ lit " [" ++ j ++ lit "]") = lead ++ lit "[" ++ j ++ lit "]".
Proof.
  unfold trim. destruct (trimStart_keeps_bracket a (j ++ lit "]")) as [lead E].
  exists lead. rewrite E.
  replace (lead ++ lit "[" ++ j ++ lit "]") with ((lead ++ lit "[" ++ j) ++ [93%N])
    by (rewrite <- !app_assoc; reflexivity).
  apply trimEnd_keeps_last. reflexivity.
Qed.

End AnnotationFacts.

(** What the two passes leave in the annotation list of any fragment. *)
Lemma annotation_list_of_matches (html we wp : str) (ce cp : caps) :
  In (we, ce) (execAll WikiNews.externalAnchorRe html) ->
  cap 1 ce <> [] -> cap 2 ce <> [] ->
  In (wp, cp) (execAll WikiNews.plainAnchorRe (withoutExternals html)) ->
  cap 1 cp <> [] -> cap 2 cp <> [] ->
  exists plainLinks externalLinks lead,
    WikiNews.links (WikiNews.processItemLinks html) = plainLinks ++ externalLinks
    /\ NoDup plainLinks
    /\ In (entry (cap 2 cp)
             (if startsWith (lit "/") (cap 1 cp)
              then lit "https://en.wikipedia.org" ++ cap 1 cp else cap 1 cp))
          plainLinks
    /\ In (entry (cap 2 ce) (cap 1 ce)) externalLinks
    /\ WikiNews.itemFinalText html
       = WikiNews.cleanHtml (WikiNews.itemText (WikiNews.processItemLinks html))
         ++ lit " [" ++ join (lit ", ") (plainLinks ++ externalLinks) ++ lit "]"
    /\ trim (WikiNews.itemFinalText html)
       = lead ++ lit "[" ++ join (lit ", ") (plainLinks ++ externalLinks) ++ lit "]".
Proof.
  intros He He1 He2 Hp Hp1 Hp2.
  set (plainLinks :=
         fst (replaceWith WikiNews.plainAnchorRe WikiNews.plainReplacer
                (withoutExternals html) [])).
  set (externalLinks :=
         fst (replaceWith WikiNews.externalAnchorRe WikiNews.externalReplacer html [])).
  assert (Hlinks : WikiNews.links (WikiNews.processItemLinks html)
                   = plainLinks ++ externalLinks)
    by apply processItemLinks_links.
  destruct (plain_pass_links
              (tokens WikiNews.plainAnchorRe (withoutExternals html)) []
              (NoDup_nil _)) as (Hnd & _ & Hin).
  destruct (external_pass_links (tokens WikiNews.externalAnchorRe html) [])
    as (_ & Hex).
  apply matches_of_In in He, Hp.
  specialize (Hin wp cp Hp Hp1 Hp2). specialize (Hex we ce He He1 He2).
  change (In (entry (cap 2 cp)
                (if startsWith (lit "/") (cap 1 cp)
                 then lit "https://en.wikipedia.org" ++ cap 1 cp else cap 1 cp))
             plainLinks) in Hin.
  change (In (entry (cap 2 ce) (cap 1 ce)) externalLinks) in Hex.
  assert (Hfinal : WikiNews.itemFinalText html
                   = WikiNews.cleanHtml (WikiNews.itemText (WikiNews.processItemLinks html))
                     ++ lit " [" ++ join (lit ", ") (plainLinks ++ externalLinks)
                     ++ lit "]").
  { unfold WikiNews.itemFinalText. rewrite Hlinks.
    destruct (plainLinks ++ externalLinks) eqn:E; [|reflexivity].
    apply app_eq_nil in E as [E _]. rewrite E in Hin. destruct Hin. }
  destruct (trim_keeps_bracketed_list
              (WikiNews.cleanHtml (WikiNews.itemText (WikiNews.processItemLinks html)))
              (join (lit ", ") (plainLinks ++ externalLinks))) as [lead Hlead].
  exists plainLinks, externalLinks, lead.
  rewrite Hfinal. repeat split; assumption.
Qed.


(** C2, as the code has it: when the external pattern finds an anchor with a
    label and a target in a list-item fragment, and the ordinary pattern
    finds one in what is left of the fragment, the item text is the cleaned
    text followed by exactly one trailing list " [e1, e2, ...]"; the list
    is the entries of the ordinary anchors, free of duplicates by exact
    string, followed by the entries of the external anchors; both anchors
    have their "Label (url)" entry in it, the ordinary one with its target
    made absolute. For a fragment written as text, an ordinary anchor, text,
    an external-flagged anchor, text, the list is exactly the two entries,
    the ordinary one first. *)
Theorem item_annotation_list :
  (forall (html we wp : str) (ce cp : caps),
     In (we, ce) (execAll WikiNews.externalAnchorRe html) ->
     cap 1 ce <> [] -> cap 2 ce <> [] ->
     In (wp, cp) (execAll WikiNews.plainAnchorRe (withoutExternals html)) ->
     cap 1 cp <> [] -> cap 2 cp <> [] ->
     exists plainLinks externalLinks lead,
       WikiNews.links (WikiNews.processItemLinks html) = plainLinks ++ externalLinks
       /\ NoDup plainLinks
       /\ In (entry (cap 2 cp)
                (if startsWith (lit "/") (cap 1 cp)
                 then lit "https://en.wikipedia.org" ++ cap 1 cp else cap 1 cp))
             plainLinks
       /\ In (entry (cap 2 ce) (cap 1 ce)) externalLinks
       /\ WikiNews.itemFinalText html
          = WikiNews.cleanHtml (WikiNews.itemText (WikiNews.processItemLinks html))
            ++ lit " [" ++ join (lit ", ") (plainLinks ++ externalLinks) ++ lit "]"
       /\ trim (WikiNews.itemFinalText html)
          = lead ++ lit "[" ++ join (lit ", ") (plainLinks ++ externalLinks)
            ++ lit "]")
  /\ (forall pre hp lp mid he le post : str,
        forallb textChar pre = true ->
        forallb hrefChar hp = true -> hp <> [] ->
        forallb labelChar lp = true -> lp <> [] ->
        forallb textChar mid = true ->
        forallb hrefChar he = true -> he <> [] ->
        forallb labelChar le = true -> le <> [] ->
        forallb textChar post = true ->
        let fragment :=
          pre ++ anchor hp lp ++ mid ++ externalAnchor he le ++ post in
        let url :=
          if startsWith (lit "/") hp then lit "https://en.wikipedia.org" ++ hp
          else hp in
        WikiNews.links (WikiNews.processItemLinks fragment)
        = [lp ++ lit " (" ++ url ++ lit ")"; le ++ lit " (" ++ he ++ lit ")"]
        /\ WikiNews.itemFinalText fragment
           = WikiNews.cleanHtml (pre ++ lp ++ mid ++ post)
             ++ lit " [" ++ (lp ++ lit " (" ++ url ++ lit ")") ++ lit ", "
             ++ (le ++ lit " (" ++ he ++ lit ")") ++ lit "]").
Proof.
  split.
  - exact annotation_list_of_matches.
  - intros pre hp lp mid he le post Hpre Hhp Hhpne Hlp Hlpne Hmid Hhe Hhene
      Hle Hlene Hpost fragment url.
    pose proof (processItemLinks_two_anchors pre hp lp mid he le post
                  Hpre Hhp Hhpne Hlp Hlpne Hmid Hhe Hhene Hle Hlene Hpost) as E.
    fold fragment in E. unfold WikiNews.itemFinalText. rewrite E.
    split; [reflexivity|].
    cbn [WikiNews.links WikiNews.itemText join]. unfold entry.
    rewrite <- !app_assoc. reflexivity.
Qed.

Lemma item_annotation_list_witness :
  exists plainLinks externalLinks lead,
    WikiNews.links
      (WikiNews.processItemLinks
         (lit "Storm hits the " ++ anchor (lit "/wiki/Coast") (lit "coast")
          ++ lit ". " ++ externalAnchor (lit "http://news.example/1") (lit "(News)")))
    = plainLinks ++ externalLinks
    /\ NoDup plainLinks
    /\ In (lit "coast (https://en.wikipedia.org/wiki/Coast)") plainLinks
    /\ In (lit "(News) (http://news.example/1)") externalLinks
    /\ WikiNews.itemFinalText
         (lit "Storm hits the " ++ anchor (lit "/wiki/Coast") (lit "coast")
          ++ lit ". " ++ externalAnchor (lit "http://news.example/1") (lit "(News)"))
       = WikiNews.cleanHtml
           (WikiNews.itemText
              (WikiNews.processItemLinks
                 (lit "Storm hits the " ++ anchor (lit "/wiki/Coast") (lit "coast")
                  ++ lit ". "
                  ++ externalAnchor (lit "http://news.example/1") (lit "(News)"))))
         ++ lit " [" ++ join (lit ", ") (plainLinks ++ externalLinks) ++ lit "]"
    /\ trim (WikiNews.itemFinalText
               (lit "Storm hits the " ++ anchor (lit "/wiki/Coast") (lit "coast")
                ++ lit ". "
                ++ externalAnchor (lit "http://news.example/1") (lit "(News)")))
       = lead ++ lit "[" ++ join (lit ", ") (plainLinks ++ externalLinks) ++ lit "]".
Proof.
  apply (proj1 item_annotation_list
           (lit "Storm hits the " ++ anchor (lit "/wiki/Coast") (lit "coast")
            ++ lit ". " ++ externalAnchor (lit "http://news.example/1") (lit "(News)"))
           (externalAnchor (lit "http://news.example/1") (lit "(News)"))
           (anchor (lit "/wiki/Coast") (lit "coast"))
           [(2, lit "(News)"); (1, lit "http://news.example/1")]
           [(2, lit "coast"); (1, lit "/wiki/Coast")]).
  - vm_compute. left. reflexivity.
  - discriminate.
  - discriminate.
  - vm_compute. left. reflexivity.
  - discriminate.
  - discriminate.
Defined.

(** C2, as the specification words it, fails in two ways. An external
    anchor whose label and target equal those of an ordinary anchor gives
    the same "Label (url)" pair twice, since the external entries are
    appended without the check the ordinary entries get. An ordinary anchor
    with an empty target gets no entry at all: the replacer returns its
    label before any entry is built. *)
Lemma annotation_list_counterexample :
  (let fragment :=
     lit "Storm hits " ++ anchor (lit "http://news.example/1") (lit "News")
     ++ lit " " ++ externalAnchor (lit "http://news.example/1") (lit "News") in
   WikiNews.links (WikiNews.processItemLinks fragment)
   = [lit "News (http://news.example/1)"; lit "News (http://news.example/1)"]
   /\ ~ NoDup (WikiNews.links (WikiNews.processItemLinks fragment))
   /\ WikiNews.itemFinalText fragment
      = lit "Storm hits News [News (http://news.example/1), News (http://news.example/1)]")
  /\ (let fragment :=
        lit "Storm hits " ++ anchor [] (lit "coast")
        ++ lit " " ++ externalAnchor (lit "http://news.example/1") (lit "News") in
      WikiNews.links (WikiNews.processItemLinks fragment)
      = [lit "News (http://news.example/1)"]
      /\ WikiNews.itemFinalText fragment
         = lit "Storm hits coast [News (http://news.example/1)]").
Proof.
  split.
  - assert (E : WikiNews.links
                  (WikiNews.processItemLinks
                     (lit "Storm hits "
                      ++ anchor (lit "http://news.example/1") (lit "News")
                      ++ lit " "
                      ++ externalAnchor (lit "http://news.example/1") (lit "News")))
                = [lit "News (http://news.example/1)";
                   lit "News (http://news.example/1)"])
      by (vm_compute; reflexivity).
    cbv zeta. rewrite E. split; [reflexivity|split].
    + intros H. inversion H as [|x l Hnotin Hnd]; subst.
      apply Hnotin. left. reflexivity.
    + vm_compute. reflexivity.
  - cbv zeta. split; vm_compute; reflexivity.
Qed.

(** C7: an ordinary anchor whose target starts with "/" is annotated with
    the target prefixed by the origin "https://en.wikipedia.org", and an
    anchor whose target does not start with "/" keeps its target as
    written. This holds for every anchor the ordinary pass finds with a
    label, in any fragment; and for an anchor written [<a href=], the
    target between double quotes, [>], the label, [</a>], inside text
    without other tags, both renderers produce exactly that. *)
Theorem relative_target_gets_origin :
  (forall html w c,
     In (w, c) (execAll WikiNews.plainAnchorRe (withoutExternals html)) ->
     cap 2 c <> [] -> cap 1 c <> [] ->
     (startsWith (lit "/") (cap 1 c) = true ->
      In (entry (cap 2 c) (lit "https://en.wikipedia.org" ++ cap 1 c))
         (WikiNews.links (WikiNews.processItemLinks html)))
     /\ (startsWith (lit "/") (cap 1 c) = false ->
         In (entry (cap 2 c) (cap 1 c))
            (WikiNews.links (WikiNews.processItemLinks html))))
  /\ (forall pre href label post,
        forallb textChar pre = true ->
        forallb hrefChar href = true -> href <> [] ->
        forallb labelChar label = true -> label <> [] ->
        forallb textChar post = true ->
        (startsWith (lit "/") href = true ->
         WikiNews.processItemLinks (pre ++ anchor href label ++ post)
         = {| WikiNews.itemText := pre ++ label ++ post;
              WikiNews.links :=
                [label ++ lit " (" ++ lit "https://en.wikipedia.org" ++ href
                 ++ lit ")"] |}
         /\ (forallb (fun x => negb (N.eqb x 34)) label = true ->
             WikiNewsMarkdown.convertLinksToMarkdown (pre ++ anchor href label ++ post)
             = pre ++ lit "[" ++ label ++ lit "]("
               ++ (lit "https://en.wikipedia.org" ++ href) ++ lit ")" ++ post))
        /\ (startsWith (lit "/") href = false ->
            WikiNews.processItemLinks (pre ++ anchor href label ++ post)
            = {| WikiNews.itemText := pre ++ label ++ post;
                 WikiNews.links := [label ++ lit " (" ++ href ++ lit ")"] |}
            /\ (forallb (fun x => negb (N.eqb x 34)) label = true ->
                WikiNewsMarkdown.convertLinksToMarkdown
                  (pre ++ anchor href label ++ post)
                = pre ++ lit "[" ++ label ++ lit "](" ++ href ++ lit ")" ++ post))).
Proof.
  split.
  - intros html w c Hin Hc2 Hc1.
    destruct (plain_pass_links
                (tokens WikiNews.plainAnchorRe (withoutExternals html)) []
                (NoDup_nil _)) as (_ & _ & H).
    apply matches_of_In in Hin. specialize (H w c Hin Hc1 Hc2).
    rewrite processItemLinks_links.
    split; intros E; rewrite E in H; apply in_or_app; left; exact H.
  - intros pre href label post Hpre Hh Hhne Hl Hlne Hpost.
    pose proof (processItemLinks_on_anchor pre href label post
                  Hpre Hh Hhne Hl Hlne Hpost) as Hp.
    split; intros E; rewrite E in Hp; (split; [exact Hp|]); intros Hq;
      rewrite (convertLinksToMarkdown_on_anchor pre href label post
                 Hpre Hh Hl Hq Hpost), E; reflexivity.
Qed.

Lemma relative_target_gets_origin_witness :
  WikiNews.processItemLinks
    (lit "See " ++ anchor (lit "/x") (lit "the page") ++ lit " today")
  = {| WikiNews.itemText := lit "See the page today";
       WikiNews.links := [lit "the page (https://en.wikipedia.org/x)"] |}.
Proof.
  assert (Hhref : lit "/x" <> []) by discriminate.
  assert (Hlabel : lit "the page" <> []) by discriminate.
  destruct (proj2 relative_target_gets_origin
              (lit "See ") (lit "/x") (lit "the page") (lit " today")
              eq_refl eq_refl Hhref eq_refl Hlabel eq_refl) as [Hrel _].
  destruct (Hrel eq_refl) as [Hp _]. exact Hp.
Defined.

(** ** The matcher reports matches of the pattern only *)

Section Soundness.

Variable R : Type.

Lemma star_sound (g : bool) (p : charclass) (k : cont R) (s : str) (c : caps)
  (x : R) :
  star g p k s c = Some x ->
  exists u s', s = u ++ s' /\ forallb p u = true /\ k s' c = Some x.
Proof.
  revert x. induction s as [|y s IH]; intros x.
  - rewrite star_nil. intros H. exists [], []. auto.
  - destruct g; simpl.
    + destruct (p y) eqn:Ep.
      * destruct (star true p k s c) as [r|] eqn:Es.
        -- intros H. injection H as <-.
           destruct (IH r eq_refl) as (u & s' & -> & Hu & Hk).
           exists (y :: u), s'. simpl. rewrite Ep, Hu. auto.
        -- intros H. exists [], (y :: s). auto.
      * intros H. exists [], (y :: s). auto.
    + destruct (k (y :: s) c) as [r|] eqn:Ek.
      * intros H. injection H as <-. exists [], (y :: s). auto.
      * destruct (p y) eqn:Ep; [|discriminate]. intros H.
        destruct (IH x H) as (u & s' & -> & Hu & Hk).
        exists (y :: u), s'. simpl. rewrite Ep, Hu. auto.
Qed.

Lemma m_sound (r : regex) :
  forall (k : cont R) (s : str) (c : caps) (x : R),
    m r k s c = Some x ->
    exists s' c', Matches r s s' c c' /\ k s' c' = Some x.
Proof.
  induction r as [l|p|r1 IH1 r2 IH2|g p|r1 IH1|i r1 IH1]; intros k s c x; simpl.
  - destruct (stripPrefix l s) as [s'|] eqn:E; [|discriminate].
    apply stripPrefix_Some in E. subst s. intros H.
    exists s', c. split; [constructor|exact H].
  - destruct s as [|y s]; [discriminate|].
    destruct (p y) eqn:E; [|discriminate]. intros H.
    exists s, c. split; [constructor; exact E|exact H].
  - intros H. apply IH1 in H as (s1 & c1 & H1 & H).
    apply IH2 in H as (s2 & c2 & H2 & H).
    exists s2, c2. split; [econstructor; eassumption|exact H].
  - intros H. apply star_sound in H as (u & s' & -> & Hu & Hk).
    exists s', c. split; [constructor; exact Hu|exact Hk].
  - destruct (m r1 k s c) as [r|] eqn:E.
    + intros H. injection H as <-. apply IH1 in E as (s' & c' & H1 & H).
      exists s', c'. split; [apply M_Opt_some; exact H1|exact H].
    + intros H. exists s, c. split; [apply M_Opt_none|exact H].
  - intros H. apply IH1 in H as (s' & c' & H1 & H).
    exists s', ((i, firstn (length s - length s') s) :: c').
    split; [constructor; exact H1|exact H].
Qed.

End Soundness.

Lemma exec_at_sound (r : regex) (s rest : str) (c : caps) :
  exec_at r s = Some (c, rest) -> Matches r s rest [] c.
Proof.
  unfold exec_at. intros H. apply m_sound in H as (s' & c' & Hm & H).
  injection H as <- <-. exact Hm.
Qed.

(** What a pattern consumes is the front of the string. *)
Lemma Matches_front (r : regex) (s s' : str) (c c' : caps) :
  Matches r s s' c c' -> exists u, s = u ++ s'.
Proof.
  induction 1 as [l s c|p x s c Hp|r1 r2 s s1 s2 c c1 c2 _ [u1 E1] _ [u2 E2]
                 |g p u s c Hu|r s s' c c' _ IH|r s c|i r s s' c c' _ IH].
  - exists l. reflexivity.
  - exists [x]. reflexivity.
  - exists (u1 ++ u2). rewrite E1, E2, app_assoc. reflexivity.
  - exists u. reflexivity.
  - exact IH.
  - exists []. reflexivity.
  - exact IH.
Qed.

(** ** Pattern objects against the scan *)

Section SearchFacts.

Import RegExpObject.

Lemma search_none (r : regex) (s : str) :
  forall i, search r s i = None ->
  forall pre s', s = pre ++ s' -> exec_at r s' = None.
Proof.
  induction s as [|x s IH]; intros i; simpl.
  - destruct (exec_at r []) as [[c rest]|] eqn:E; [discriminate|].
    intros _ pre s' H. symmetry in H. apply app_eq_nil in H as [_ ->]. exact E.
  - destruct (exec_at r (x :: s)) as [[c rest]|] eqn:E; [discriminate|].
    intros H pre s' Hs. destruct pre as [|y pre].
    + simpl in Hs. subst s'. exact E.
    + injection Hs as _ Hs. eapply IH; eassumption.
Qed.

Lemma search_some (r : regex) (s : str) :
  forall i p c rest,
    search r s i = Some (p, c, rest) ->
    exists pre s',
      s = pre ++ s' /\ p = i + length pre
      /\ exec_at r s' = Some (c, rest)
      /\ (forall w1 x w2, pre = w1 ++ x :: w2 ->
          exec_at r (x :: w2 ++ s') = None).
Proof.
  induction s as [|x s IH]; intros i p c rest; simpl.
  - destruct (exec_at r []) as [[c' rest']|] eqn:E; [|discriminate].
    intros H. injection H as <- <- <-. exists [], []. simpl.
    repeat split; [lia|exact E|]. intros [|? ?] ? ? H; discriminate.
  - destruct (exec_at r (x :: s)) as [[c' rest']|] eqn:E.
    + intros H. injection H as <- <- <-. exists [], (x :: s). simpl.
      repeat split; [lia|exact E|]. intros [|? ?] ? ? H; discriminate.
    + intros H. apply IH in H as (pre & s' & -> & -> & He & Hn).
      exists (x :: pre), s'. simpl. repeat split; [lia|exact He|].
      intros [|y w1] z w2 Hw; simpl in Hw; injection Hw as <- Hw.
      * subst pre. exact E.
      * eapply Hn. exact Hw.
Qed.

Lemma exec_at_front (r : regex) (s rest : str) (c : caps) :
  exec_at r s = Some (c, rest) -> exists w, s = w ++ rest.
Proof. intros H. eapply Matches_front, exec_at_sound, H. Qed.

Lemma located_plain (u : str) (ts : list token) :
  forall i, located i (List.map Plain u ++ ts) = located (i + length u) ts.
Proof.
  induction u as [|x u IH]; intros i; simpl.
  - rewrite Nat.add_0_r. reflexivity.
  - rewrite IH. f_equal. lia.
Qed.

Lemma located_match (i : nat) (w : str) (c : caps) (ts : list token) :
  located i (Match w c :: ts)
  = {| whole := w; groups := c; index := i |} :: located (i + length w) ts.
Proof. reflexivity. Qed.

Lemma substring_middle (a w b : str) :
  substring (length a) (length a + length w) (a ++ w ++ b) = w.
Proof.
  unfold substring.
  replace (length a + length w - length a) with (length w) by lia.
  rewrite skipn_app, skipn_all, Nat.sub_diag. simpl.
  rewrite firstn_app, Nat.sub_diag, firstn_all. simpl. apply app_nil_r.
Qed.

Lemma skipn_length_app (a b : str) : skipn (length a) (a ++ b) = b.
Proof. rewrite skipn_app, skipn_all, Nat.sub_diag. reflexivity. Qed.

(** One call of [exec] at a position of the string. *)
Lemma exec_at_position (r : regex) (pre u : str) :
  exec {| source := r; lastIndex := length pre |} (pre ++ u)
  = match search r u (length pre) with
    | None => (None, literal r)
    | Some (i, c, rest) =>
        let e := length (pre ++ u) - length rest in
        (Some {| whole := substring i e (pre ++ u); groups := c; index := i |},
         {| source := r; lastIndex := e |})
    end.
Proof.
  unfold exec. simpl.
  replace (length (pre ++ u) <? length pre) with false
    by (symmetry; apply Nat.ltb_ge; rewrite length_app; lia).
  rewrite skipn_length_app. reflexivity.
Qed.

(** [exec] beyond the end of the string. *)
Lemma exec_past_end (r : regex) (input : str) :
  exec {| source := r; lastIndex := S (length input) |} input
  = (None, literal r).
Proof.
  unfold exec. simpl.
  replace (length input <? S (length input)) with true
    by (symmetry; apply Nat.ltb_lt; lia).
  reflexivity.
Qed.

(** The loop of [match] and [replace] sees the matches of the scan, each
    at its position, and leaves [lastIndex] at 0. *)
Lemma collect_tokens (r : regex) (n : nat) :
  forall (u pre : str) (fuel : nat) (results : list MatchResult),
    length u < n -> length u + 2 <= fuel ->
    collect fuel {| source := r; lastIndex := length pre |} (pre ++ u) results
    = Some (results ++ located (length pre) (tokens_go r u 0), literal r).
Proof.
  induction n as [|n IH]; intros u pre fuel results Hn Hf; [lia|].
  destruct fuel as [|fuel]; [lia|]. simpl. rewrite exec_at_position.
  destruct (search r u (length pre)) as [[[p c] rest]|] eqn:E.
  - apply search_some in E as (pre2 & s' & -> & -> & He & Hplain).
    rewrite (@tokens_go_plain_run r pre2 s' Hplain), located_plain.
    apply exec_at_front in He as Hw. destruct Hw as [w ->].
    cbv zeta.
    replace (length (pre ++ pre2 ++ w ++ rest) - length rest)
      with (length (pre ++ pre2) + length w)
      by (repeat rewrite length_app; lia).
    replace (length pre + length pre2) with (length (pre ++ pre2))
      by (rewrite length_app; reflexivity).
    replace (pre ++ pre2 ++ w ++ rest) with ((pre ++ pre2) ++ w ++ rest)
      by (rewrite <- app_assoc; reflexivity).
    rewrite substring_middle.
    destruct w as [|y w].
    + (* an empty match *)
      change ([] ++ rest) with rest in *.
      simpl truthy. cbv iota. unfold setLastIndex.
      simpl source. simpl lastIndex. rewrite Nat.add_0_r.
      destruct rest as [|x rest].
      * simpl tokens_go. rewrite He. simpl located.
        destruct fuel as [|fuel];
          [repeat rewrite length_app in Hf; simpl in Hf; lia|].
        simpl collect. rewrite app_nil_r. rewrite exec_past_end.
        reflexivity.
      * rewrite tokens_go_cons, He.
        replace (length (x :: rest) - length (x :: rest)) with 0 by lia.
        simpl located. rewrite Nat.add_0_r.
        replace ((pre ++ pre2) ++ x :: rest)
          with (((pre ++ pre2) ++ [x]) ++ rest)
          by (rewrite <- app_assoc; reflexivity).
        replace (S (length (pre ++ pre2)))
          with (length ((pre ++ pre2) ++ [x]))
          by (rewrite length_app; simpl; lia).
        rewrite IH; [rewrite <- app_assoc; reflexivity| |];
          repeat rewrite length_app in *; simpl in *; lia.
    + (* a match that takes characters *)
      rewrite (@tokens_go_match r (y :: w) rest c) by (congruence || exact He).
      simpl truthy. cbv iota. unfold setLastIndex. simpl source.
      simpl lastIndex. rewrite located_match.
      replace ((pre ++ pre2) ++ (y :: w) ++ rest)
        with (((pre ++ pre2) ++ y :: w) ++ rest)
        by (rewrite <- app_assoc; reflexivity).
      replace (length (pre ++ pre2) + length (y :: w))
        with (length ((pre ++ pre2) ++ y :: w))
        by (rewrite length_app; reflexivity).
      rewrite IH; [rewrite <- app_assoc; reflexivity| |];
        repeat rewrite length_app in *; simpl in *; lia.
  - rewrite (@tokens_go_no_exec r u (search_none r u _ E)),
      <- (app_nil_r (List.map Plain u)), located_plain.
    simpl. rewrite app_nil_r. reflexivity.
Qed.

(** [match] and [replace] do not read the [lastIndex] they find. *)
Lemma allResults_tokens (re : t) (input : str) :
  allResults re input
  = Some (located 0 (tokens (source re) input), literal (source re)).
Proof.
  unfold allResults, setLastIndex, tokens.
  apply (collect_tokens (source re) (S (length input)) input [] _ []); lia.
Qed.

Lemma located_matches (ts : list token) :
  forall i,
    List.map (fun m => (whole m, groups m)) (located i ts) = matches_of ts.
Proof.
  induction ts as [|[x|w c] ts IH]; intros i; simpl.
  - reflexivity.
  - apply IH.
  - f_equal. apply IH.
Qed.

(** The scan goes over the whole string. *)
Lemma textOf_tokens_go (r : regex) (s : str) :
  forall skip, skip <= length s -> textOf (tokens_go r s skip) = skipn skip s.
Proof.
  induction s as [|x s IH]; intros skip Hs.
  - simpl in Hs. assert (skip = 0) by lia. subst skip. simpl.
    destruct (exec_at r []) as [[c rest]|]; reflexivity.
  - rewrite tokens_go_cons. destruct skip as [|n].
    + destruct (exec_at r (x :: s)) as [[c rest]|] eqn:E.
      * destruct (length (x :: s) - length rest) as [|k] eqn:El.
        -- simpl. rewrite IH by lia. reflexivity.
        -- assert (Hk : k <= length s)
             by (change (length (x :: s)) with (S (length s)) in El; lia).
           change (textOf (Match (firstn (S k) (x :: s)) c :: tokens_go r s k))
             with (firstn (S k) (x :: s) ++ textOf (tokens_go r s k)).
           rewrite IH by exact Hk. simpl. f_equal. apply firstn_skipn.
      * simpl. rewrite IH by lia. reflexivity.
    + simpl in Hs. simpl. apply IH. lia.
Qed.

Lemma textOf_tokens (r : regex) (s : str) : textOf (tokens r s) = s.
Proof. unfold tokens. rewrite textOf_tokens_go by lia. reflexivity. Qed.

Lemma substring_snoc (a b : str) (x : char) (i : nat) :
  i <= length a ->
  substring i (S (length a)) (a ++ x :: b)
  = substring i (length a) (a ++ x :: b) ++ [x].
Proof.
  intros Hi. unfold substring.
  rewrite skipn_app. replace (i - length a) with 0 by lia.
  change (skipn 0 (x :: b)) with (x :: b).
  assert (Hl : length (skipn i a) = length a - i) by apply length_skipn.
  rewrite !firstn_app, Hl.
  replace (length a - i - (length a - i)) with 0 by lia.
  replace (S (length a) - i - (length a - i)) with 1 by lia.
  change (firstn 0 (x :: b)) with (@nil char).
  change (firstn 1 (x :: b)) with [x].
  rewrite app_nil_r, !firstn_all2 by lia. reflexivity.
Qed.

Lemma substring_to_end (a : str) (i : nat) :
  substring i (length a) a = substringFrom i a.
Proof.
  unfold substring, substringFrom. apply firstn_all2.
  rewrite length_skipn. lia.
Qed.

(** The second loop of [replace] writes what the scan writes. *)
Lemma substitute_tokens (St : Type) (f : St -> str -> caps -> St * str)
  (ts : list token) :
  forall (pre : str) (st : St) (acc : str) (next : nat),
    next <= length pre ->
    substitute St f (pre ++ textOf ts) (located (length pre) ts) st acc next
    = let (st', out) := replace_tokens f ts st in
      (st', acc ++ substring next (length pre) (pre ++ textOf ts) ++ out).
Proof.
  induction ts as [|[x|w c] ts IH]; intros pre st acc next Hn.
  - simpl. rewrite !app_nil_r, substring_to_end. reflexivity.
  - simpl located. simpl textOf.
    replace (pre ++ x :: textOf ts) with ((pre ++ [x]) ++ textOf ts)
      by (rewrite <- app_assoc; reflexivity).
    replace (S (length pre)) with (length (pre ++ [x]))
      by (rewrite length_app; simpl; lia).
    rewrite IH by (rewrite length_app; lia).
    simpl replace_tokens. destruct (replace_tokens f ts st) as [st' out].
    f_equal. f_equal. rewrite <- app_assoc. simpl.
    rewrite length_app. simpl. rewrite Nat.add_1_r.
    rewrite substring_snoc by exact Hn. rewrite <- app_assoc. reflexivity.
  - rewrite located_match. simpl textOf. simpl substitute.
    simpl replace_tokens. destruct (f st w c) as [st1 rep].
    replace (next <=? length pre) with true
      by (symmetry; apply Nat.leb_le; exact Hn).
    replace (pre ++ w ++ textOf ts) with ((pre ++ w) ++ textOf ts)
      by (rewrite <- app_assoc; reflexivity).
    replace (length pre + length w) with (length (pre ++ w))
      by (rewrite length_app; reflexivity).
    rewrite IH by lia.
    destruct (replace_tokens f ts st1) as [st2 out].
    f_equal.
    replace (substring (length (pre ++ w)) (length (pre ++ w))
               ((pre ++ w) ++ textOf ts)) with (@nil char)
      by (unfold substring; rewrite Nat.sub_diag; reflexivity).
    simpl. rewrite <- !app_assoc. reflexivity.
Qed.

(** [replace] with a replacer, on a pattern object, is the replacement of
    the scan, whatever [lastIndex] the object had. *)
Lemma stringReplace_scan (St : Type) (re : t)
  (f : St -> str -> caps -> St * str) (input : str) (st : St) :
  stringReplace St re f input st
  = Some (RegExp.replaceWith (source re) f input st, literal (source re)).
Proof.
  unfold stringReplace. rewrite allResults_tokens.
  unfold RegExp.replaceWith.
  pose proof (substitute_tokens St f (tokens (source re) input) [] st [] 0
                (Nat.le_refl 0)) as H.
  simpl in H. rewrite textOf_tokens in H. rewrite H.
  destruct (replace_tokens f (tokens (source re) input) st) as [st' out].
  reflexivity.
Qed.

(** [match] on a pattern object is the list of the matches of the scan. *)
Lemma stringMatch_scan (re : t) (input : str) :
  stringMatch re input
  = Some (RegExp.matchAll (source re) input, literal (source re)).
Proof.
  unfold stringMatch. rewrite allResults_tokens.
  unfold RegExp.matchAll, execAll.
  rewrite <- (located_matches (tokens (source re) input) 0).
  destruct (located 0 (tokens (source re) input)) as [|m ms]; [reflexivity|].
  simpl. rewrite map_map. reflexivity.
Qed.

End SearchFacts.

(** ** The methods on the instance against the functions of their text *)

Section StatefulFacts.

Import RegExpObject.

Implicit Type this : ServiceWikiNews.State.

Lemma replaceWith_run (St : Type) (r : regex)
  (f : St -> str -> caps -> St * str) (s : str) (st : St) this :
  Stateful.replaceWith St r f s st this
  = Some (RegExp.replaceWith r f s st, this).
Proof.
  unfold Stateful.replaceWith, Stateful.onLiteral.
  rewrite stringReplace_scan. reflexivity.
Qed.

Lemma replace_run (r : regex) (f : caps -> str) (s : str) this :
  Stateful.replace r f s this = Some (RegExp.replace r f s, this).
Proof.
  unfold Stateful.replace, Stateful.bindM. rewrite replaceWith_run.
  reflexivity.
Qed.

Lemma matchAll_run (r : regex) (s : str) this :
  Stateful.matchAll r s this = Some (RegExp.matchAll r s, this).
Proof.
  unfold Stateful.matchAll, Stateful.onLiteral.
  rewrite stringMatch_scan. reflexivity.
Qed.

Lemma cleanHtml_run (html : str) this :
  Stateful.cleanHtml html this = Some (WikiNews.cleanHtml html, this).
Proof.
  unfold Stateful.cleanHtml, Stateful.replaceAll, Stateful.bindM.
  repeat (rewrite replace_run; cbv beta iota).
  reflexivity.
Qed.

Lemma processItemLinks_run (html : str) this :
  Stateful.processItemLinks html this
  = Some (WikiNews.processItemLinks html, this).
Proof.
  unfold Stateful.processItemLinks, Stateful.bindM.
  rewrite replaceWith_run. cbv beta iota.
  rewrite replaceWith_run. cbv beta iota.
  unfold WikiNews.processItemLinks, Stateful.ret.
  destruct (RegExp.replaceWith WikiNews.externalAnchorRe
              WikiNews.externalReplacer html []) as [externalLinks without].
  cbn [fst snd].
  destruct (RegExp.replaceWith WikiNews.plainAnchorRe WikiNews.plainReplacer
              without []) as [links processed].
  reflexivity.
Qed.

Lemma pushListItem_run (items : list NewsItem) (w : str) (c : caps)
  (i : nat) this :
  Stateful.pushListItem items {| whole := w; groups := c; index := i |} this
  = Some (WikiNews.pushListItem items (w, c), this).
Proof.
  unfold Stateful.pushListItem, WikiNews.pushListItem.
  cbn [groups snd]. cbv zeta.
  destruct (truthy (cap 1 c)); [|reflexivity].
  destruct (negb (truthy (trim (cap 1 c)))); [reflexivity|].
  unfold Stateful.bindM. rewrite processItemLinks_run. cbv beta iota.
  rewrite cleanHtml_run. cbv beta iota.
  unfold WikiNews.itemFinalText.
  destruct (WikiNews.links (WikiNews.processItemLinks (trim (cap 1 c))));
    cbv zeta;
    match goal with |- context [truthy ?x] => destruct (truthy x) end;
    reflexivity.
Qed.

(** The item pattern matches no empty string. *)
Lemma listItemRegex_neverEmpty : neverEmpty WikiNews.listItemRegex.
Proof.
  intros s c rest H. apply exec_at_sound in H.
  unfold WikiNews.listItemRegex in H. simpl in H.
  inversion H as [| |r1 r2 s0 s1 s2 c0 c1 c2 H1 H2| | | |]; subst.
  inversion H1; subst.
  apply Matches_front in H2 as [u ->].
  rewrite !length_app. simpl. lia.
Qed.

(** The [while] loop over [exec] sees the matches of the scan, in order,
    when the pattern matches no empty string; it ends within one round
    for each character and one more. *)
Lemma whileExec_run (n : nat) :
  forall (u pre : str) (fuel : nat) (items : list NewsItem) this,
    length u < n -> length u < fuel ->
    Stateful.whileExec fuel
      {| source := WikiNews.listItemRegex; lastIndex := length pre |}
      (pre ++ u) items this
    = Some ((fold_left WikiNews.pushListItem
               (matches_of (tokens_go WikiNews.listItemRegex u 0)) items,
             literal WikiNews.listItemRegex), this).
Proof.
  induction n as [|n IH]; intros u pre fuel items this Hn Hf; [lia|].
  destruct fuel as [|fuel]; [lia|]. simpl Stateful.whileExec.
  rewrite exec_at_position.
  destruct (search WikiNews.listItemRegex u (length pre))
    as [[[p c] rest]|] eqn:E.
  - apply search_some in E as (pre2 & s' & -> & -> & He & Hplain).
    rewrite (@tokens_go_plain_run _ pre2 s' Hplain).
    apply exec_at_front in He as Hw. destruct Hw as [w ->].
    assert (Hw : w <> []).
    { intros ->. apply listItemRegex_neverEmpty in He. simpl in He. lia. }
    rewrite (@tokens_go_match _ w rest c Hw He).
    cbv zeta.
    replace (length (pre ++ pre2 ++ w ++ rest) - length rest)
      with (length (pre ++ pre2) + length w)
      by (repeat rewrite length_app; lia).
    replace (length pre + length pre2) with (length (pre ++ pre2))
      by (rewrite length_app; reflexivity).
    replace (pre ++ pre2 ++ w ++ rest) with ((pre ++ pre2) ++ w ++ rest)
      by (rewrite <- app_assoc; reflexivity).
    rewrite substring_middle.
    unfold Stateful.bindM. rewrite pushListItem_run. cbv beta iota.
    unfold setLastIndex. simpl source. simpl lastIndex.
    replace ((pre ++ pre2) ++ w ++ rest) with (((pre ++ pre2) ++ w) ++ rest)
      by (rewrite <- app_assoc; reflexivity).
    replace (length (pre ++ pre2) + length w)
      with (length ((pre ++ pre2) ++ w))
      by (rewrite length_app; reflexivity).
    assert (Hl : 0 < length w) by (destruct w; [congruence|simpl; lia]).
    rewrite IH by (repeat rewrite length_app in *; lia).
    f_equal. f_equal. f_equal.
    assert (Hm : forall (a : str) (ts : list token),
               matches_of (List.map Plain a ++ ts) = matches_of ts)
      by (induction a; simpl; auto).
    rewrite Hm. reflexivity.
  - rewrite (@tokens_go_no_exec _ u (search_none _ u _ E)).
    assert (Hm : forall a : str, matches_of (List.map Plain a) = [])
      by (induction a; simpl; auto).
    rewrite Hm. reflexivity.
Qed.

Lemma extractCategoryItems_run (fuel : nat) (sectionContent categoryTitle : str)
  this :
  length sectionContent < fuel ->
  Stateful.extractCategoryItems fuel sectionContent categoryTitle this
  = Some (WikiNews.extractCategoryItems sectionContent categoryTitle, this).
Proof.
  intros Hf.
  unfold Stateful.extractCategoryItems, Stateful.extractCategoryItems_body,
    Stateful.bindM.
  pose proof (whileExec_run (S (length sectionContent)) sectionContent []
                fuel [] this (Nat.lt_succ_diag_r _) Hf) as H.
  simpl in H. unfold literal. rewrite H. cbv beta iota zeta. cbn [fst].
  unfold WikiNews.extractCategoryItems, WikiNews.extractCategoryItems_body,
    execAll, tokens.
  destruct (fold_left WikiNews.pushListItem
              (matches_of (tokens_go WikiNews.listItemRegex sectionContent 0))
              []) as [|item items].
  - cbv beta iota. rewrite cleanHtml_run. cbv beta iota.
    destruct (truthy (trim (WikiNews.cleanHtml sectionContent))); reflexivity.
  - reflexivity.
Qed.

Lemma split_piece_length (r : regex) (s p : str) :
  In p (split r s) -> length p <= length s.
Proof.
  assert (H : forall ts piece,
             In p (split_go ts piece) ->
             length p <= length piece + length (textOf ts)).
  { induction ts as [|[x|w c] ts IH]; intros piece; simpl.
    - intros [<-|[]]. rewrite length_rev. lia.
    - intros Hp. apply IH in Hp. simpl in Hp. lia.
    - intros [<-|Hp].
      + rewrite length_rev. lia.
      + apply IH in Hp. simpl in Hp. rewrite length_app. lia. }
  unfold split. intros Hp. apply H in Hp.
  rewrite textOf_tokens in Hp. simpl in Hp. exact Hp.
Qed.

Lemma occurs_length (p s : str) : occurs p s -> length p <= length s.
Proof. intros (pre & post & ->). rewrite !length_app. lia. Qed.

Lemma matchAll_length (r : regex) (s d : str) (l : list str) :
  RegExp.matchAll r s = Some l -> In d l -> length d <= length s.
Proof.
  unfold RegExp.matchAll. intros H Hd.
  assert (Hl : l = List.map fst (execAll r s))
    by (destruct (execAll r s); [discriminate|injection H as <-; reflexivity]).
  subst l. apply in_map_iff in Hd as ([w c] & <- & Hin).
  apply occurs_length. eapply execAll_occurs, Hin.
Qed.

Lemma pushSection_run (fuel : nat) (categories : list NewsCategory)
  (section : str) this :
  length section < fuel ->
  Stateful.pushSection fuel categories section this
  = Some (WikiNews.pushSection categories section, this).
Proof.
  intros Hf. unfold Stateful.pushSection, WikiNews.pushSection.
  destruct (indexOf (lit "</b>") section) as [titleEndIndex|]; [|reflexivity].
  destruct (indexOf (lit "</p>") section) as [i|]; [|reflexivity].
  cbv zeta. unfold Stateful.bindM.
  rewrite extractCategoryItems_run
    by (unfold substringFrom; rewrite length_skipn; lia).
  cbv beta iota.
  destruct (WikiNews.extractCategoryItems _ _); reflexivity.
Qed.

Lemma forSections_run (fuel : nat) (sections : list str) :
  forall (categories : list NewsCategory) this,
    Forall (fun s => length s < fuel) sections ->
    Stateful.forSections fuel sections categories this
    = Some (fold_left WikiNews.pushSection sections categories, this).
Proof.
  induction sections as [|section sections IH]; intros categories this Hf.
  - reflexivity.
  - inversion Hf as [|? ? H1 H2]; subst. simpl. unfold Stateful.bindM.
    rewrite pushSection_run by exact H1. cbv beta iota. apply IH, H2.
Qed.

Lemma collectCategories_run (fuel : nat) (categorySections : list str) this :
  Forall (fun s => length s < fuel) categorySections ->
  Stateful.collectCategories fuel categorySections this
  = Some (WikiNews.collectCategories categorySections, this).
Proof.
  intros Hf. destruct categorySections as [|first rest]; [reflexivity|].
  inversion Hf as [|? ? H1 H2]; subst.
  unfold Stateful.collectCategories, WikiNews.collectCategories.
  unfold Stateful.bindM at 1.
  destruct (truthy (trim first)).
  - unfold Stateful.bindM. rewrite extractCategoryItems_run by exact H1.
    cbv beta iota.
    destruct (WikiNews.extractCategoryItems first (lit "Uncategorized"));
      unfold Stateful.ret; apply forSections_run, H2.
  - unfold Stateful.ret. apply forSections_run, H2.
Qed.

(** The method on the instance returns what the function of the text
    returns and leaves the private fields as they were, once the fuel
    exceeds the length of the page. *)
Lemma extractNewsContent_run (fuel : nat) (html : str) this :
  length html < fuel ->
  Stateful.extractNewsContent fuel html this
  = Some (WikiNews.extractNewsContent html, this).
Proof.
  intros Hf.
  unfold Stateful.extractNewsContent, Stateful.extractNewsContent_body,
    WikiNews.extractNewsContent, WikiNews.extractNewsContent_body,
    Stateful.bindM.
  rewrite matchAll_run. cbv beta iota.
  destruct (RegExp.matchAll WikiNews.contentDivRe html)
    as [[|firstContentDiv rest]|] eqn:E; try reflexivity.
  cbv zeta.
  destruct (Nat.leb (length (split WikiNews.headingRe firstContentDiv)) 1);
    [reflexivity|].
  rewrite collectCategories_run.
  - cbv beta iota.
    destruct (WikiNews.collectCategories
                (split WikiNews.headingRe firstContentDiv)); reflexivity.
  - apply Forall_forall. intros p Hp. apply split_piece_length in Hp.
    assert (length firstContentDiv <= length html)
      by (eapply matchAll_length; [exact E|left; reflexivity]).
    lia.
Qed.

End StatefulFacts.

(** ** Two calls of the extractor *)

Lemma sameOutput_refl (a : list NewsCategory) : sameOutput a a.
Proof.
  unfold sameOutput. induction a as [|c cs IH]; constructor.
  - split; [reflexivity|]. unfold sameItems.
    induction (items c); constructor; auto.
  - exact IH.
Qed.

(** [exec] reads [lastIndex]: a pattern object left in the middle of a
    string misses the item a new object finds. *)
Example exec_reads_lastIndex :
  fst (RegExpObject.exec
         {| RegExpObject.source := WikiNews.listItemRegex;
            RegExpObject.lastIndex := 1 |} (lit "<li>a</li>")) = None
  /\ fst (RegExpObject.exec (RegExpObject.literal WikiNews.listItemRegex)
            (lit "<li>a</li>"))
     = Some {| RegExpObject.whole := lit "<li>a</li>";
               RegExpObject.groups := [(1, lit "a")];
               RegExpObject.index := 0 |}.
Proof. split; vm_compute; reflexivity. Qed.

(** The methods run: on the page above, two calls in a row on a new
    instance return the two categories, in the order of the page, and
    leave the instance as it was. *)
Example twice_on_twoCategoryPage :
  Stateful.twice 400 twoCategoryPage ServiceWikiNews.init
  = Some ((twoCategories, twoCategories), ServiceWikiNews.init).
Proof. vm_compute. reflexivity. Qed.

(** C9: the extractor is deterministic. Run as methods on the instance,
    with pattern objects that carry [lastIndex] and are created where the
    source writes the literal, two calls of [#extractNewsContent] on the
    same page both return, whatever the private fields hold and whatever
    fuel above the length of the page the loops are given; each leaves
    the private fields as they were; and the two outputs are structurally
    identical: the same categories with the same titles and the same item
    texts in the same order. The same holds of two calls made one after
    the other on one instance. *)
Theorem extractNewsContent_deterministic (html : str) (fuel1 fuel2 : nat)
  (this1 this2 : ServiceWikiNews.State) :
  length html < fuel1 -> length html < fuel2 ->
  (exists out1 out2,
     Stateful.extractNewsContent fuel1 html this1 = Some (out1, this1)
     /\ Stateful.extractNewsContent fuel2 html this2 = Some (out2, this2)
     /\ sameOutput out1 out2)
  /\ (exists first second,
        Stateful.twice fuel1 html this1 = Some ((first, second), this1)
        /\ sameOutput first second).
Proof.
  intros H1 H2. split.
  - exists (WikiNews.extractNewsContent html), (WikiNews.extractNewsContent html).
    repeat split; try apply extractNewsContent_run; try assumption.
    apply sameOutput_refl.
  - exists (WikiNews.extractNewsContent html), (WikiNews.extractNewsContent html).
    split; [|apply sameOutput_refl].
    unfold Stateful.twice, Stateful.bindM.
    rewrite !extractNewsContent_run by assumption. reflexivity.
Qed.

Lemma extractNewsContent_deterministic_witness :
  length twoCategoryPage < 400 /\ length twoCategoryPage < 500
  /\ (exists out1 out2,
        Stateful.extractNewsContent 400 twoCategoryPage ServiceWikiNews.init
        = Some (out1, ServiceWikiNews.init)
        /\ Stateful.extractNewsContent 500 twoCategoryPage servedInstance
           = Some (out2, servedInstance)
        /\ sameOutput out1 out2)
  /\ (exists first second,
        Stateful.twice 400 twoCategoryPage ServiceWikiNews.init
        = Some ((first, second), ServiceWikiNews.init)
        /\ sameOutput first second).
Proof.
  assert (H1 : length twoCategoryPage < 400) by (vm_compute; lia).
  assert (H2 : length twoCategoryPage < 500) by (vm_compute; lia).
  split; [exact H1|]. split; [exact H2|].
  apply (extractNewsContent_deterministic twoCategoryPage 400 500
           ServiceWikiNews.init servedInstance H1 H2).
Defined.

(** ** Trimming *)

Section TrimFacts.

Lemma trimStart_nonspace (x : char) (t : str) :
  isSpace x = false -> trimStart (x :: t) = x :: t.
Proof. intros H. simpl. rewrite H. reflexivity. Qed.

Lemma trimStart_cases (s : str) :
  trimStart s = []
  \/ exists x t, trimStart s = x :: t /\ isSpace x = false.
Proof.
  induction s as [|x s IH]; [left; reflexivity|].
  simpl. destruct (isSpace x) eqn:E; [exact IH|].
  right. exists x, s. split; [reflexivity|exact E].
Qed.

Lemma trimStart_idem (s : str) : trimStart (trimStart s) = trimStart s.
Proof.
  destruct (trimStart_cases s) as [E|(x & t & E & Hx)]; rewrite E;
    [reflexivity|apply trimStart_nonspace, Hx].
Qed.

Lemma trimStart_snoc (a : str) (x : char) :
  isSpace x = false -> exists a', trimStart (a ++ [x]) = a' ++ [x].
Proof.
  intros H. induction a as [|y a IH].
  - exists []. simpl. rewrite H. reflexivity.
  - simpl. destruct (isSpace y); [exact IH|]. exists (y :: a). reflexivity.
Qed.

Lemma trimEnd_keeps_head (x : char) (t : str) :
  isSpace x = false -> exists t', trimEnd (x :: t) = x :: t'.
Proof.
  intros H. unfold trimEnd. simpl rev.
  destruct (trimStart_snoc (rev t) x H) as [a' E]. rewrite E.
  exists (rev a'). rewrite rev_app_distr. reflexivity.
Qed.

Lemma trimEnd_idem (s : str) : trimEnd (trimEnd s) = trimEnd s.
Proof.
  unfold trimEnd. rewrite rev_involutive, trimStart_idem. reflexivity.
Qed.

Lemma trimEnd_nil : trimEnd [] = [].
Proof. reflexivity. Qed.

(** [trim] does nothing to a string it has produced. *)
Lemma trim_idem (s : str) : trim (trim s) = trim s.
Proof.
  unfold trim.
  destruct (trimStart_cases s) as [E|(x & t & E & Hx)]; rewrite E.
  - reflexivity.
  - destruct (trimEnd_keeps_head x t Hx) as [t' Et]. rewrite Et.
    rewrite trimStart_nonspace by exact Hx. rewrite <- Et. apply trimEnd_idem.
Qed.

Lemma trimStart_In (x : char) (s : str) : In x (trimStart s) -> In x s.
Proof.
  induction s as [|y s IH]; simpl; [tauto|].
  destruct (isSpace y); [intros H; right; apply IH, H|trivial].
Qed.

Lemma trimEnd_In (x : char) (s : str) : In x (trimEnd s) -> In x s.
Proof.
  unfold trimEnd. intros H. apply in_rev in H. apply trimStart_In in H.
  apply in_rev, H.
Qed.

Lemma trim_In (x : char) (s : str) : In x (trim s) -> In x s.
Proof. unfold trim. intros H. apply trimStart_In, trimEnd_In, H. Qed.

Lemma itemTextOk_trim (s : str) : truthy (trim s) = true -> itemTextOk (trim s).
Proof.
  intros H. split; [|apply trim_idem]. destruct (trim s); [discriminate|congruence].
Qed.

End TrimFacts.

(** ** Items and categories are never empty *)

Section ItemInvariants.

Import WikiNews.

Lemma pushListItem_ok (items : list NewsItem) (mt : str * caps) :
  Forall (fun i => itemTextOk (text i)) items ->
  Forall (fun i => itemTextOk (text i)) (pushListItem items mt).
Proof.
  intros H. unfold pushListItem.
  destruct (truthy (cap 1 (snd mt))); [|exact H].
  destruct (negb (truthy (trim (cap 1 (snd mt))))); [exact H|].
  destruct (truthy (trim (itemFinalText (trim (cap 1 (snd mt)))))) eqn:E;
    [|exact H].
  apply Forall_app. split; [exact H|].
  constructor; [|constructor]. apply itemTextOk_trim, E.
Qed.

Lemma fold_pushListItem_ok (ms : list (str * caps)) (items : list NewsItem) :
  Forall (fun i => itemTextOk (text i)) items ->
  Forall (fun i => itemTextOk (text i)) (fold_left pushListItem ms items).
Proof.
  revert items. induction ms as [|mt ms IH]; intros items H; [exact H|].
  simpl. apply IH, pushListItem_ok, H.
Qed.

End ItemInvariants.

(** Every item that [#extractCategoryItems] returns has a text that is
    not empty and has no white space at either end, whatever the section
    content: through the list-item loop and through the whole-section
    fallback alike. *)
Lemma extractCategoryItems_ok (sectionContent categoryTitle : str) :
  Forall (fun i => itemTextOk (text i))
    (WikiNews.extractCategoryItems sectionContent categoryTitle).
Proof.
  unfold WikiNews.extractCategoryItems, WikiNews.extractCategoryItems_body.
  pose proof (fold_pushListItem_ok
                (execAll WikiNews.listItemRegex sectionContent) []
                (Forall_nil _)) as H.
  destruct (fold_left WikiNews.pushListItem
              (execAll WikiNews.listItemRegex sectionContent) []) as [|i rest].
  - destruct (truthy (trim (WikiNews.cleanHtml sectionContent))) eqn:E; simpl.
    + constructor; [|constructor]. apply itemTextOk_trim, E.
    + constructor.
  - exact H.
Qed.

Section CategoryInvariants.

Import WikiNews.

Lemma pushSection_ok (categories : list NewsCategory) (section : str) :
  Forall categoryOk categories -> Forall categoryOk (pushSection categories section).
Proof.
  intros H. unfold pushSection.
  destruct (indexOf (lit "</b>") section) as [i|]; [|exact H].
  destruct (indexOf (lit "</p>") section) as [j|]; [|exact H].
  pose proof (extractCategoryItems_ok
                (substringFrom (j + 4) section)
                (trim (substring 0 i section))) as Hi.
  destruct (extractCategoryItems (substringFrom (j + 4) section)
              (trim (substring 0 i section))) as [|it its]; [exact H|].
  apply Forall_app. split; [exact H|]. constructor; [|constructor].
  split; [discriminate|exact Hi].
Qed.

Lemma fold_pushSection_ok (sections : list str) (categories : list NewsCategory) :
  Forall categoryOk categories ->
  Forall categoryOk (fold_left pushSection sections categories).
Proof.
  revert categories. induction sections as [|s ss IH]; intros cs H; [exact H|].
  simpl. apply IH, pushSection_ok, H.
Qed.

Lemma collectCategories_ok (sections : list str) :
  Forall categoryOk (collectCategories sections).
Proof.
  destruct sections as [|first rest]; [constructor|].
  unfold collectCategories. apply fold_pushSection_ok.
  destruct (truthy (trim first)); [|constructor].
  pose proof (extractCategoryItems_ok first (lit "Uncategorized")) as Hi.
  destruct (extractCategoryItems first (lit "Uncategorized")); [constructor|].
  constructor; [|constructor]. split; [discriminate|exact Hi].
Qed.

Lemma synthetic_ok :
  Forall categoryOk errorCategory /\ Forall categoryOk noCategories
  /\ Forall categoryOk noItems.
Proof.
  repeat split; constructor; try constructor; try discriminate;
    simpl; repeat constructor; try discriminate.
Qed.

End CategoryInvariants.

(** Every category that [#extractNewsContent] returns holds at least
    one item, and every item text is non-empty and trimmed: a category
    whose section gives no item is dropped, and the synthetic categories
    carry one message each. *)
Lemma extractNewsContent_ok (html : str) :
  Forall categoryOk (WikiNews.extractNewsContent html).
Proof.
  unfold WikiNews.extractNewsContent.
  destruct synthetic_ok as (He & Hn & Hi).
  destruct (extractNewsContent_body_cases html)
    as [E|[E|[E|(div & rest & _ & _ & E)]]]; rewrite E; simpl;
    try assumption.
  apply collectCategories_ok.
Qed.

(** ** The matches of a scan *)

(** Every match of a scan is a match of the pattern at some position, and
    its text is what the pattern consumed there. *)
Lemma tokens_go_match_sound (r : regex) (s : str) :
  forall skip w c,
    In (Match w c) (tokens_go r s skip) ->
    exists rest, Matches r (w ++ rest) rest [] c /\ occurs (w ++ rest) s.
Proof.
  assert (Hcut : forall s' rest c,
             exec_at r s' = Some (c, rest) ->
             Matches r (firstn (length s' - length rest) s' ++ rest) rest [] c
             /\ firstn (length s' - length rest) s' ++ rest = s').
  { intros s' rest c E. apply exec_at_sound in E.
    destruct (Matches_front _ _ _ _ _ E) as [u Hu]. subst s'.
    rewrite firstn_app_length. split; [exact E|reflexivity]. }
  induction s as [|x s IH]; intros skip w c.
  - simpl. destruct skip; [|intros []].
    destruct (exec_at r []) as [[c' rest]|] eqn:E; [|intros []].
    intros [H|[]]. injection H as <- <-.
    destruct (Hcut _ _ _ E) as [Hm He].
    assert (rest = []).
    { apply exec_at_sound, Matches_front in E as [u Hu].
      symmetry in Hu. apply app_eq_nil in Hu. tauto. }
    subst rest. exists []. split; [exact Hm|apply occurs_refl].
  - rewrite tokens_go_cons. destruct skip as [|n].
    + destruct (exec_at r (x :: s)) as [[c' rest]|] eqn:E.
      * destruct (Hcut _ _ _ E) as [Hm He].
        destruct (length (x :: s) - length rest) as [|k] eqn:El.
        -- intros [H|[H|H]]; [|discriminate|].
           ++ assert (Hw : w = firstn 0 (x :: s) /\ c = c')
                by (injection H; intros; subst; auto).
              destruct Hw as [-> ->]. exists rest. split; [exact Hm|].
              rewrite He. apply occurs_refl.
           ++ destruct (IH _ _ _ H) as (rest' & Hm' & Ho).
              exists rest'. split; [exact Hm'|apply occurs_cons, Ho].
        -- intros [H|H].
           ++ assert (Hw : w = firstn (S k) (x :: s) /\ c = c')
                by (injection H; intros; subst; auto).
              destruct Hw as [-> ->]. exists rest. split; [exact Hm|].
              rewrite He. apply occurs_refl.
           ++ destruct (IH _ _ _ H) as (rest' & Hm' & Ho).
              exists rest'. split; [exact Hm'|apply occurs_cons, Ho].
      * intros [H|H]; [discriminate|].
        destruct (IH _ _ _ H) as (rest' & Hm' & Ho).
        exists rest'. split; [exact Hm'|apply occurs_cons, Ho].
    + intros H. destruct (IH _ _ _ H) as (rest' & Hm' & Ho).
      exists rest'. split; [exact Hm'|apply occurs_cons, Ho].
Qed.

Lemma execAll_sound (r : regex) (s w : str) (c : caps) :
  In (w, c) (execAll r s) ->
  exists rest, Matches r (w ++ rest) rest [] c /\ occurs (w ++ rest) s.
Proof.
  unfold execAll, tokens. rewrite matches_of_In. apply tokens_go_match_sound.
Qed.

(** ** What a replacement leaves in a string *)

Section ReplaceFacts.

(** A character left alone by a scan is a character of the string, and
    the pattern does not consume it where it stands. *)
Lemma tokens_go_plain_sound (r : regex) (s : str) :
  forall skip x,
    In (Plain x) (tokens_go r s skip) ->
    In x s
    /\ exists s', exec_at r (x :: s') = None
                  \/ exists c, exec_at r (x :: s') = Some (c, x :: s').
Proof.
  induction s as [|y s IH]; intros skip x.
  - simpl. destruct skip; [|intros []].
    destruct (exec_at r []) as [[c' rest]|]; [|intros []].
    intros [H|[]]. discriminate.
  - rewrite tokens_go_cons. destruct skip as [|n].
    + destruct (exec_at r (y :: s)) as [[c' rest]|] eqn:E.
      * destruct (length (y :: s) - length rest) as [|k] eqn:El.
        -- intros [H|[H|H]]; [discriminate| |].
           ++ injection H as <-. split; [left; reflexivity|].
              exists s. right. exists c'.
              assert (Hf := E). apply exec_at_sound, Matches_front in Hf.
              destruct Hf as [u Hu]. rewrite Hu, length_app in El.
              assert (Hl : length u = 0) by lia.
              assert (u = []) by (destruct u; [reflexivity|discriminate]).
              subst u. simpl in Hu. rewrite E, <- Hu. reflexivity.
           ++ destruct (IH _ _ H) as [Hin Hex]. split; [right; exact Hin|exact Hex].
        -- intros [H|H]; [discriminate|].
           destruct (IH _ _ H) as [Hin Hex]. split; [right; exact Hin|exact Hex].
      * intros [H|H].
        -- injection H as <-. split; [left; reflexivity|].
           exists s. left. exact E.
        -- destruct (IH _ _ H) as [Hin Hex]. split; [right; exact Hin|exact Hex].
    + intros H. destruct (IH _ _ H) as [Hin Hex]. split; [right; exact Hin|exact Hex].
Qed.

(** The characters of a replaced string come from the characters the
    scan left alone and from the replacements. *)
Lemma replace_tokens_chars (P : char -> Prop) (f : caps -> str)
  (ts : list token) :
  (forall x, In (Plain x) ts -> P x) ->
  (forall w c, In (Match w c) ts -> Forall P (f c)) ->
  Forall P (snd (replace_tokens (fun (st : unit) _ c => (st, f c)) ts tt)).
Proof.
  induction ts as [|[x|w c] ts IH]; intros Hp Hm; simpl.
  - constructor.
  - destruct (replace_tokens _ ts tt) as [st out] eqn:E. simpl.
    constructor; [apply Hp; left; reflexivity|].
    apply IH; intros; [apply Hp|eapply Hm]; right; eassumption.
  - destruct (replace_tokens _ ts tt) as [st out] eqn:E. simpl.
    apply Forall_app. split; [apply (Hm w c); left; reflexivity|].
    apply IH; intros; [apply Hp|eapply Hm]; right; eassumption.
Qed.

(** A replacement by text that satisfies [P] keeps a string within [P]. *)
Lemma replace_preserves (P : char -> Prop) (r : regex) (f : caps -> str)
  (s : str) :
  Forall P s -> (forall c, Forall P (f c)) -> Forall P (replace r f s).
Proof.
  intros Hs Hf. unfold replace, replaceWith. apply replace_tokens_chars.
  - intros x Hx. apply tokens_go_plain_sound in Hx as [Hin _].
    rewrite Forall_forall in Hs. apply Hs, Hin.
  - intros w c _. apply Hf.
Qed.

Lemma star_total (R : Type) (g : bool) (p : charclass) (k : cont R) :
  (forall s c, k s c <> None) -> forall s c, star g p k s c <> None.
Proof.
  intros Hk s. induction s as [|y s IH]; intros c.
  - rewrite star_nil. apply Hk.
  - destruct g; simpl.
    + destruct (p y); [|apply Hk].
      destruct (star true p k s c); [discriminate|apply Hk].
    + specialize (Hk (y :: s) c). destruct (k (y :: s) c); [discriminate|].
      congruence.
Qed.

(** The pattern [\s+] matches at every white-space character, and takes
    at least that character. *)
Lemma spaces_match_at_space (x : char) (s : str) :
  isSpace x = true ->
  exists c rest, exec_at WikiNews.spacesRe (x :: s) = Some (c, rest)
                 /\ length rest <= length s.
Proof.
  intros Hx. unfold exec_at, WikiNews.spacesRe, plus.
  rewrite m_Seq, m_Chr_true by exact Hx. rewrite m_Star.
  destruct (star true space (fun s' c => Some (c, s')) s []) as [[c rest]|] eqn:E.
  - exists c, rest. split; [reflexivity|].
    apply star_sound in E as (u & s' & -> & _ & H). injection H as _ <-.
    rewrite length_app. lia.
  - exfalso. revert E. apply star_total. discriminate.
Qed.

(** After the white-space runs are replaced by a space, no other white
    space is left. *)
Lemma collapse_plainSpaced (s : str) :
  Forall (fun x => plainSpaced x = true)
    (replace WikiNews.spacesRe (fun _ => lit " ") s).
Proof.
  unfold replace, replaceWith. apply replace_tokens_chars.
  - intros x Hx. apply tokens_go_plain_sound in Hx as [_ [s' Hex]].
    unfold plainSpaced. destruct (isSpace x) eqn:E; [|reflexivity].
    exfalso. destruct (spaces_match_at_space x s' E) as (c & rest & He & Hl).
    destruct Hex as [Hn|[c' Hs]]; [congruence|].
    rewrite He in Hs. injection Hs as _ Hr. subst rest. simpl in Hl. lia.
  - intros w c _. repeat constructor.
Qed.

End ReplaceFacts.

(** X3: the text [#cleanHtml] returns has no white space at either end,
    and the only white-space character it can hold is the plain space
    U+0020: no line break, tab or non-breaking space survives, whatever
    the markup. *)
Theorem cleanHtml_single_line (html : str) :
  trim (WikiNews.cleanHtml html) = WikiNews.cleanHtml html
  /\ (forall x, In x (WikiNews.cleanHtml html) -> isSpace x = true -> x = 32%N)
  /\ (forall x, In x (WikiNews.cleanHtml html) -> isLineTerminator x = false).
Proof.
  assert (H : Forall (fun x => plainSpaced x = true) (WikiNews.cleanHtml html)).
  { unfold WikiNews.cleanHtml, WikiNews.replaceAll.
    apply Forall_forall. intros x Hx. apply trim_In in Hx. revert x Hx.
    apply Forall_forall.
    do 4 (apply replace_preserves; [|intros c; repeat constructor]).
    apply collapse_plainSpaced. }
  rewrite Forall_forall in H. split; [apply trim_idem|].
  assert (Hs : forall x, In x (WikiNews.cleanHtml html) -> isSpace x = true -> x = 32%N).
  { intros x Hx Hsp. specialize (H x Hx). unfold plainSpaced in H.
    rewrite Hsp in H. simpl in H. apply N.eqb_eq, H. }
  split; [exact Hs|].
  intros x Hx. destruct (isLineTerminator x) eqn:E; [|reflexivity].
  assert (Hsp : isSpace x = true).
  { unfold isLineTerminator in E. cbn [existsb] in E.
    repeat rewrite orb_true_iff in E.
    destruct E as [E|[E|[E|[E|E]]]]; [| | | |discriminate E];
      apply N.eqb_eq in E; subst x; vm_compute; reflexivity. }
  specialize (Hs x Hx Hsp). subst x. vm_compute in E. discriminate E.
Qed.

(** ** The topics of Readhub *)

Section TopicFacts.

Import ServiceReadhub.

Ltac invert_matches :=
  repeat match goal with
  | H : Matches (Seq _ _) _ _ _ _ |- _ => inversion H; clear H; subst
  | H : Matches (Lit _) _ _ _ _ |- _ => inversion H; clear H; subst
  | H : Matches (Chr _) _ _ _ _ |- _ => inversion H; clear H; subst
  | H : Matches (Star _ _) _ _ _ _ |- _ => inversion H; clear H; subst
  | H : Matches (Group _ _) _ _ _ _ |- _ => inversion H; clear H; subst
  end.

Lemma firstn_length_app (a b : str) : firstn (length a) (a ++ b) = a.
Proof.
  rewrite firstn_app, Nat.sub_diag, firstn_all. simpl. apply app_nil_r.
Qed.

(** What the article pattern captures: a topic path and a title. *)
Lemma articlePattern_captures (s rest : str) (c : caps) :
  Matches articlePattern s rest [] c ->
  (exists y u, cap 1 c = lit "/topic/" ++ y :: u
               /\ forallb (noneOf dq) (y :: u) = true)
  /\ (exists z v, cap 2 c = z :: v
                  /\ forallb (noneOf (lit "<")) (z :: v) = true).
Proof.
  unfold articlePattern, plus. simpl seq. intros H. invert_matches.
  cbn [cap Nat.eqb].
  split.
  - match goal with
    | |- context [firstn ?n (lit "/topic/" ++ ?y :: ?u ++ ?r)] =>
        exists y, u;
        replace n with (length (lit "/topic/" ++ y :: u))
          by (repeat (rewrite ?length_app; cbn [length]); lia);
        replace (lit "/topic/" ++ y :: u ++ r)
          with ((lit "/topic/" ++ y :: u) ++ r)
          by (rewrite <- app_assoc; reflexivity)
    end.
    rewrite firstn_length_app. split; [reflexivity|].
    cbn [forallb]. apply andb_true_iff. split; assumption.
  - match goal with
    | |- context [firstn ?n (?z :: ?v ++ lit "</a>" ++ ?r)] =>
        exists z, v;
        replace n with (length (z :: v))
          by (repeat (rewrite ?length_app; cbn [length]); lia);
        replace (z :: v ++ lit "</a>" ++ r)
          with ((z :: v) ++ lit "</a>" ++ r) by reflexivity
    end.
    rewrite firstn_length_app. split; [reflexivity|].
    cbn [forallb]. apply andb_true_iff. split; assumption.
Qed.

Lemma pushTopic_ok (newsItems : list Topic) (w : str) (c : caps) :
  (exists rest, Matches articlePattern (w ++ rest) rest [] c) ->
  Forall topicOk newsItems -> Forall topicOk (pushTopic newsItems (w, c)).
Proof.
  intros [rest Hm] Hacc. unfold pushTopic. cbn [snd].
  destruct (truthy (trim (cap 2 c)) && truthy (lit "https://readhub.cn" ++ cap 1 c))
    eqn:E; [|exact Hacc].
  apply andb_true_iff in E as [Et _].
  apply articlePattern_captures in Hm as [(y & u & H1 & Hq) (z & v & H2 & Hl)].
  apply Forall_app. split; [exact Hacc|]. constructor; [|constructor].
  unfold topicOk. cbn [link topicTitle]. split; [|split].
  - exists (y :: u). rewrite H1. split; [reflexivity|].
    split; [discriminate|exact Hq].
  - apply itemTextOk_trim, Et.
  - apply forallb_forall. intros x Hx. apply trim_In in Hx.
    rewrite H2 in Hx. rewrite forallb_forall in Hl. apply Hl, Hx.
Qed.

Lemma fold_pushTopic_ok (ms : list (str * caps)) :
  (forall w c, In (w, c) ms ->
     exists rest, Matches articlePattern (w ++ rest) rest [] c) ->
  forall newsItems,
    Forall topicOk newsItems -> Forall topicOk (fold_left pushTopic ms newsItems).
Proof.
  induction ms as [|[w c] ms IH]; intros Hm newsItems Hacc; [exact Hacc|].
  simpl. apply IH.
  - intros w' c' Hin. apply Hm. right. exact Hin.
  - apply pushTopic_ok; [apply Hm; left; reflexivity|exact Hacc].
Qed.

(** Every topic parsed from a page is in order. *)
Lemma parseTopics_ok (html : str) : Forall topicOk (parseTopics html).
Proof.
  unfold parseTopics. apply fold_pushTopic_ok; [|constructor].
  intros w c Hin. apply execAll_sound in Hin as (rest & Hm & _).
  exists rest. exact Hm.
Qed.

End TopicFacts.

(** ** The feeds the services cache and serve *)

Lemma extractNewsContent_nonempty (html : str) :
  WikiNews.extractNewsContent html <> [].
Proof.
  unfold WikiNews.extractNewsContent.
  destruct (extractNewsContent_body_cases html)
    as [E|[E|[E|(div & rest & _ & Hne & E)]]]; rewrite E; simpl;
    try discriminate.
  exact Hne.
Qed.

Section WikiNewsFeeds.

Variable localeDate : Z -> str.
Variable localeTime : Z -> str.
Variable LocalTZA : Z -> Z.

Import ServiceWikiNews.

Lemma wikinews_fetchFresh_ok (now : Z) (r : Response) (feed : WikiNewsItem) :
  fetchFresh localeTime LocalTZA now (pageUrl LocalTZA (targetDate now)) r
  = Ok feed ->
  wikiNewsFeedOk localeTime LocalTZA feed /\ updated_at feed = now.
Proof.
  destruct r as [e|status body]; simpl; [discriminate|].
  destruct (ok status); simpl; [|discriminate].
  destruct body as [html|e]; simpl; [|discriminate].
  intros H. injection H as <-. unfold wikiNewsFeedOk. simpl.
  repeat split; auto.
  - apply extractNewsContent_nonempty.
  - apply extractNewsContent_ok.
Qed.

(** What holds of the private fields after any number of calls. *)
Lemma wikinews_reachable_fields (this : State) :
  wikiNewsReachable localeDate localeTime LocalTZA this ->
  this = init
  \/ exists feed,
       cache this = Some feed
       /\ lastFetchTime this = updated_at feed
       /\ cacheDate this = todayKey localeDate (updated_at feed)
       /\ wikiNewsFeedOk localeTime LocalTZA feed.
Proof.
  induction 1 as [|this now upstream _ IH]; [left; reflexivity|].
  unfold ServiceWikiNews.fetch.
  destruct (fetchFresh localeTime LocalTZA now (pageUrl LocalTZA (targetDate now))
              (upstream (pageUrl LocalTZA (targetDate now)))) as [data|e] eqn:Ef.
  - apply wikinews_fetchFresh_ok in Ef as [Hok Ht].
    assert (Hnew : exists feed,
               cache {| cache := Some data;
                        cacheDate := todayKey localeDate now;
                        lastFetchTime := now |} = Some feed
               /\ lastFetchTime {| cache := Some data;
                                   cacheDate := todayKey localeDate now;
                                   lastFetchTime := now |} = updated_at feed
               /\ cacheDate {| cache := Some data;
                               cacheDate := todayKey localeDate now;
                               lastFetchTime := now |}
                  = todayKey localeDate (updated_at feed)
               /\ wikiNewsFeedOk localeTime LocalTZA feed).
    { exists data. simpl. rewrite Ht. auto. }
    destruct (cache this) as [cached|] eqn:Ec;
      [destruct (str_eqb (cacheDate this) (todayKey localeDate now))|];
      simpl; auto.
    first [exact IH | rewrite <- Ec; exact IH | rewrite <- Ec in IH; exact IH].
  - destruct (cache this) as [cached|] eqn:Ec;
      [destruct (str_eqb (cacheDate this) (todayKey localeDate now))|];
      simpl;
      first [exact IH | rewrite <- Ec; exact IH | rewrite <- Ec in IH; exact IH].
Qed.

(** X9: what [ServiceWikiNews.#fetch] serves, on an instance that has
    gone through any calls at any times with any upstream behaviour. A
    feed it returns names the date and the page of 24 hours before the
    feed's own time stamp, holds at least one category, each with items
    in order, and is the feed cached after the call, with the cache date
    and the last fetch time those of its time stamp; when it was served
    without a request, its time stamp has the date key of the call. The
    call rejects only on an instance that has never fetched with
    success, with the no-cache error, and leaves the fields as they
    were. *)
Theorem wikinews_serves_wellformed (this : State) (now : Z) (upstream : str -> Response) :
  wikiNewsReachable localeDate localeTime LocalTZA this ->
  match returned (ServiceWikiNews.fetch localeDate localeTime LocalTZA this now upstream) with
  | Ok feed =>
      wikiNewsFeedOk localeTime LocalTZA feed
      /\ cache (after (ServiceWikiNews.fetch localeDate localeTime LocalTZA this now upstream)) = Some feed
      /\ lastFetchTime (after (ServiceWikiNews.fetch localeDate localeTime LocalTZA this now upstream)) = updated_at feed
      /\ cacheDate (after (ServiceWikiNews.fetch localeDate localeTime LocalTZA this now upstream))
         = todayKey localeDate (updated_at feed)
      /\ (requests (ServiceWikiNews.fetch localeDate localeTime LocalTZA this now upstream) = [] ->
          todayKey localeDate (updated_at feed) = todayKey localeDate now)
  | Throw e =>
      e = noCacheError /\ this = init /\ after (ServiceWikiNews.fetch localeDate localeTime LocalTZA this now upstream) = this
  end.
Proof.
  intros Hr. apply wikinews_reachable_fields in Hr.
  assert (Hcached : forall cached,
             cache this = Some cached ->
             wikiNewsFeedOk localeTime LocalTZA cached
             /\ lastFetchTime this = updated_at cached
             /\ cacheDate this = todayKey localeDate (updated_at cached)).
  { intros cached Ec. destruct Hr as [->|(feed & Hc & Hl & Hd & Hok)].
    - discriminate.
    - rewrite Ec in Hc. injection Hc as <-. auto. }
  assert (Hnone : cache this = None -> this = init).
  { intros Ec. destruct Hr as [->|(feed & Hc & _)]; [reflexivity|congruence]. }
  unfold ServiceWikiNews.fetch.
  destruct (cache this) as [cached|] eqn:Ec.
  - destruct (Hcached cached eq_refl) as (Hok & Hl & Hd).
    destruct (str_eqb (cacheDate this) (todayKey localeDate now)) eqn:Ek.
    + simpl. split; [exact Hok|]. split; [exact Ec|]. split; [exact Hl|].
      split; [exact Hd|]. intros _. rewrite <- Hd. apply str_eqb_eq, Ek.
    + destruct (fetchFresh localeTime LocalTZA now
                  (pageUrl LocalTZA (targetDate now))
                  (upstream (pageUrl LocalTZA (targetDate now))))
        as [data|e] eqn:Ef; simpl.
      * apply wikinews_fetchFresh_ok in Ef as [Hok' Ht'].
        split; [exact Hok'|]. split; [reflexivity|].
        split; [symmetry; exact Ht'|]. rewrite Ht'.
        split; [reflexivity|discriminate].
      * split; [exact Hok|]. split; [exact Ec|]. split; [exact Hl|].
        split; [exact Hd|discriminate].
  - destruct (fetchFresh localeTime LocalTZA now
                (pageUrl LocalTZA (targetDate now))
                (upstream (pageUrl LocalTZA (targetDate now))))
      as [data|e] eqn:Ef; simpl.
    + apply wikinews_fetchFresh_ok in Ef as [Hok' Ht'].
      split; [exact Hok'|]. split; [reflexivity|].
      split; [symmetry; exact Ht'|]. rewrite Ht'.
      split; [reflexivity|discriminate].
    + split; [reflexivity|]. split; [apply Hnone; reflexivity|reflexivity].
Qed.

End WikiNewsFeeds.

Section ReadhubFeeds.

Variable localeDate : Z -> str.
Variable localeTime : Z -> str.

Import ServiceReadhub.

Lemma readhub_fetchFresh_ok (now : Z) (r : Response) (feed : ReadhubNewsItem) :
  fetchFresh localeDate localeTime now r = Ok feed ->
  readhubFeedOk localeDate localeTime feed /\ rupdated_at feed = now.
Proof.
  destruct r as [e|status body]; simpl; [discriminate|].
  destruct (ok status); simpl; [|discriminate].
  destruct body as [html|e]; simpl; [|discriminate].
  intros H. injection H as <-. unfold readhubFeedOk. simpl.
  repeat split; auto. apply parseTopics_ok.
Qed.

Lemma readhub_reachable_fields (this : State) :
  readhubReachable localeDate localeTime this ->
  this = init
  \/ exists feed,
       cache this = Some feed
       /\ cacheTime this = rupdated_at feed
       /\ readhubFeedOk localeDate localeTime feed.
Proof.
  induction 1 as [|this now upstream _ IH]; [left; reflexivity|].
  unfold ServiceReadhub.fetch, cacheValid.
  destruct (fetchFresh localeDate localeTime now (upstream dailyUrl))
    as [data|e] eqn:Ef.
  - apply readhub_fetchFresh_ok in Ef as [Hok Ht].
    destruct (cache this) as [cached|] eqn:Ec;
      [destruct (now - cacheTime this <? cacheDuration)%Z|]; simpl.
    + first [exact IH | rewrite <- Ec; exact IH | rewrite <- Ec in IH; exact IH].
    + right. exists data. rewrite Ht. auto.
    + right. exists data. rewrite Ht. auto.
  - destruct (cache this) as [cached|] eqn:Ec;
      [destruct (now - cacheTime this <? cacheDuration)%Z|]; simpl;
      first [exact IH | rewrite <- Ec; exact IH | rewrite <- Ec in IH; exact IH].
Qed.

(** X10: what [ServiceReadhub.#fetch] serves, on an instance that has
    gone through any calls at any times with any upstream behaviour. A
    feed it returns carries the date and the time of its own time stamp
    and the fixed tip, every topic of it is in order, and it is the feed
    cached after the call, with the cache time equal to its time stamp;
    a feed served without a request is less than 30 minutes old. The
    call rejects only on an instance that has never fetched with
    success, with the no-cache error, and leaves the fields as they
    were. *)
Theorem readhub_serves_wellformed (this : State) (now : Z) (upstream : str -> Response) :
  readhubReachable localeDate localeTime this ->
  match returned (ServiceReadhub.fetch localeDate localeTime this now upstream) with
  | Ok feed =>
      readhubFeedOk localeDate localeTime feed
      /\ cache (after (ServiceReadhub.fetch localeDate localeTime this now upstream))
         = Some feed
      /\ cacheTime (after (ServiceReadhub.fetch localeDate localeTime this now upstream))
         = rupdated_at feed
      /\ (requests (ServiceReadhub.fetch localeDate localeTime this now upstream) = [] ->
          (now - rupdated_at feed < 30 * 60 * 1000)%Z)
  | Throw e =>
      e = noCacheError /\ this = init
      /\ after (ServiceReadhub.fetch localeDate localeTime this now upstream) = this
  end.
Proof.
  intros Hr. apply readhub_reachable_fields in Hr.
  assert (Hcached : forall cached,
             cache this = Some cached ->
             readhubFeedOk localeDate localeTime cached
             /\ cache this = Some cached
             /\ cacheTime this = rupdated_at cached).
  { intros cached Ec. destruct Hr as [->|(feed & Hc & Hl & Hok)].
    - discriminate.
    - rewrite Ec in Hc. injection Hc as <-. auto. }
  assert (Hnone : cache this = None -> this = init).
  { intros Ec. destruct Hr as [->|(feed & Hc & _)]; [reflexivity|congruence]. }
  unfold ServiceReadhub.fetch, cacheValid.
  destruct (cache this) as [cached|] eqn:Ec.
  - destruct (Hcached cached eq_refl) as (Hok & _ & Ht).
    destruct (now - cacheTime this <? cacheDuration)%Z eqn:Ev.
    + simpl. split; [exact Hok|]. split; [exact Ec|]. split; [exact Ht|].
      intros _. rewrite <- Ht. apply Z.ltb_lt in Ev. exact Ev.
    + destruct (fetchFresh localeDate localeTime now (upstream dailyUrl))
        as [data|e] eqn:Ef; simpl.
      * apply readhub_fetchFresh_ok in Ef as [Hok' Ht'].
        split; [exact Hok'|]. split; [reflexivity|].
        split; [symmetry; exact Ht'|discriminate].
      * split; [exact Hok|]. split; [exact Ec|].
        split; [exact Ht|discriminate].
  - destruct (fetchFresh localeDate localeTime now (upstream dailyUrl))
      as [data|e] eqn:Ef; simpl.
    + apply readhub_fetchFresh_ok in Ef as [Hok' Ht'].
      split; [exact Hok'|]. split; [reflexivity|].
      split; [symmetry; exact Ht'|discriminate].
    + split; [reflexivity|]. split; [apply Hnone; reflexivity|reflexivity].
Qed.

End ReadhubFeeds.

(** ** Fragments without anchors *)

Section NoAnchor.

Lemma externalAnchorRe_needs_a : needsPrefix WikiNews.externalAnchorRe (lit "<a").
Proof. apply needsPrefix_Seq. Qed.

Lemma plainAnchorRe_needs_a : needsPrefix WikiNews.plainAnchorRe (lit "<a").
Proof. apply needsPrefix_Seq. Qed.

Lemma replaceWith_without_prefix (St : Type) (r : regex) (l : str)
  (f : St -> str -> caps -> St * str) (s : str) (st : St) :
  needsPrefix r l -> ~ occurs l s -> RegExp.replaceWith r f s st = (st, s).
Proof.
  intros Hr Hs. unfold RegExp.replaceWith.
  rewrite (tokens_without_prefix Hr Hs). apply replace_tokens_plain.
Qed.

Lemma processItemLinks_without_anchor (html : str) :
  ~ occurs (lit "<a") html ->
  WikiNews.processItemLinks html
  = {| WikiNews.itemText := html; WikiNews.links := [] |}.
Proof.
  intros H. unfold WikiNews.processItemLinks.
  rewrite (replaceWith_without_prefix _ _ _ _ _ _ externalAnchorRe_needs_a H).
  rewrite (replaceWith_without_prefix _ _ _ _ _ _ plainAnchorRe_needs_a H).
  reflexivity.
Qed.

Lemma convertLinksToMarkdown_without_anchor (html : str) :
  ~ occurs (lit "<a") html ->
  WikiNewsMarkdown.convertLinksToMarkdown html = html.
Proof.
  intros H. unfold WikiNewsMarkdown.convertLinksToMarkdown, RegExp.replace.
  rewrite (replaceWith_without_prefix _ _ _ _ _ _ plainAnchorRe_needs_a H).
  cbn [snd].
  rewrite (replaceWith_without_prefix _ _ _ _ _ _ externalAnchorRe_needs_a H).
  reflexivity.
Qed.

End NoAnchor.

(** ** The first occurrence of a literal *)

Section FirstOccurrence.

Lemma app_eq_prefix (a b c d : str) :
  a ++ b = c ++ d -> length a <= length c ->
  exists e, c = a ++ e /\ b = e ++ d.
Proof.
  intros H Hl. apply app_eq_app in H as [l [[-> ->]|[-> ->]]].
  - rewrite length_app in Hl. assert (l = []) by (destruct l; [reflexivity|simpl in Hl; lia]).
    subst l. exists []. rewrite !app_nil_r. split; reflexivity.
  - exists l. split; reflexivity.
Qed.

(** An occurrence of a borderless literal does not overlap the next. *)
Lemma no_overlap (p v r r' : str) :
  borderless p = true -> v <> [] -> length v < length p ->
  v ++ p ++ r = p ++ r' -> False.
Proof.
  intros Hb Hv Hl H.
  destruct (app_eq_prefix v (p ++ r) p r' H) as (t & Hp & Ht); [lia|].
  assert (Hlen : length p = length v + length t)
    by (rewrite Hp; apply length_app).
  assert (Hlt : length t <= length p) by lia.
  symmetry in Ht.
  destruct (app_eq_prefix t r' p r Ht Hlt) as (t2 & Hp2 & _).
  unfold borderless in Hb. rewrite forallb_forall in Hb.
  specialize (Hb (length v)).
  assert (Hin : In (length v) (List.seq 1 (length p - 1))).
  { apply in_seq. destruct v; [congruence|]. simpl in *. lia. }
  apply Hb in Hin. apply negb_true_iff in Hin.
  assert (E : str_eqb (skipn (length v) p) (firstn (length p - length v) p) = true).
  { apply str_eqb_eq.
    assert (E1 : skipn (length v) p = t).
    { rewrite Hp. rewrite skipn_app, skipn_all, Nat.sub_diag. reflexivity. }
    assert (E2 : firstn (length p - length v) p = t).
    { replace (length p - length v) with (length t) by lia.
      rewrite Hp2. rewrite firstn_app, Nat.sub_diag, firstn_all. simpl.
      apply app_nil_r. }
    rewrite E1, E2. reflexivity. }
  congruence.
Qed.

(** Before the first occurrence of a borderless literal, the literal
    starts nowhere. *)
Lemma first_occurrence (p a r : str) :
  borderless p = true -> ~ occurs p a ->
  forall w1 x w2, a = w1 ++ x :: w2 ->
    startsWith p (x :: w2 ++ p ++ r) = false.
Proof.
  intros Hb Ha w1 x w2 ->. unfold startsWith.
  destruct (stripPrefix p (x :: w2 ++ p ++ r)) as [r'|] eqn:E; [|reflexivity].
  exfalso. apply stripPrefix_Some in E.
  destruct (Nat.le_gt_cases (length p) (length (x :: w2))) as [Hl|Hl].
  - symmetry in E. change (x :: w2 ++ p ++ r) with ((x :: w2) ++ p ++ r) in E.
    destruct (app_eq_prefix p r' (x :: w2) (p ++ r) E Hl) as (e & He & _).
    apply Ha. exists w1, e. rewrite He. reflexivity.
  - apply (no_overlap p (x :: w2) r r' Hb); [discriminate|exact Hl|exact E].
Qed.

Lemma indexOf_unfold (p s : str) :
  indexOf p s
  = if startsWith p s then Some 0
    else match s with
         | [] => None
         | _ :: s' => option_map S (indexOf p s')
         end.
Proof. destruct s; reflexivity. Qed.

Lemma indexOf_run_Some (p a rest : str) :
  (forall w1 x w2, a = w1 ++ x :: w2 -> startsWith p (x :: w2 ++ rest) = false) ->
  startsWith p rest = true ->
  indexOf p (a ++ rest) = Some (length a).
Proof.
  induction a as [|x a IH]; intros H Hr.
  - simpl. rewrite indexOf_unfold, Hr. reflexivity.
  - change ((x :: a) ++ rest) with (x :: (a ++ rest)).
    rewrite indexOf_unfold, (H [] x a eq_refl).
    rewrite IH; [reflexivity| |exact Hr].
    intros w1 y w2 ->. apply (H (x :: w1) y w2). reflexivity.
Qed.

Lemma startsWith_app (p r : str) : startsWith p (p ++ r) = true.
Proof. unfold startsWith. rewrite stripPrefix_app. reflexivity. Qed.

(** The index of the first occurrence. *)
Lemma indexOf_first (p a r : str) :
  borderless p = true -> ~ occurs p a ->
  indexOf p (a ++ p ++ r) = Some (length a).
Proof.
  intros Hb Ha. apply indexOf_run_Some; [|apply startsWith_app].
  apply first_occurrence; assumption.
Qed.

Lemma first_unique (p a b r1 r2 : str) :
  borderless p = true -> ~ occurs p a -> ~ occurs p b ->
  a ++ p ++ r1 = b ++ p ++ r2 -> a = b /\ r1 = r2.
Proof.
  intros Hb Ha Hb' H.
  pose proof (indexOf_first p a r1 Hb Ha) as Ia.
  pose proof (indexOf_first p b r2 Hb Hb') as Ib.
  rewrite H, Ib in Ia. injection Ia as Hl.
  assert (E : a = b).
  { apply (f_equal (firstn (length a))) in H.
    rewrite firstn_app, Nat.sub_diag, firstn_all in H. simpl in H.
    rewrite <- Hl, firstn_app, Nat.sub_diag, firstn_all in H. simpl in H.
    rewrite !app_nil_r in H. exact H. }
  subst b. apply app_inv_head in H. apply app_inv_head in H. auto.
Qed.

(** The scan for a borderless literal: the text before its first
    occurrence is left alone and the occurrence is a match. *)
Lemma tokens_go_Lit_first (p a r : str) :
  borderless p = true -> p <> [] -> ~ occurs p a ->
  tokens_go (Lit p) (a ++ p ++ r) 0
  = List.map Plain a ++ Match p [] :: tokens_go (Lit p) r 0.
Proof.
  intros Hb Hp Ha.
  rewrite (@tokens_go_plain_run (Lit p) a (p ++ r)).
  - f_equal. apply tokens_go_match; [exact Hp|].
    unfold exec_at. simpl. rewrite stripPrefix_app. reflexivity.
  - intros w1 x w2 Hw. pose proof (first_occurrence p a r Hb Ha w1 x w2 Hw) as Hs.
    unfold startsWith in Hs. unfold exec_at. simpl m.
    destruct (stripPrefix p (x :: w2 ++ p ++ r)); [discriminate|reflexivity].
Qed.

Lemma split_go_plain_app (a : str) (ts : list token) (piece : str) :
  split_go (List.map Plain a ++ ts) piece = split_go ts (rev a ++ piece).
Proof.
  revert piece. induction a as [|x a IH]; intros piece; simpl; [reflexivity|].
  rewrite IH, <- app_assoc. reflexivity.
Qed.

Lemma join_cons (sep x y : str) (l : list str) :
  join sep (x :: y :: l) = x ++ sep ++ join sep (y :: l).
Proof. reflexivity. Qed.

(** [split] undoes [join] when the pieces do not hold the separator. *)
Lemma split_join (p : str) (pieces : list str) :
  borderless p = true -> p <> [] ->
  Forall (fun s => ~ occurs p s) pieces ->
  forall first piece,
    ~ occurs p first ->
    split_go (tokens_go (Lit p) (join p (first :: pieces)) 0) piece
    = (rev piece ++ first) :: pieces.
Proof.
  intros Hb Hp. induction 1 as [|s rest Hs _ IH]; intros first piece Hf.
  - simpl join. change (tokens_go (Lit p) first 0) with (tokens (Lit p) first).
    rewrite (tokens_without_prefix (needsPrefix_Lit p) Hf).
    apply split_go_plain.
  - rewrite join_cons, tokens_go_Lit_first by assumption.
    rewrite split_go_plain_app.
    change (split_go (Match p [] :: tokens_go (Lit p) (join p (s :: rest)) 0)
              (rev first ++ piece))
      with (rev (rev first ++ piece)
            :: split_go (tokens_go (Lit p) (join p (s :: rest)) 0) []).
    rewrite rev_app_distr, rev_involutive. f_equal.
    rewrite (IH s [] Hs). reflexivity.
Qed.

(** A delimited pattern takes the text up to the first closing literal. *)
Lemma delimited_exec (o cl u rest : str) :
  borderless cl = true -> cl <> [] -> ~ occurs cl u ->
  exists c,
    exec_at (delimited o cl) (o ++ u ++ cl ++ rest) = Some (c, rest)
    /\ cap 1 c = u.
Proof.
  intros Hb Hcl Hu.
  destruct (exec_at (delimited o cl) (o ++ u ++ cl ++ rest)) as [[c rest']|] eqn:E.
  - destruct (@delimited_capture o cl _ _ _ Hcl E) as (u' & Hs & Hc & Hu').
    apply app_inv_head in Hs.
    destruct (first_unique cl u u' rest rest' Hb Hu Hu' Hs) as [-> ->].
    exists c. auto.
  - exfalso. revert E. apply delimited_matches.
Qed.

(** The scan for a delimited pattern, up to its first match. *)
Lemma tokens_go_delimited_first (o cl a u r : str) :
  borderless o = true -> o <> [] -> ~ occurs o a ->
  borderless cl = true -> cl <> [] -> ~ occurs cl u ->
  exists c,
    cap 1 c = u
    /\ tokens_go (delimited o cl) (a ++ (o ++ u ++ cl) ++ r) 0
       = List.map Plain a
         ++ Match (o ++ u ++ cl) c :: tokens_go (delimited o cl) r 0.
Proof.
  intros Hbo Ho Ha Hbc Hcl Hu.
  destruct (delimited_exec o cl u r Hbc Hcl Hu) as (c & He & Hc).
  exists c. split; [exact Hc|].
  rewrite (@tokens_go_plain_run (delimited o cl) a ((o ++ u ++ cl) ++ r)).
  - f_equal. apply tokens_go_match.
    + destruct o; [congruence|discriminate].
    + rewrite <- He. f_equal. rewrite <- !app_assoc. reflexivity.
  - intros w1 x w2 Hw.
    destruct (exec_at (delimited o cl) (x :: w2 ++ (o ++ u ++ cl) ++ r))
      as [res|] eqn:E; [|reflexivity].
    exfalso. apply (delimited_needs_prefix o cl) in E as [s' Hs].
    pose proof (first_occurrence o a (u ++ cl ++ r) Hbo Ha w1 x w2 Hw) as Hn.
    unfold startsWith in Hn.
    replace (x :: w2 ++ o ++ u ++ cl ++ r)
      with (x :: w2 ++ (o ++ u ++ cl) ++ r) in Hn
      by (rewrite <- !app_assoc; reflexivity).
    rewrite Hs, stripPrefix_app in Hn. discriminate.
Qed.

End FirstOccurrence.

(** ** The first content block *)

Section FirstBlock.

Import WikiNews.

Lemma contentOpen_borderless : borderless contentOpen = true.
Proof. vm_compute. reflexivity. Qed.

Lemma contentClose_borderless : borderless contentClose = true.
Proof. vm_compute. reflexivity. Qed.

(** The first content block is the text from the first opening tag to
    the first [</div>] after it. *)
Lemma matchAll_first_block (pre body post : str) :
  ~ occurs contentOpen pre -> ~ occurs contentClose body ->
  exists more,
    matchAll contentDivRe (pre ++ contentOpen ++ body ++ contentClose ++ post)
    = Some ((contentOpen ++ body ++ contentClose) :: more).
Proof.
  intros Hpre Hbody.
  destruct (tokens_go_delimited_first contentOpen contentClose pre body post
              contentOpen_borderless ltac:(discriminate) Hpre
              contentClose_borderless ltac:(discriminate) Hbody)
    as (c & _ & Ht).
  unfold matchAll, execAll, tokens.
  change contentDivRe with (delimited contentOpen contentClose).
  replace (pre ++ contentOpen ++ body ++ contentClose ++ post)
    with (pre ++ (contentOpen ++ body ++ contentClose) ++ post)
    by (rewrite <- !app_assoc; reflexivity).
  rewrite Ht.
  assert (Hm : forall (a : str) (ts : list token),
             matches_of (List.map Plain a ++ ts) = matches_of ts)
    by (induction a; simpl; auto).
  rewrite Hm. simpl. eexists. reflexivity.
Qed.

(** Nothing outside the first content block is read. *)
Lemma extractNewsContent_first_block (pre body post : str) :
  ~ occurs contentOpen pre -> ~ occurs contentClose body ->
  extractNewsContent (pre ++ contentOpen ++ body ++ contentClose ++ post)
  = extractNewsContent (contentOpen ++ body ++ contentClose).
Proof.
  intros Hpre Hbody.
  destruct (matchAll_first_block pre body post Hpre Hbody) as [more1 H1].
  assert (Hnil : ~ occurs contentOpen []).
  { intros (a & b & H). symmetry in H. apply app_eq_nil in H as [_ H].
    apply app_eq_nil in H as [H _]. discriminate. }
  destruct (matchAll_first_block [] body [] Hnil Hbody) as [more2 H2].
  assert (E : [] ++ contentOpen ++ body ++ contentClose ++ []
              = contentOpen ++ body ++ contentClose)
    by (rewrite app_nil_r; reflexivity).
  rewrite E in H2.
  unfold extractNewsContent, extractNewsContent_body. rewrite H1, H2.
  reflexivity.
Qed.

End FirstBlock.

(** ** The items of a section *)

Section SectionItems.

Import WikiNews.

Lemma li_borderless : borderless (lit "<li>") = true.
Proof. vm_compute. reflexivity. Qed.

Lemma li_close_borderless : borderless (lit "</li>") = true.
Proof. vm_compute. reflexivity. Qed.

Lemma matches_of_plain_app (a : str) (ts : list token) :
  matches_of (List.map Plain a ++ ts) = matches_of ts.
Proof. induction a; simpl; auto. Qed.

(** The item loop only reads group 1 of a match. *)
Lemma pushListItem_itemOf (items : list NewsItem) (mt : str * caps) :
  pushListItem items mt = items ++ itemOf (cap 1 (snd mt)).
Proof.
  unfold itemOf, pushListItem. cbn [snd cap Nat.eqb].
  destruct (truthy (cap 1 (snd mt))); [|symmetry; apply app_nil_r].
  destruct (negb (truthy (trim (cap 1 (snd mt))))); [symmetry; apply app_nil_r|].
  destruct (truthy (trim (itemFinalText (trim (cap 1 (snd mt))))));
    [reflexivity|symmetry; apply app_nil_r].
Qed.

Lemma fold_pushListItem_items (ms : list (str * caps)) :
  forall items,
    fold_left pushListItem ms items
    = items ++ flat_map itemOf (List.map (fun mt => cap 1 (snd mt)) ms).
Proof.
  induction ms as [|mt ms IH]; intros items; simpl.
  - symmetry. apply app_nil_r.
  - rewrite IH, pushListItem_itemOf, <- app_assoc. reflexivity.
Qed.

(** The item pattern finds the items of a section, in order, each cut at
    its first [</li>]. *)
Lemma execAll_items (segments : list (str * str)) (tail : str) :
  Forall (fun seg => ~ occurs (lit "<li>") (fst seg)
                     /\ ~ occurs (lit "</li>") (snd seg)) segments ->
  ~ occurs (lit "<li>") tail ->
  List.map (fun mt => cap 1 (snd mt))
    (execAll listItemRegex (itemsHtml segments tail))
  = List.map snd segments.
Proof.
  intros Hs Ht. unfold execAll, tokens, itemsHtml.
  change listItemRegex with (delimited (lit "<li>") (lit "</li>")).
  induction Hs as [|[before item] segments [Hb Hi] _ IH].
  - simpl concat. simpl app.
    change (tokens_go (delimited (lit "<li>") (lit "</li>")) tail 0)
      with (tokens (delimited (lit "<li>") (lit "</li>")) tail).
    rewrite (tokens_without_prefix (delimited_needs_prefix _ _) Ht).
    rewrite matches_of_plain. reflexivity.
  - cbn [fst snd] in Hb, Hi.
    destruct (tokens_go_delimited_first (lit "<li>") (lit "</li>") before item
                (concat (List.map itemHtml segments) ++ tail)
                li_borderless ltac:(discriminate) Hb
                li_close_borderless ltac:(discriminate) Hi)
      as (c & Hc & Htok).
    replace (concat (List.map itemHtml ((before, item) :: segments)) ++ tail)
      with (before ++ (lit "<li>" ++ item ++ lit "</li>")
            ++ concat (List.map itemHtml segments) ++ tail)
      by (cbn [List.map concat]; unfold itemHtml at 2; cbn [fst snd];
          rewrite <- !app_assoc; reflexivity).
    rewrite Htok, matches_of_plain_app.
    cbn [matches_of List.map snd]. rewrite Hc, IH. reflexivity.
Qed.

(** The items of a section of the usual shape. *)
Lemma extractCategoryItems_items (segments : list (str * str))
  (tail categoryTitle : str) :
  Forall (fun seg => ~ occurs (lit "<li>") (fst seg)
                     /\ ~ occurs (lit "</li>") (snd seg)) segments ->
  ~ occurs (lit "<li>") tail ->
  extractCategoryItems (itemsHtml segments tail) categoryTitle
  = match flat_map itemOf (List.map snd segments) with
    | [] =>
        if truthy (trim (cleanHtml (itemsHtml segments tail)))
        then [{| text := trim (cleanHtml (itemsHtml segments tail)) |}]
        else []
    | its => its
    end.
Proof.
  intros Hs Ht.
  unfold extractCategoryItems, extractCategoryItems_body.
  rewrite fold_pushListItem_items, (execAll_items segments tail Hs Ht).
  cbn [app].
  destruct (flat_map itemOf (List.map snd segments)); [|reflexivity].
  destruct (truthy (trim (cleanHtml (itemsHtml segments tail)))); reflexivity.
Qed.

End SectionItems.

(** ** The sections of a content block *)

Section BlockSections.

Import WikiNews.

Lemma headingMark_borderless : borderless headingMark = true.
Proof. vm_compute. reflexivity. Qed.

Lemma indexOf_skip (p a rest : str) :
  (forall w1 x w2, a = w1 ++ x :: w2 -> startsWith p (x :: w2 ++ rest) = false) ->
  indexOf p (a ++ rest) = option_map (fun i => length a + i) (indexOf p rest).
Proof.
  induction a as [|x a IH]; intros H.
  - simpl. destruct (indexOf p rest); reflexivity.
  - change ((x :: a) ++ rest) with (x :: (a ++ rest)).
    rewrite indexOf_unfold, (H [] x a eq_refl), IH.
    + destruct (indexOf p rest); reflexivity.
    + intros w1 y w2 ->. apply (H (x :: w1) y w2). reflexivity.
Qed.

Lemma textChar_run (p t rest : str) :
  forallb textChar t = true ->
  forall w1 x w2, t = w1 ++ x :: w2 ->
    startsWith (60%N :: p) (x :: w2 ++ rest) = false.
Proof.
  intros Ht w1 x w2 ->. apply startsWith_notHead.
  rewrite forallb_app in Ht. apply andb_true_iff in Ht as [_ Ht].
  cbn [forallb] in Ht. apply andb_true_iff in Ht as [Hx _].
  change (notHeadOf (60%N :: p) x) with (negb (N.eqb 60 x)).
  unfold textChar in Hx. rewrite N.eqb_sym. exact Hx.
Qed.

(** The section loop on a section with a plain title: the title is the
    text before [</b>], the content the text after [</p>]. *)
Lemma pushSection_section (categories : list NewsCategory) (sec : str * str) :
  forallb textChar (fst sec) = true ->
  pushSection categories (sectionText sec) = categories ++ categoryOf sec.
Proof.
  destruct sec as [t c]. cbn [fst]. intros Ht.
  unfold pushSection, sectionText, categoryOf. cbn [fst snd].
  assert (Hb : indexOf (lit "</b>") (t ++ lit "</b></p>" ++ c) = Some (length t)).
  { rewrite indexOf_skip
      by (apply (textChar_run (lit "/b>")); exact Ht).
    assert (E : indexOf (lit "</b>") (lit "</b></p>" ++ c) = Some 0)
      by (vm_compute; reflexivity).
    rewrite E. simpl. f_equal. lia. }
  assert (Hp : indexOf (lit "</p>") (t ++ lit "</b></p>" ++ c)
               = Some (length t + 4)).
  { rewrite indexOf_skip
      by (apply (textChar_run (lit "/p>")); exact Ht).
    assert (E : indexOf (lit "</p>") (lit "</b></p>" ++ c) = Some 4)
      by (vm_compute; reflexivity).
    rewrite E. reflexivity. }
  rewrite Hb, Hp. cbv zeta.
  assert (Ht' : substring 0 (length t) (t ++ lit "</b></p>" ++ c) = t).
  { unfold substring. rewrite Nat.sub_0_r. simpl skipn.
    apply firstn_length_app. }
  assert (Hc : substringFrom (length t + 4 + 4) (t ++ lit "</b></p>" ++ c) = c).
  { unfold substringFrom.
    replace (length t + 4 + 4) with (length (t ++ lit "</b></p>"))
      by (rewrite length_app; change (length (lit "</b></p>")) with 8; lia).
    rewrite app_assoc. apply skipn_length_app. }
  rewrite Ht', Hc.
  destruct (extractCategoryItems c (trim t)); [symmetry; apply app_nil_r|].
  reflexivity.
Qed.

Lemma fold_pushSection_sections (secs : list (str * str)) :
  Forall (fun sec => forallb textChar (fst sec) = true) secs ->
  forall categories,
    fold_left pushSection (List.map sectionText secs) categories
    = categories ++ flat_map categoryOf secs.
Proof.
  induction 1 as [|sec secs Hs _ IH]; intros categories; simpl.
  - symmetry. apply app_nil_r.
  - rewrite pushSection_section by exact Hs. rewrite IH, <- app_assoc.
    reflexivity.
Qed.

(** X5: the categories of a content block of the usual shape. When the
    block is the text before the first heading and then sections, each
    the heading mark, a title without [<], [</b></p>] and a content, the
    result holds one category for each section whose content yields
    items, in the order of the page and titled by the trimmed title,
    after the category of the text before the first heading if that
    yields items; when no section yields items the result is the
    diagnostic category. *)
Theorem extract_sections_in_order (first body : str) (secs : list (str * str)) :
  join headingMark (first :: List.map sectionText secs)
  = contentOpen ++ body ++ contentClose ->
  ~ occurs contentClose body ->
  ~ occurs headingMark first ->
  Forall (fun sec => forallb textChar (fst sec) = true
                     /\ ~ occurs headingMark (sectionText sec)) secs ->
  secs <> [] ->
  extractNewsContent (contentOpen ++ body ++ contentClose)
  = match uncategorizedOf first ++ flat_map categoryOf secs with
    | [] => noItems
    | categories => categories
    end.
Proof.
  intros Hdiv Hbody Hfirst Hsecs Hne.
  assert (Hnil : ~ occurs contentOpen []).
  { intros (a & b & H). symmetry in H. apply app_eq_nil in H as [_ H].
    apply app_eq_nil in H as [H _]. discriminate. }
  destruct (matchAll_first_block [] body [] Hnil Hbody) as [more Hm].
  assert (E : [] ++ contentOpen ++ body ++ contentClose ++ []
              = contentOpen ++ body ++ contentClose)
    by (rewrite app_nil_r; reflexivity).
  rewrite E in Hm.
  unfold extractNewsContent, extractNewsContent_body. rewrite Hm.
  cbv zeta.
  assert (Hsplit : split headingRe (contentOpen ++ body ++ contentClose)
                   = first :: List.map sectionText secs).
  { rewrite <- Hdiv. unfold split, tokens, headingRe.
    rewrite (split_join headingMark (List.map sectionText secs)
               headingMark_borderless ltac:(discriminate)).
    - reflexivity.
    - apply Forall_map. eapply Forall_impl; [|exact Hsecs].
      intros sec [_ H]. exact H.
    - exact Hfirst. }
  rewrite Hsplit.
  replace (length (first :: List.map sectionText secs) <=? 1) with false
    by (destruct secs; [congruence|reflexivity]).
  unfold collectCategories.
  change (if truthy (trim first)
          then match extractCategoryItems first (lit "Uncategorized") with
               | [] => []
               | i :: l => [{| title := lit "Uncategorized"; items := i :: l |}]
               end
          else []) with (uncategorizedOf first).
  rewrite fold_pushSection_sections.
  - destruct (uncategorizedOf first ++ flat_map categoryOf secs); reflexivity.
  - eapply Forall_impl; [|exact Hsecs]. intros sec [H _]. exact H.
Qed.

End BlockSections.

(** ** Fragments made of text and anchors *)

Section Pieces.

Import WikiNews.

Lemma filter_held (acc : list str) (x : str) (l : list str) :
  includes acc x = true ->
  filter (fun e => negb (includes acc e))
    (filter (fun y => negb (str_eqb y x)) l)
  = filter (fun e => negb (includes acc e)) l.
Proof.
  intros Ex. induction l as [|y l IH]; [reflexivity|]. simpl.
  destruct (str_eqb y x) eqn:Eyx; simpl.
  - apply str_eqb_eq in Eyx. subst y. rewrite Ex. simpl. exact IH.
  - destruct (includes acc y); simpl; rewrite IH; reflexivity.
Qed.

Lemma filter_pushed (acc : list str) (x : str) (l : list str) :
  filter (fun e => negb (includes (acc ++ [x]) e)) l
  = filter (fun e => negb (includes acc e))
      (filter (fun y => negb (str_eqb y x)) l).
Proof.
  induction l as [|y l IH]; [reflexivity|]. simpl.
  unfold includes at 1. rewrite existsb_app. simpl.
  rewrite orb_false_r. fold (includes acc y).
  destruct (str_eqb y x) eqn:Eyx; simpl.
  - rewrite orb_true_r. simpl. exact IH.
  - rewrite orb_false_r. destruct (includes acc y); simpl;
      rewrite IH; reflexivity.
Qed.

Lemma uniq_push (es : list str) :
  forall acc,
    fold_left (fun links e => if includes links e then links else links ++ [e])
      es acc
    = acc ++ filter (fun e => negb (includes acc e)) (uniq es).
Proof.
  induction es as [|x es IH]; intros acc; simpl.
  - symmetry. apply app_nil_r.
  - rewrite IH. destruct (includes acc x) eqn:Ex; simpl.
    + rewrite filter_held by exact Ex. reflexivity.
    + rewrite <- app_assoc, filter_pushed. reflexivity.
Qed.

Lemma uniq_fold (es : list str) :
  fold_left (fun links e => if includes links e then links else links ++ [e])
    es []
  = uniq es.
Proof.
  rewrite uniq_push. simpl. induction (uniq es) as [|y l IH]; [reflexivity|].
  simpl. f_equal. exact IH.
Qed.

Lemma textChar_run_notHead (t : str) :
  forallb textChar t = true -> forallb (notHeadOf (lit "<a")) t = true.
Proof. apply forallb_impl. exact textChar_notHead. Qed.

Lemma pieceOk_anchor (href label : str) :
  forallb hrefChar href && truthy href && forallb labelChar label
  && truthy label = true ->
  forallb hrefChar href = true /\ truthy href = true
  /\ forallb labelChar label = true /\ truthy label = true.
Proof.
  intros H. repeat (apply andb_true_iff in H as [H ?]). auto.
Qed.

(** The external pass over a fragment: the external anchors are taken
    out and entered in the order of the text, all else is left. *)
Lemma external_pass_pieces (ps : list piece) :
  forallb pieceOk ps = true ->
  forall acc,
    replace_tokens externalReplacer
      (tokens_go externalAnchorRe (renderPieces ps) 0) acc
    = (acc ++ externalEntries ps,
       renderPieces
         (filter (fun p => match p with External _ _ => false | _ => true end)
            ps)).
Proof.
  unfold renderPieces.
  induction ps as [|p ps IH]; intros Hok acc.
  - simpl. rewrite app_nil_r. reflexivity.
  - cbn [forallb] in Hok. apply andb_true_iff in Hok as [Hp Hps].
    cbn [List.map concat]. destruct p as [t|href label|href label].
    + cbn [renderPiece pieceOk] in *.
      rewrite (tokens_go_headed externalAnchorRe _ (lit "<a") t _ eq_refl
                 (textChar_run_notHead t Hp)).
      rewrite replace_tokens_app, replace_tokens_plain, (IH Hps).
      reflexivity.
    + cbn [renderPiece pieceOk] in *.
      apply pieceOk_anchor in Hp as (Hh & _ & Hl & _).
      pose proof (tokens_go_external_over_anchor [] href label
                    (concat (List.map renderPiece ps)) eq_refl Hh Hl) as Ht.
      cbn [app] in Ht. rewrite Ht.
      rewrite replace_tokens_app, replace_tokens_plain, (IH Hps).
      reflexivity.
    + cbn [renderPiece pieceOk] in *.
      apply pieceOk_anchor in Hp as (Hh & Hth & Hl & Htl).
      rewrite (@tokens_go_match externalAnchorRe (externalAnchor href label)
                 (concat (List.map renderPiece ps)) [(2, label); (1, href)]
                 (externalAnchor_nonempty href label)
                 (exec_externalAnchor href label _ Hh Hl)).
      cbn [replace_tokens]. unfold externalReplacer at 1.
      cbn [cap Nat.eqb]. rewrite Htl, Hth. cbn [andb].
      rewrite (IH Hps). cbn [filter externalEntries flat_map app].
      rewrite <- app_assoc. reflexivity.
Qed.

(** The ordinary pass over a fragment without external anchors: each
    anchor leaves its label, and its entry unless the list holds it. *)
Lemma plain_pass_pieces (ps : list piece) :
  forallb pieceOk ps = true ->
  forallb (fun p => match p with External _ _ => false | _ => true end) ps
  = true ->
  forall acc,
    replace_tokens plainReplacer
      (tokens_go plainAnchorRe (renderPieces ps) 0) acc
    = (fold_left (fun links e => if includes links e then links else links ++ [e])
         (ordinaryEntries ps) acc,
       concat (List.map pieceText ps)).
Proof.
  unfold renderPieces.
  induction ps as [|p ps IH]; intros Hok Hne acc.
  - reflexivity.
  - cbn [forallb] in Hok, Hne. apply andb_true_iff in Hok as [Hp Hps].
    apply andb_true_iff in Hne as [Hn Hnps].
    cbn [List.map concat]. destruct p as [t|href label|href label];
      [| |discriminate].
    + cbn [renderPiece pieceOk] in *.
      rewrite (tokens_go_headed plainAnchorRe _ (lit "<a") t _ eq_refl
                 (textChar_run_notHead t Hp)).
      rewrite replace_tokens_app, replace_tokens_plain, (IH Hps Hnps).
      reflexivity.
    + cbn [renderPiece pieceOk] in *.
      apply pieceOk_anchor in Hp as (Hh & Hth & Hl & Htl).
      rewrite (@tokens_go_match plainAnchorRe (anchor href label)
                 (concat (List.map renderPiece ps)) [(2, label); (1, href)]
                 (anchor_nonempty href label)
                 (exec_plainAnchor href label _ Hh Hl)).
      cbn [replace_tokens]. unfold plainReplacer at 1.
      cbn [cap Nat.eqb]. rewrite Htl, Hth. cbn [negb orb].
      cbn [ordinaryEntries flat_map app fold_left pieceText].
      change (label ++ lit " (" ++
              (if startsWith (lit "/") href then origin ++ href else href)
              ++ lit ")") with (entry label (absolute href)).
      destruct (includes acc (entry label (absolute href))); cbn [negb];
        rewrite (IH Hps Hnps); reflexivity.
Qed.

Lemma ordinaryEntries_filter (ps : list piece) :
  ordinaryEntries
    (filter (fun p => match p with External _ _ => false | _ => true end) ps)
  = ordinaryEntries ps.
Proof.
  induction ps as [|[t|h l|h l] ps IH]; simpl; rewrite ?IH; reflexivity.
Qed.

Lemma pieceText_filter (ps : list piece) :
  concat (List.map pieceText
            (filter (fun p => match p with External _ _ => false | _ => true end)
               ps))
  = concat (List.map pieceText ps).
Proof.
  induction ps as [|[t|h l|h l] ps IH]; simpl; rewrite ?IH; reflexivity.
Qed.

Lemma pieceOk_filter (ps : list piece) :
  forallb pieceOk ps = true ->
  forallb pieceOk
    (filter (fun p => match p with External _ _ => false | _ => true end) ps)
  = true
  /\ forallb (fun p => match p with External _ _ => false | _ => true end)
       (filter (fun p => match p with External _ _ => false | _ => true end) ps)
     = true.
Proof.
  induction ps as [|p ps IH]; intros H; [split; reflexivity|].
  cbn [forallb] in H. apply andb_true_iff in H as [Hp Hps].
  destruct (IH Hps) as [H1 H2].
  destruct p as [t|h l|h l]; cbn [filter forallb]; rewrite ?Hp, ?H1, ?H2;
    split; reflexivity.
Qed.

(** X7: [#processItemLinks] on a fragment made of text without [<] and
    of anchors, ordinary or external-flagged, each with a target and a
    label. The text keeps the label of every ordinary anchor and nothing
    of an external one; the annotation list holds the entries of the
    ordinary anchors first, each once and with a relative target made
    absolute, then the entries of the external anchors, repeated ones
    included, all in the order of the text. *)
Theorem processItemLinks_on_pieces (ps : list piece) :
  forallb pieceOk ps = true ->
  processItemLinks (renderPieces ps)
  = {| itemText := concat (List.map pieceText ps);
       links := uniq (ordinaryEntries ps) ++ externalEntries ps |}.
Proof.
  intros Hok. unfold processItemLinks, replaceWith, tokens.
  rewrite (external_pass_pieces ps Hok []). cbn [app].
  destruct (pieceOk_filter ps Hok) as [Hok' Hne].
  rewrite (plain_pass_pieces _ Hok' Hne []).
  rewrite uniq_fold, ordinaryEntries_filter, pieceText_filter.
  reflexivity.
Qed.

End Pieces.

(** ** The list items of the earlier module *)

Section ModuleItems.

Import WikiNews.

Lemma module_pushListItem_bullets (items : list NewsItem) (mt : str * caps) :
  Forall (fun i => exists rest, text i = lit "- " ++ rest) items ->
  Forall (fun i => exists rest, text i = lit "- " ++ rest)
    (WikiNewsModule.pushListItem items mt).
Proof.
  intros H. unfold WikiNewsModule.pushListItem.
  destruct (truthy (cap 1 (snd mt))); [|exact H].
  destruct (negb (truthy (trim (cap 1 (snd mt))))); [exact H|].
  apply Forall_app. split; [exact H|]. constructor; [|constructor].
  unfold WikiNewsModule.formatListItem, WikiNewsModule.formatListItem_body.
  cbn [text try_catch]. eexists. reflexivity.
Qed.

(** X12: every item of the earlier module ([wikinews.module.ts]) is a
    Markdown bullet: its text starts with a hyphen and a space, through
    the list-item loop and through the whole-section fallback alike. *)
Theorem module_items_are_bullets (sectionContent categoryTitle : str) :
  Forall (fun i => exists rest, text i = lit "- " ++ rest)
    (WikiNewsModule.extractCategoryItems sectionContent categoryTitle).
Proof.
  unfold WikiNewsModule.extractCategoryItems,
    WikiNewsModule.extractCategoryItems_body.
  assert (H : forall ms items,
             Forall (fun i => exists rest, text i = lit "- " ++ rest) items ->
             Forall (fun i => exists rest, text i = lit "- " ++ rest)
               (fold_left WikiNewsModule.pushListItem ms items)).
  { induction ms as [|mt ms IH]; intros items Hi; [exact Hi|].
    simpl. apply IH, module_pushListItem_bullets, Hi. }
  specialize (H (execAll listItemRegex sectionContent) [] (Forall_nil _)).
  destruct (fold_left WikiNewsModule.pushListItem
              (execAll listItemRegex sectionContent) []) as [|i rest].
  - destruct (truthy (trim (WikiNewsModule.cleanHtml sectionContent)));
      cbn [try_catch]; repeat constructor. eexists. reflexivity.
  - exact H.
Qed.

Lemma no_char_no_occurrence (x : char) (p s : str) :
  forallb (fun y => negb (N.eqb y x)) s = true -> ~ occurs (x :: p) s.
Proof.
  intros H (a & b & ->). rewrite forallb_app in H.
  apply andb_true_iff in H as [_ H]. cbn [app forallb] in H.
  apply andb_true_iff in H as [H _]. rewrite N.eqb_refl in H. discriminate.
Qed.

Lemma replaceAll_without_head (x : char) (p by_ s : str) :
  forallb (fun y => negb (N.eqb y x)) s = true ->
  replaceAll (x :: p) by_ s = s.
Proof.
  intros H. unfold replaceAll, RegExp.replace.
  rewrite (replaceWith_without_prefix unit (Lit (x :: p)) (x :: p) _ s tt
             (needsPrefix_Lit _) (no_char_no_occurrence x p s H)).
  reflexivity.
Qed.

(** Text without [&] holds no entity. *)
Lemma decodeHtmlEntities_plain (s : str) :
  forallb (fun y => negb (N.eqb y 38)) s = true ->
  WikiNewsModule.decodeHtmlEntities s = s.
Proof.
  intros H. unfold WikiNewsModule.decodeHtmlEntities.
  change (lit "&amp;") with (38%N :: lit "amp;").
  change (lit "&lt;") with (38%N :: lit "lt;").
  change (lit "&gt;") with (38%N :: lit "gt;").
  change (lit "&quot;") with (38%N :: lit "quot;").
  change (lit "&#39;") with (38%N :: lit "#39;").
  change (lit "&ndash;") with (38%N :: lit "ndash;").
  change (lit "&mdash;") with (38%N :: lit "mdash;").
  change (lit "&nbsp;") with (38%N :: lit "nbsp;").
  rewrite !(replaceAll_without_head 38%N _ _ s H). reflexivity.
Qed.

(** The earlier module on an item without markup and without entity:
    the bullet and the text. *)
Lemma formatListItem_plain (s : str) :
  forallb textChar s = true ->
  forallb (fun y => negb (N.eqb y 38)) s = true ->
  WikiNewsModule.formatListItem s = lit "- " ++ s.
Proof.
  intros Ht Ha.
  unfold WikiNewsModule.formatListItem, WikiNewsModule.formatListItem_body.
  cbn [try_catch]. cbv zeta.
  assert (Hlt : forall p, ~ occurs (60%N :: p) s)
    by (intros p; apply no_char_no_occurrence; exact Ht).
  unfold RegExp.replace at 2.
  rewrite (replaceWith_without_prefix unit WikiNewsModule.italicRe (lit "<i>")
             _ _ tt (needsPrefix_Seq _ _) (Hlt _)).
  cbn [snd].
  rewrite (convertLinksToMarkdown_without_anchor s (Hlt _)).
  unfold RegExp.replace.
  rewrite (replaceWith_without_prefix unit tagRe (lit "<")
             _ _ tt (needsPrefix_Seq _ _) (Hlt _)).
  cbn [snd]. rewrite (decodeHtmlEntities_plain s Ha). reflexivity.
Qed.

End ModuleItems.

(** ** White space after the earlier cleaner *)

Section Collapse.

Import WikiNews.

(** A greedy run before the end of the pattern takes every character of
    its class. *)
Lemma star_greedy_rest (p : charclass) (s : str) :
  forall c c' rest,
    star true p (fun s' c0 => Some (c0, s')) s c = Some (c', rest) ->
    rest = [] \/ headIs (fun y => negb (p y)) rest = true.
Proof.
  induction s as [|x s IH]; intros c c' rest.
  - rewrite star_nil. intros H. injection H as _ <-. left. reflexivity.
  - simpl. destruct (p x) eqn:Ep.
    + destruct (star true p (fun s' c0 => Some (c0, s')) s c) as [[c1 r1]|] eqn:Es.
      * intros H. injection H as <- <-. eapply IH, Es.
      * exfalso. revert Es. apply star_total. discriminate.
    + intros H. injection H as _ <-. right. simpl. rewrite Ep. reflexivity.
Qed.

Lemma exec_spaces_rest (s rest : str) (c : caps) :
  exec_at spacesRe s = Some (c, rest) ->
  rest = [] \/ headIs (fun y => negb (isSpace y)) rest = true.
Proof.
  unfold exec_at, spacesRe, plus. rewrite m_Seq.
  destruct s as [|x s]; [discriminate|].
  destruct (isSpace x) eqn:Ex.
  - rewrite m_Chr_true by exact Ex. rewrite m_Star. apply star_greedy_rest.
  - rewrite m_Chr_false by exact Ex. discriminate.
Qed.

Lemma exec_spaces_nonspace (x : char) (s : str) :
  isSpace x = false -> exec_at spacesRe (x :: s) = None.
Proof.
  intros Ex. unfold exec_at, spacesRe, plus.
  rewrite m_Seq, m_Chr_false by exact Ex. reflexivity.
Qed.

(** After the runs of white space are replaced by one space each, no two
    spaces are adjacent, and the text starts with a space only where the
    string started with white space. *)
Lemma collapse_single (n : nat) :
  forall s, length s < n ->
    let out := RegExp.replace spacesRe (fun _ => lit " ") s in
    ~ occurs (lit "  ") out
    /\ (s = [] \/ headIs (fun y => negb (isSpace y)) s = true ->
        out = [] \/ headIs (fun y => negb (isSpace y)) out = true).
Proof.
  unfold RegExp.replace, RegExp.replaceWith, tokens.
  induction n as [|n IH]; intros s Hn; [lia|].
  destruct s as [|x s].
  - simpl. split; [|intros _; left; reflexivity].
    intros (a & b & H). destruct a; discriminate.
  - destruct (isSpace x) eqn:Ex.
    + destruct (spaces_match_at_space x s Ex) as (c & rest & He & Hl).
      apply exec_at_front in He as Hw. destruct Hw as [w Hw].
      assert (Hwn : w <> []).
      { intros ->. simpl in Hw. subst rest. simpl in Hl. lia. }
      rewrite Hw in He |- *.
      rewrite (@tokens_go_match spacesRe w rest c Hwn He).
      cbn [replace_tokens].
      assert (Hr : length rest < n).
      { apply (f_equal (@length char)) in Hw. rewrite length_app in Hw.
        simpl in Hw, Hn. lia. }
      destruct (IH rest Hr) as [Hno Hhead].
      apply exec_spaces_rest in He. specialize (Hhead He).
      destruct (replace_tokens _ (tokens_go spacesRe rest 0) tt) as [st out].
      cbn [snd] in *. split.
      * intros (a & b & H). destruct a as [|y a].
        -- cbn [app] in H. change (lit " " ++ out) with (32%N :: out) in H.
           change (lit "  " ++ b) with (32%N :: 32%N :: b) in H.
           injection H as H. subst out.
           destruct Hhead as [Hh|Hh]; [discriminate|].
           vm_compute in Hh. discriminate.
        -- change (lit " " ++ out) with (32%N :: out) in H.
           cbn [app] in H. injection H as _ H.
           apply Hno. exists a, b. exact H.
      * intros [Hs|Hs]; rewrite <- Hw in Hs; [discriminate|].
        cbn [headIs] in Hs. rewrite Ex in Hs. discriminate.
    + rewrite tokens_go_cons, (exec_spaces_nonspace x s Ex).
      cbn [replace_tokens].
      assert (Hr : length s < n) by (simpl in Hn; lia).
      destruct (IH s Hr) as [Hno _].
      destruct (replace_tokens _ (tokens_go spacesRe s 0) tt) as [st out].
      cbn [snd] in *. split.
      * intros (a & b & H). destruct a as [|y a].
        -- cbn [app] in H. change (lit "  " ++ b) with (32%N :: 32%N :: b) in H.
           injection H as H _. subst x. vm_compute in Ex. discriminate.
        -- cbn [app] in H. injection H as _ H.
           apply Hno. exists a, b. exact H.
      * intros _. right. simpl. rewrite Ex. reflexivity.
Qed.

Lemma trimStart_suffix (s : str) : exists a, s = a ++ trimStart s.
Proof.
  induction s as [|x s [a IH]]; [exists []; reflexivity|].
  simpl. destruct (isSpace x).
  - exists (x :: a). simpl. f_equal. exact IH.
  - exists []. reflexivity.
Qed.

Lemma trim_occurs (s : str) : occurs (trim s) s.
Proof.
  unfold trim, trimEnd.
  destruct (trimStart_suffix s) as [a Ha].
  destruct (trimStart_suffix (rev (trimStart s))) as [b Hb].
  apply (f_equal (@rev char)) in Hb. rewrite rev_involutive, rev_app_distr in Hb.
  exists a, (rev b). rewrite <- Hb. exact Ha.
Qed.

(** X14: the cleaner of the earlier module normalises white space: its
    result has none at either end, holds no white-space character other
    than the plain space, and never two spaces in a row. *)
Theorem module_cleanHtml_normalises (html : str) :
  trim (WikiNewsModule.cleanHtml html) = WikiNewsModule.cleanHtml html
  /\ (forall x, In x (WikiNewsModule.cleanHtml html) ->
      isSpace x = true -> x = 32%N)
  /\ ~ occurs (lit "  ") (WikiNewsModule.cleanHtml html).
Proof.
  unfold WikiNewsModule.cleanHtml. cbv zeta.
  set (text2 := WikiNewsModule.decodeHtmlEntities
                  (RegExp.replace tagRe (fun _ => []) html)).
  split; [apply trim_idem|]. split.
  - intros x Hx Hsp. apply trim_In in Hx.
    pose proof (collapse_plainSpaced text2) as H.
    rewrite Forall_forall in H. specialize (H x Hx).
    unfold plainSpaced in H. rewrite Hsp in H. simpl in H.
    apply N.eqb_eq, H.
  - intros H.
    destruct (collapse_single (S (length text2)) text2 (Nat.lt_succ_diag_r _))
      as [Hno _].
    apply Hno. eapply occurs_trans; [exact H|apply trim_occurs].
Qed.

End Collapse.

(** ** The text renderings *)

Section Renderings.

Lemma occurs_app_l (p a b : str) : occurs p a -> occurs p (a ++ b).
Proof.
  intros (x & y & ->). exists x, (y ++ b). rewrite <- !app_assoc. reflexivity.
Qed.

(** An element of a joined list stands after a separator, when the list
    itself does. *)
Lemma occurs_join (sep x : str) (l : list str) :
  In x l -> occurs (sep ++ x) (sep ++ join sep l).
Proof.
  induction l as [|y l IH]; intros Hin; [destruct Hin|].
  destruct l as [|z l].
  - destruct Hin as [->|[]]. apply occurs_refl.
  - rewrite join_cons. destruct Hin as [->|Hin].
    + rewrite app_assoc. apply occurs_prefix.
    + rewrite app_assoc. apply occurs_suffix, IH, Hin.
Qed.

Lemma numbered_nth (news : list ServiceReadhub.Topic) :
  forall idx k e,
    nth_error news k = Some e ->
    In (showN (N.of_nat (idx + k + 1)) ++ lit ". " ++ ServiceReadhub.topicTitle e)
       (Render.numbered idx news).
Proof.
  induction news as [|t news IH]; intros idx k e H.
  - destruct k; discriminate.
  - destruct k as [|k]; simpl in H.
    + injection H as ->. left. rewrite Nat.add_0_r. reflexivity.
    + right. replace (idx + S k + 1) with (S idx + k + 1) by lia.
      apply IH, H.
Qed.

End Renderings.

(** ** Further properties of the two services *)

(** X1: every item that [#extractCategoryItems] returns has a text that
    is not empty and has no white space at either end, whatever the
    section content: through the list-item loop and through the
    whole-section fallback alike. *)
Theorem extractCategoryItems_items_in_order (sectionContent categoryTitle : str) :
  Forall (fun i => itemTextOk (text i))
    (WikiNews.extractCategoryItems sectionContent categoryTitle).
Proof. apply extractCategoryItems_ok. Qed.

(** X2: every category that [#extractNewsContent] returns, on any page,
    holds at least one item, and every item text is not empty and has no
    white space at either end; the diagnostic categories included. *)
Theorem extractNewsContent_categories_in_order (html : str) :
  Forall categoryOk (WikiNews.extractNewsContent html).
Proof. apply extractNewsContent_ok. Qed.

(** X4: [#extractNewsContent] reads the first content block only: the
    text from the first opening tag of the block to the first [</div>]
    after it. What stands before the block, and everything after that
    [</div>], has no effect on the result. *)
Theorem extract_reads_first_block (pre body post : str) :
  ~ occurs WikiNews.contentOpen pre ->
  ~ occurs WikiNews.contentClose body ->
  (exists more,
     matchAll WikiNews.contentDivRe
       (pre ++ WikiNews.contentOpen ++ body ++ WikiNews.contentClose ++ post)
     = Some ((WikiNews.contentOpen ++ body ++ WikiNews.contentClose) :: more))
  /\ WikiNews.extractNewsContent
       (pre ++ WikiNews.contentOpen ++ body ++ WikiNews.contentClose ++ post)
     = WikiNews.extractNewsContent
         (WikiNews.contentOpen ++ body ++ WikiNews.contentClose).
Proof.
  intros Hpre Hbody. split.
  - apply matchAll_first_block; assumption.
  - apply extractNewsContent_first_block; assumption.
Qed.

Lemma extract_reads_first_block_witness :
  WikiNews.extractNewsContent
    (lit "<html><body>" ++ WikiNews.contentOpen ++ lit "<p>quiet</p>"
     ++ WikiNews.contentClose ++ lit "<div>late</div></body>")
  = WikiNews.extractNewsContent
      (WikiNews.contentOpen ++ lit "<p>quiet</p>" ++ WikiNews.contentClose).
Proof.
  apply (extract_reads_first_block (lit "<html><body>") (lit "<p>quiet</p>")
           (lit "<div>late</div></body>")).
  - apply indexOf_None_not_occurs. vm_compute. reflexivity.
  - apply indexOf_None_not_occurs. vm_compute. reflexivity.
Defined.

Lemma extract_sections_in_order_witness :
  WikiNews.extractNewsContent
    (WikiNews.contentOpen
     ++ lit "<p><b>Armed conflicts</b></p><ul><li>Event one.</li></ul><p><b>Sports</b></p><ul><li>Match played.</li></ul>"
     ++ WikiNews.contentClose)
  = match
      uncategorizedOf WikiNews.contentOpen
      ++ flat_map categoryOf
           [(lit "Armed conflicts", lit "<ul><li>Event one.</li></ul>");
            (lit "Sports", lit "<ul><li>Match played.</li></ul></div>")]
    with
    | [] => WikiNews.noItems
    | categories => categories
    end.
Proof.
  apply (extract_sections_in_order WikiNews.contentOpen
           (lit "<p><b>Armed conflicts</b></p><ul><li>Event one.</li></ul><p><b>Sports</b></p><ul><li>Match played.</li></ul>")
           [(lit "Armed conflicts", lit "<ul><li>Event one.</li></ul>");
            (lit "Sports", lit "<ul><li>Match played.</li></ul></div>")]).
  - vm_compute. reflexivity.
  - apply indexOf_None_not_occurs. vm_compute. reflexivity.
  - apply indexOf_None_not_occurs. vm_compute. reflexivity.
  - repeat constructor;
      try (apply indexOf_None_not_occurs); vm_compute; reflexivity.
  - discriminate.
Defined.

(** X6: the items of a section of the usual shape. When the section
    content is a run of list items, each after text without [<li>] and
    with no [</li>] in it, and then a tail without [<li>], the item loop
    of [#extractCategoryItems] sees exactly these items, in the order of
    the text; the result is what the loop makes of each, and the
    whole-section fallback only when that is nothing. *)
Theorem section_items_in_order (segments : list (str * str))
  (tail categoryTitle : str) :
  Forall (fun seg => ~ occurs (lit "<li>") (fst seg)
                     /\ ~ occurs (lit "</li>") (snd seg)) segments ->
  ~ occurs (lit "<li>") tail ->
  List.map (fun mt => cap 1 (snd mt))
    (execAll WikiNews.listItemRegex (itemsHtml segments tail))
  = List.map snd segments
  /\ WikiNews.extractCategoryItems (itemsHtml segments tail) categoryTitle
     = match flat_map itemOf (List.map snd segments) with
       | [] =>
           if truthy (trim (WikiNews.cleanHtml (itemsHtml segments tail)))
           then [{| text := trim (WikiNews.cleanHtml (itemsHtml segments tail)) |}]
           else []
       | its => its
       end.
Proof.
  intros Hs Ht. split.
  - apply execAll_items; assumption.
  - apply extractCategoryItems_items; assumption.
Qed.

Lemma section_items_in_order_witness :
  WikiNews.extractCategoryItems
    (itemsHtml [(lit "<ul>", lit "Event one."); (lit " ", lit "Event two.")]
       (lit "</ul>"))
    (lit "Sports")
  = [{| text := lit "Event one." |}; {| text := lit "Event two." |}].
Proof.
  refine (eq_trans
            (proj2 (section_items_in_order
                      [(lit "<ul>", lit "Event one."); (lit " ", lit "Event two.")]
                      (lit "</ul>") (lit "Sports") _ _)) _).
  - repeat constructor; apply indexOf_None_not_occurs; vm_compute; reflexivity.
  - apply indexOf_None_not_occurs. vm_compute. reflexivity.
  - vm_compute. reflexivity.
Defined.

Lemma processItemLinks_on_pieces_witness :
  WikiNews.processItemLinks
    (renderPieces
       [Text (lit "See "); Ordinary (lit "/wiki/A") (lit "A");
        External (lit "https://x.org/") (lit "Src"); Text (lit " and ");
        Ordinary (lit "/wiki/A") (lit "A");
        External (lit "https://x.org/") (lit "Src")])
  = {| WikiNews.itemText := lit "See A and A";
       WikiNews.links :=
         [lit "A (https://en.wikipedia.org/wiki/A)";
          lit "Src (https://x.org/)"; lit "Src (https://x.org/)"] |}.
Proof.
  refine (eq_trans (processItemLinks_on_pieces _ _) _).
  - vm_compute. reflexivity.
  - vm_compute. reflexivity.
Defined.

(** X8: a fragment in which [<a] does not occur passes [#processItemLinks]
    unchanged and gets no annotation; the link conversion of the earlier
    module returns it unchanged too. *)
Theorem fragment_without_anchor (html : str) :
  ~ occurs (lit "<a") html ->
  WikiNews.processItemLinks html
  = {| WikiNews.itemText := html; WikiNews.links := [] |}
  /\ WikiNews.itemFinalText html = WikiNews.cleanHtml html
  /\ WikiNewsMarkdown.convertLinksToMarkdown html = html.
Proof.
  intros H. split; [|split].
  - apply processItemLinks_without_anchor, H.
  - unfold WikiNews.itemFinalText.
    rewrite (processItemLinks_without_anchor html H). reflexivity.
  - apply convertLinksToMarkdown_without_anchor, H.
Qed.

Lemma fragment_without_anchor_witness :
  WikiNews.processItemLinks (lit "Plain <b>text</b>")
  = {| WikiNews.itemText := lit "Plain <b>text</b>"; WikiNews.links := [] |}
  /\ WikiNews.itemFinalText (lit "Plain <b>text</b>")
     = WikiNews.cleanHtml (lit "Plain <b>text</b>")
  /\ WikiNewsMarkdown.convertLinksToMarkdown (lit "Plain <b>text</b>")
     = lit "Plain <b>text</b>".
Proof.
  apply (fragment_without_anchor (lit "Plain <b>text</b>")).
  apply indexOf_None_not_occurs. vm_compute. reflexivity.
Defined.

Lemma wikinews_serves_wellformed_witness :
  match
    returned
      (ServiceWikiNews.fetch (fun _ => lit "2024/05/02") (fun _ => lit "08:00:00")
         (fun _ => 0%Z)
         (after (ServiceWikiNews.fetch (fun _ => lit "2024/05/02")
                   (fun _ => lit "08:00:00") (fun _ => 0%Z) ServiceWikiNews.init
                   1714636800000 (fun _ => HttpResponse 200 (Ok twoCategoryPage))))
         1714640400000 (fun _ => NetworkError (lit "offline")))
  with
  | Ok feed => news feed <> [] /\ updated_at feed = 1714636800000%Z
  | Throw _ => False
  end.
Proof.
  pose proof (wikinews_serves_wellformed (fun _ => lit "2024/05/02")
                (fun _ => lit "08:00:00") (fun _ => 0%Z)
                (after (ServiceWikiNews.fetch (fun _ => lit "2024/05/02")
                          (fun _ => lit "08:00:00") (fun _ => 0%Z)
                          ServiceWikiNews.init 1714636800000
                          (fun _ => HttpResponse 200 (Ok twoCategoryPage))))
                1714640400000 (fun _ => NetworkError (lit "offline"))
                (wn_fetch _ _ _ _ _ _ (wn_init _ _ _))) as H.
  destruct (returned _) as [feed|e].
  - destruct H as ((_ & _ & _ & Hn & _) & _ & Hl & _). split; [exact Hn|].
    rewrite <- Hl. vm_compute. reflexivity.
  - destruct H as (_ & H & _). vm_compute in H. discriminate H.
Defined.

Lemma readhub_serves_wellformed_witness :
  match
    returned
      (ServiceReadhub.fetch (fun _ => lit "2024/05/02") (fun _ => lit "08:00:00")
         (after (ServiceReadhub.fetch (fun _ => lit "2024/05/02")
                   (fun _ => lit "08:00:00") ServiceReadhub.init 1714636800000
                   (fun _ => HttpResponse 200
                               (Ok (lit "<a href=" ++ dq ++ lit "/topic/8abc" ++ dq
                                    ++ lit "> Chip news </a>")))))
         1714637400000 (fun _ => NetworkError (lit "offline")))
  with
  | Ok feed =>
      Forall topicOk (ServiceReadhub.rnews feed)
      /\ (1714637400000 - ServiceReadhub.rupdated_at feed < 30 * 60 * 1000)%Z
  | Throw _ => False
  end.
Proof.
  pose proof (readhub_serves_wellformed (fun _ => lit "2024/05/02")
                (fun _ => lit "08:00:00")
                (after (ServiceReadhub.fetch (fun _ => lit "2024/05/02")
                          (fun _ => lit "08:00:00") ServiceReadhub.init
                          1714636800000
                          (fun _ => HttpResponse 200
                                      (Ok (lit "<a href=" ++ dq ++ lit "/topic/8abc"
                                           ++ dq ++ lit "> Chip news </a>")))))
                1714637400000 (fun _ => NetworkError (lit "offline"))
                (rh_fetch _ _ _ _ _ (rh_init _ _))) as H.
  destruct (returned _) as [feed|e].
  - destruct H as ((_ & _ & _ & Ht) & _ & Hc & _). split; [exact Ht|].
    rewrite <- Hc. vm_compute. reflexivity.
  - destruct H as (_ & H & _). vm_compute in H. discriminate H.
Defined.

(** X11: every topic [ServiceReadhub.#fetch] parses from a page, whatever
    the page: its link is [https://readhub.cn/topic/] followed by at
    least one character and no double quote; its title is not empty, has
    no white space at either end and holds no [<]. *)
Theorem parseTopics_topics_in_order (html : str) :
  Forall topicOk (ServiceReadhub.parseTopics html).
Proof. apply parseTopics_ok. Qed.

(** X13: the earlier module on text without markup: a fragment that
    holds neither [<] nor [&] comes out of [#formatListItem] as the
    bullet followed by the fragment itself, and out of
    [#decodeHtmlEntities] unchanged. *)
Theorem formatListItem_on_plain_text (s : str) :
  forallb textChar s = true ->
  forallb (fun y => negb (N.eqb y 38)) s = true ->
  WikiNewsModule.formatListItem s = lit "- " ++ s
  /\ WikiNewsModule.decodeHtmlEntities s = s.
Proof.
  intros Ht Ha. split.
  - apply formatListItem_plain; assumption.
  - apply decodeHtmlEntities_plain, Ha.
Qed.

Lemma formatListItem_on_plain_text_witness :
  WikiNewsModule.formatListItem (lit "Talks resume in Geneva.")
  = lit "- Talks resume in Geneva."
  /\ WikiNewsModule.decodeHtmlEntities (lit "Talks resume in Geneva.")
     = lit "Talks resume in Geneva.".
Proof.
  apply (formatListItem_on_plain_text (lit "Talks resume in Geneva."));
    vm_compute; reflexivity.
Defined.

(** X15: the text rendering of [ServiceWikiNews.handle] leaves nothing
    out: every category of the feed has its title on a line of its own,
    and every item of it a line that starts with two spaces, a hyphen
    and a space. *)
Theorem wikiNewsText_shows_everything (data : WikiNewsItem)
  (category : NewsCategory) :
  In category (news data) ->
  occurs (Render.nl ++ title category ++ Render.nl) (Render.wikiNewsText data)
  /\ forall item,
       In item (items category) ->
       occurs (Render.nl ++ lit "  - " ++ text item) (Render.wikiNewsText data).
Proof.
  intros Hc.
  assert (Hcat : occurs ((Render.nl ++ Render.nl) ++ Render.categoryText category)
                   (Render.wikiNewsText data)).
  { unfold Render.wikiNewsText.
    replace (lit "Wikipedia Current Events (" ++ date data ++ lit ")"
             ++ Render.nl ++ Render.nl
             ++ join (Render.nl ++ Render.nl)
                  (List.map Render.categoryText (news data)))
      with ((lit "Wikipedia Current Events (" ++ date data ++ lit ")")
            ++ (Render.nl ++ Render.nl)
            ++ join (Render.nl ++ Render.nl)
                 (List.map Render.categoryText (news data)))
      by (rewrite <- !app_assoc; reflexivity).
    apply occurs_suffix, occurs_join, in_map, Hc. }
  split.
  - eapply occurs_trans; [|exact Hcat].
    unfold Render.categoryText. cbv zeta.
    exists Render.nl,
      (join Render.nl
         (List.map (fun item => lit "  - " ++ text item) (items category))).
    rewrite <- !app_assoc. reflexivity.
  - intros item Hi. eapply occurs_trans; [|exact Hcat].
    unfold Render.categoryText. cbv zeta.
    apply occurs_suffix. apply occurs_suffix.
    apply (occurs_join Render.nl (lit "  - " ++ text item)).
    apply (in_map (fun item => lit "  - " ++ text item)), Hi.
Qed.

Lemma wikiNewsText_shows_everything_witness :
  occurs (Render.nl ++ lit "Sports" ++ Render.nl)
    (Render.wikiNewsText
       {| date := lit "May 1, 2024"; news := twoCategories;
          source_url := []; updated := []; updated_at := 0 |})
  /\ forall item,
       In item [{| text := lit "Match played." |}] ->
       occurs (Render.nl ++ lit "  - " ++ text item)
         (Render.wikiNewsText
            {| date := lit "May 1, 2024"; news := twoCategories;
               source_url := []; updated := []; updated_at := 0 |}).
Proof.
  apply (wikiNewsText_shows_everything
           {| date := lit "May 1, 2024"; news := twoCategories;
              source_url := []; updated := []; updated_at := 0 |}
           {| title := lit "Sports";
              items := [{| text := lit "Match played." |}] |}).
  simpl. right. left. reflexivity.
Defined.

(** X16: the text rendering of [ServiceReadhub.handle] numbers the topics
    from 1 in the order of the feed: the topic at index [k] has a line
    that starts with the decimal of [k + 1], a full stop and a space,
    followed by its title. *)
Theorem readhubText_numbers_topics (data : ServiceReadhub.ReadhubNewsItem)
  (k : nat) (e : ServiceReadhub.Topic) :
  nth_error (ServiceReadhub.rnews data) k = Some e ->
  occurs (Render.nl ++ showN (N.of_nat (k + 1)) ++ lit ". "
          ++ ServiceReadhub.topicTitle e)
    (Render.readhubText data).
Proof.
  intros H. unfold Render.readhubText.
  replace (Render.readhubHeader ++ ServiceReadhub.rdate data ++ [65289%N]
           ++ Render.nl ++ Render.nl
           ++ join Render.nl (Render.numbered 0 (ServiceReadhub.rnews data))
           ++ Render.nl ++ Render.nl
           ++ (if truthy (ServiceReadhub.tip data)
               then Render.tipLabel ++ ServiceReadhub.tip data else []))
    with ((Render.readhubHeader ++ ServiceReadhub.rdate data ++ [65289%N]
           ++ Render.nl)
          ++ (Render.nl
              ++ join Render.nl (Render.numbered 0 (ServiceReadhub.rnews data)))
          ++ Render.nl ++ Render.nl
          ++ (if truthy (ServiceReadhub.tip data)
              then Render.tipLabel ++ ServiceReadhub.tip data else []))
    by (rewrite <- !app_assoc; reflexivity).
  apply occurs_suffix, occurs_app_l, occurs_join.
  apply (numbered_nth (ServiceReadhub.rnews data) 0 k e H).
Qed.

Lemma readhubText_numbers_topics_witness :
  occurs (Render.nl ++ lit "2. Second")
    (Render.readhubText
       {| ServiceReadhub.rdate := lit "2024/05/02";
          ServiceReadhub.rnews :=
            [{| ServiceReadhub.topicTitle := lit "First";
                ServiceReadhub.link := lit "https://readhub.cn/topic/1" |};
             {| ServiceReadhub.topicTitle := lit "Second";
                ServiceReadhub.link := lit "https://readhub.cn/topic/2" |}];
          ServiceReadhub.tip := ServiceReadhub.dailyTip;
          ServiceReadhub.rupdated := lit "08:00:00";
          ServiceReadhub.rupdated_at := 0 |}).
Proof.
  apply (readhubText_numbers_topics
           {| ServiceReadhub.rdate := lit "2024/05/02";
              ServiceReadhub.rnews :=
                [{| ServiceReadhub.topicTitle := lit "First";
                    ServiceReadhub.link := lit "https://readhub.cn/topic/1" |};
                 {| ServiceReadhub.topicTitle := lit "Second";
                    ServiceReadhub.link := lit "https://readhub.cn/topic/2" |}];
              ServiceReadhub.tip := ServiceReadhub.dailyTip;
              ServiceReadhub.rupdated := lit "08:00:00";
              ServiceReadhub.rupdated_at := 0 |}
           1 {| ServiceReadhub.topicTitle := lit "Second";
                ServiceReadhub.link := lit "https://readhub.cn/topic/2" |}).
  reflexivity.
Defined.

(** X17: the methods of the extractor, run on the instance with pattern
    objects that carry [lastIndex] and with the [while] loop over [exec]
    on fuel, return what the functions of the text return and leave the
    private fields as they were. [#cleanHtml] and [#processItemLinks] do
    so on every fragment; [#extractCategoryItems] and
    [#extractNewsContent] once the fuel exceeds the length of their
    text. *)
Theorem methods_return_the_functions (fuel : nat) (html categoryTitle : str)
  (this : ServiceWikiNews.State) :
  length html < fuel ->
  Stateful.cleanHtml html this = Some (WikiNews.cleanHtml html, this)
  /\ Stateful.processItemLinks html this
     = Some (WikiNews.processItemLinks html, this)
  /\ Stateful.extractCategoryItems fuel html categoryTitle this
     = Some (WikiNews.extractCategoryItems html categoryTitle, this)
  /\ Stateful.extractNewsContent fuel html this
     = Some (WikiNews.extractNewsContent html, this).
Proof.
  intros Hf. split; [apply cleanHtml_run|].
  split; [apply processItemLinks_run|].
  split; [apply extractCategoryItems_run, Hf|apply extractNewsContent_run, Hf].
Qed.

Lemma methods_return_the_functions_witness :
  Stateful.cleanHtml twoCategoryPage servedInstance
  = Some (WikiNews.cleanHtml twoCategoryPage, servedInstance)
  /\ Stateful.processItemLinks twoCategoryPage servedInstance
     = Some (WikiNews.processItemLinks twoCategoryPage, servedInstance)
  /\ Stateful.extractCategoryItems 400 twoCategoryPage (lit "Sports")
       servedInstance
     = Some (WikiNews.extractCategoryItems twoCategoryPage (lit "Sports"),
             servedInstance)
  /\ Stateful.extractNewsContent 400 twoCategoryPage servedInstance
     = Some (WikiNews.extractNewsContent twoCategoryPage, servedInstance).
Proof.
  apply (methods_return_the_functions 400 twoCategoryPage (lit "Sports")
           servedInstance).
  vm_compute. lia.
Defined.
